(** * Hiatus detector: a shallow embedding of [detector.py]

    The definitions follow the source file top to bottom: Python strings
    and the [unicodedata] interface, the configuration tables, the grapheme
    segmenter, the cluster predicates, the line index, the hiatus scanner,
    the span expander and the HTML annotation.  The detector is embedded
    over an arbitrary character database; an excerpt of the Unicode
    Character Database for polytonic Greek gives a database to run it on.

    The facts come next, component by component, first over any database
    and then, for the span expander, over those that share two facts with
    Unicode.  The claims of the specification close the file. *)

From Stdlib Require Import List NArith Arith ZArith Lia Bool Ascii String Sorted
  DecimalString.
Import ListNotations.

(* ================================================================= *)
(** ** Python strings *)

(** A Python [str] is a sequence of code points.  Positions, cluster
    indices and line numbers are Python ints that never go below zero in
    this program; they are natural numbers here, and every subtraction of
    the source is written with its guard. *)

Definition codepoint := N.
Definition str := list codepoint.

Fixpoint str_eqb (a b : str) : bool :=
  match a, b with
  | [], [] => true
  | x :: a', y :: b' => N.eqb x y && str_eqb a' b'
  | _, _ => false
  end.

(** [s[a:b]] for non-negative [a] and [b]; like Python, it clamps at the
    end of [s]. *)
Definition slice {A : Type} (s : list A) (a b : nat) : list A :=
  firstn (b - a) (skipn a s).

Fixpoint starts_with (needle hay : str) : bool :=
  match needle, hay with
  | [], _ => true
  | x :: n', y :: h' => N.eqb x y && starts_with n' h'
  | _ :: _, [] => false
  end.

(** [needle in hay] between two strings: the substring test. *)
Fixpoint str_in (needle hay : str) : bool :=
  starts_with needle hay
  || match hay with
     | [] => false
     | _ :: h' => str_in needle h'
     end.

(** [c in s] for a one-character string [c]. *)
Definition char_in (c : codepoint) (s : str) : bool := existsb (N.eqb c) s.

(** [s.count(c)] for a one-character string [c]. *)
Definition str_count (c : codepoint) (s : str) : nat :=
  List.length (filter (N.eqb c) s).

(** [x in S] for a set of strings [S]. *)
Definition set_mem (x : str) (S : list str) : bool := existsb (str_eqb x) S.

Definition enumerate {A : Type} (l : list A) : list (nat * A) :=
  combine (seq 0 (List.length l)) l.

(** [s1 in s2] on ASCII strings (used on [unicodedata.decomposition]). *)
Definition ascii_in (s1 s2 : string) : bool :=
  match String.index 0 s1 s2 with
  | Some _ => true
  | None => false
  end.

(** Code points of an ASCII literal. *)
Definition lit (s : string) : str :=
  map (fun a => N.of_nat (Ascii.nat_of_ascii a)) (list_ascii_of_string s).

(* ================================================================= *)
(** ** The [unicodedata] interface

    The tables of the Unicode Character Database belong to the Python
    runtime, not to the program.  The detector is therefore embedded over
    an arbitrary database [U]; everything proved in general holds for the
    database the interpreter ships. *)

Record UnicodeData : Type := {
  combining : codepoint -> N;            (* unicodedata.combining(ch) *)
  category : codepoint -> string;        (* unicodedata.category(ch) *)
  decomposition : codepoint -> string;   (* unicodedata.decomposition(ch) *)
  normalize_NFC : str -> str;            (* unicodedata.normalize("NFC", s) *)
  normalize_NFD : str -> str;            (* unicodedata.normalize("NFD", s) *)
  normalize_NFKD : str -> str;           (* unicodedata.normalize("NFKD", s) *)
  lower : codepoint -> str;              (* ch.lower() *)
  isspace : codepoint -> bool            (* ch.isspace() *)
}.

(* ================================================================= *)
(** ** Configuration (source lines 9 to 21) *)

Definition NEWLINE : codepoint := 0x0A%N.

Definition DIPHTHONGS : list str :=
  [ [0x3B1; 0x3B9]; [0x3B1; 0x3C5]; [0x3B5; 0x3B9]; [0x3B5; 0x3C5];
    [0x3BF; 0x3B9]; [0x3BF; 0x3C5]; [0x3C5; 0x3B9]; [0x3C9; 0x3B9];
    [0x1FC3]; [0x1FF3] ]%N.

Definition PRECOMPOSED_DIAERESIS : list str :=
  [ [0x3CA]; [0x390]; [0x3CB]; [0x3B0]; [0x3AA]; [0x3AB] ]%N.

Definition COMBINING_DIAERESIS : codepoint := 0x308%N.
Definition IOTA_SUBSCRIPT : codepoint := 0x345%N.
Definition BREATHINGS : list codepoint := [0x313; 0x314]%N.

Definition PRECOMPOSED_IOTA_SUBS : list str :=
  [ [0x1FB3]; [0x1FB4]; [0x1FB2]; [0x1FB7]; [0x1F80]; [0x1F81]; [0x1F82];
    [0x1F83]; [0x1F84]; [0x1F85]; [0x1F86]; [0x1F87];
    [0x1FC3]; [0x1FC4]; [0x1FC2]; [0x1FC7]; [0x1F90]; [0x1F91]; [0x1F92];
    [0x1F93]; [0x1F94]; [0x1F95]; [0x1F96]; [0x1F97];
    [0x1FF3]; [0x1FF4]; [0x1FF2]; [0x1FF7]; [0x1FA0]; [0x1FA1]; [0x1FA2];
    [0x1FA3]; [0x1FA4]; [0x1FA5]; [0x1FA6]; [0x1FA7] ]%N.

Definition BASE_VOWELS : str :=
  [0x3B1; 0x3B5; 0x3B7; 0x3B9; 0x3BF; 0x3C5; 0x3C9]%N.

(* ================================================================= *)
(** ** Data model *)

(** A dictionary as [grapheme_clusters] builds it. *)
Record grapheme : Type := mkGrapheme {
  g_text : str;
  g_start : nat;
  g_end : nat
}.

(** The same dictionary once the detector has stored its ['line'] key. *)
Record cluster : Type := mkCluster {
  cl_text : str;
  cl_start : nat;
  cl_end : nat;
  cl_line : nat
}.

Inductive hiatus_kind : Type :=
| IntraWord     (* "intra-word" *)
| InterWord     (* "interword" *)
| AcrossLine.   (* "across-line" *)

(** The dictionary appended to [occurrences] by the scanner. *)
Record hit : Type := mkHit {
  kind : hiatus_kind;
  start_pos : nat;
  end_pos : nat;
  snippet : str;
  cluster_i_text : str;
  cluster_j_text : str;
  line_i : nat;
  line_j : nat;
  i_index : nat;
  j_index : nat;
  intervening : str
}.

(** The same dictionary after the span expander has added its four keys. *)
Record occurrence : Type := mkOccurrence {
  found : hit;
  vowel_i_indices : list nat;
  vowel_j_indices : list nat;
  vowel_i_text : str;
  vowel_j_text : str
}.

(** What the inner loop of the scanner does for one start cluster. *)
Inductive scan_outcome : Type :=
| Exhausted                  (* the range of [j] ran out *)
| DiphthongStop              (* [break] at line 179 *)
| Recorded (h : hit).        (* [append] and [break] at lines 181 to 194 *)

Definition outcome_hits (o : scan_outcome) : list hit :=
  match o with
  | Recorded h => [h]
  | _ => []
  end.

Section Detector.

Variable U : UnicodeData.

(* ================================================================= *)
(** ** Grapheme segmenter (source lines 26 to 36) *)

(** The inner [while]: how far [i] moves over combining marks. *)
Fixpoint combining_run (rest : str) : nat :=
  match rest with
  | [] => 0
  | c :: rest' =>
      if N.eqb (combining U c) 0%N then 0 else S (combining_run rest')
  end.

(** The outer [while i < N], one cluster per turn.  Every turn moves [i]
    forward, so [length s] turns are enough (see [grapheme_clusters_cover]). *)
Fixpoint grapheme_clusters_loop (turns : nat) (s : str) (i : nat)
  : list grapheme :=
  match turns with
  | 0 => []
  | S turns' =>
      if i <? List.length s then
        let start := i in
        let i1 := i + 1 in
        let i2 := i1 + combining_run (skipn i1 s) in
        mkGrapheme (slice s start i2) start i2
          :: grapheme_clusters_loop turns' s i2
      else []
  end.

Definition grapheme_clusters (s : str) : list grapheme :=
  grapheme_clusters_loop (List.length s) s 0.

(* ================================================================= *)
(** ** Cluster classifier (source lines 38 to 91) *)

Definition is_base (ch : codepoint) : bool := N.eqb (combining U ch) 0%N.

Definition base_letter (cluster_text : str) : str :=
  match find is_base (normalize_NFD U cluster_text) with
  | Some ch => lower U ch
  | None => []
  end.

Definition contains_combining_diaeresis (cluster_text : str) : bool :=
  if existsb (fun ch => set_mem [ch] PRECOMPOSED_DIAERESIS) cluster_text
  then true
  else char_in COMBINING_DIAERESIS (normalize_NFD U cluster_text).

Definition contains_iota_subscript (cluster_text : str) : bool :=
  if char_in IOTA_SUBSCRIPT (normalize_NFD U cluster_text) then true
  else if char_in IOTA_SUBSCRIPT (normalize_NFKD U cluster_text) then true
  else if existsb (fun ch =>
                     let decomp := decomposition U ch in
                     negb (String.eqb decomp EmptyString) && ascii_in "0345" decomp)
                  cluster_text then true
  else if set_mem cluster_text PRECOMPOSED_IOTA_SUBS then true
  else false.

Definition contains_breathing (cluster_text : str) : bool :=
  let nfd := normalize_NFD U cluster_text in
  existsb (fun b => char_in b nfd) BREATHINGS.

Definition is_vowel_cluster (cluster_text : str) : bool :=
  let nfd := normalize_NFD U cluster_text in
  let bases := filter is_base nfd in
  existsb (fun base => str_in (lower U base) BASE_VOWELS) bases.

Definition is_punct_or_space_char (ch : codepoint) : bool :=
  if isspace U ch then true
  else
    let cat := category U ch in
    String.prefix "P" cat || String.prefix "S" cat.

Definition is_punct_or_space_cluster (cluster_text : str) : bool :=
  forallb is_punct_or_space_char cluster_text.

Definition is_letter_or_number (ch : codepoint) : bool :=
  let cat := category U ch in
  String.prefix "L" cat || String.prefix "N" cat.

Definition only_punct_space_between (t : str) (a b : nat) : bool :=
  forallb (fun ch => negb (is_letter_or_number ch)) (slice t a b).

(* ================================================================= *)
(** ** Line index (source lines 105 to 128) *)

Definition line_number_at (t : str) (idx : nat) : nat :=
  str_count NEWLINE (slice t 0 idx).

Definition add_line (t : str) (g : grapheme) : cluster :=
  mkCluster (g_text g) (g_start g) (g_end g) (line_number_at t (g_start g)).

(** [line_to_idxs[ln]]: the cluster indices of line [ln], in order. *)
Definition line_to_idxs (clusters : list cluster) (ln : nat) : list nat :=
  map fst (filter (fun p => cl_line (snd p) =? ln) (enumerate clusters)).

(** One turn of [for idx in idxs] on the pair [(first, last)]. *)
Definition nonpunct_step (clusters : list cluster)
  (st : option nat * option nat) (idx : nat) : option nat * option nat :=
  match nth_error clusters idx with
  | Some c =>
      if is_punct_or_space_cluster (cl_text c) then st
      else (match fst st with None => Some idx | Some f => Some f end,
            Some idx)
  | None => st
  end.

Definition first_last_nonpunct (clusters : list cluster) (idxs : list nat)
  : option nat * option nat :=
  fold_left (nonpunct_step clusters) idxs (None, None).

(** [first_nonpunct.get(ln)] and [last_nonpunct.get(ln)]: [None] both for
    a line without clusters and for a line whose stored value is [None]. *)
Definition first_nonpunct (clusters : list cluster) (ln : nat) : option nat :=
  fst (first_last_nonpunct clusters (line_to_idxs clusters ln)).

Definition last_nonpunct (clusters : list cluster) (ln : nat) : option nat :=
  snd (first_last_nonpunct clusters (line_to_idxs clusters ln)).

(* ================================================================= *)
(** ** Hiatus scanner (source lines 130 to 194) *)

(** Lines 139 to 158: the kind of the pair, [None] when it is no hiatus. *)
Definition classify_kind (t : str) (clusters : list cluster)
  (i : nat) (ci : cluster) (j : nat) (cj : cluster) : option hiatus_kind :=
  let between := slice t (cl_end ci) (cl_start cj) in
  if char_in NEWLINE between then
    if cl_line cj =? cl_line ci + 1 then
      match last_nonpunct clusters (cl_line ci),
            first_nonpunct clusters (cl_line cj) with
      | Some last_idx, Some first_idx =>
          if (last_idx =? i) && (first_idx =? j) then Some AcrossLine
          else None
      | _, _ => None
      end
    else None
  else if str_eqb between [] then Some IntraWord
  else if only_punct_space_between t (cl_end ci) (cl_start cj)
          && (cl_line ci =? cl_line cj) then Some InterWord
  else None.

(** Lines 164 to 176: the four assignments to [is_diph], in order. *)
Definition diphthong_decision (treat_iota_as_diphthong : bool)
  (k : hiatus_kind) (ci cj : cluster) : bool :=
  match k with
  | IntraWord =>
      let b1 := base_letter (cl_text ci) in
      let b2 := base_letter (cl_text cj) in
      let pair := b1 ++ b2 in
      let is_diph := false in
      let is_diph := if set_mem pair DIPHTHONGS then true else is_diph in
      let is_diph :=
        if treat_iota_as_diphthong
           && (contains_iota_subscript (cl_text ci)
               || contains_iota_subscript (cl_text cj))
        then true else is_diph in
      let is_diph :=
        if contains_combining_diaeresis (cl_text cj) then false
        else is_diph in
      let is_diph :=
        if contains_breathing (cl_text ci) then false else is_diph in
      is_diph
  | _ => false
  end.

Definition make_hit (t : str) (k : hiatus_kind)
  (i : nat) (ci : cluster) (j : nat) (cj : cluster) : hit :=
  {| kind := k;
     start_pos := cl_start ci;
     end_pos := cl_end cj;
     snippet := slice t (cl_start ci) (cl_end cj);
     cluster_i_text := cl_text ci;
     cluster_j_text := cl_text cj;
     line_i := cl_line ci + 1;
     line_j := cl_line cj + 1;
     i_index := i;
     j_index := j;
     intervening := slice t (cl_end ci) (cl_start cj) |}.

(** The inner [for j in range(...)] over the values [js] still to visit.
    Every [j] of the range is below [len(clusters)], so [clusters[j]]
    exists; the [None] branch is never taken. *)
Fixpoint scan_from (t : str) (clusters : list cluster)
  (treat_iota_as_diphthong : bool) (i : nat) (ci : cluster) (js : list nat)
  : scan_outcome :=
  match js with
  | [] => Exhausted
  | j :: js' =>
      match nth_error clusters j with
      | None => Exhausted
      | Some cj =>
          if negb (is_vowel_cluster (cl_text cj)) then
            scan_from t clusters treat_iota_as_diphthong i ci js'
          else
            match classify_kind t clusters i ci j cj with
            | None => scan_from t clusters treat_iota_as_diphthong i ci js'
            | Some k =>
                if diphthong_decision treat_iota_as_diphthong k ci cj
                then DiphthongStop
                else Recorded (make_hit t k i ci j cj)
            end
      end
  end.

(** [range(i+1, min(i+1+max_cluster_lookahead, len(clusters)))]; the bound
    is a Python int and may be negative, the range is then empty. *)
Definition lookahead_range (i : nat) (max_cluster_lookahead : Z) (n : nat)
  : list nat :=
  let hi := Z.to_nat (Z.min (Z.of_nat i + 1 + max_cluster_lookahead)
                            (Z.of_nat n)) in
  seq (i + 1) (hi - (i + 1)).

(** One turn of the outer [for i, ci in enumerate(clusters)]. *)
Definition scan_start (t : str) (clusters : list cluster)
  (treat_iota_as_diphthong : bool) (max_cluster_lookahead : Z)
  (i : nat) (ci : cluster) : scan_outcome :=
  if negb (is_vowel_cluster (cl_text ci)) then Exhausted
  else scan_from t clusters treat_iota_as_diphthong i ci
         (lookahead_range i max_cluster_lookahead (List.length clusters)).

Definition scan (t : str) (clusters : list cluster)
  (treat_iota_as_diphthong : bool) (max_cluster_lookahead : Z) : list hit :=
  flat_map
    (fun p => outcome_hits
                (scan_start t clusters treat_iota_as_diphthong
                   max_cluster_lookahead (fst p) (snd p)))
    (enumerate clusters).

(* ================================================================= *)
(** ** Span expander (source lines 197 to 233) *)

Definition safe_base (clusters : list cluster) (idx : nat) : str :=
  match nth_error clusters idx with
  | Some c => base_letter (cl_text c)
  | None => []
  end.

Definition diphthong_at (clusters : list cluster) (a b : nat) : bool :=
  set_mem (safe_base clusters a ++ safe_base clusters b) DIPHTHONGS.

(** Lines 206 to 224: the two index lists as grown, before line 226.
    On natural numbers the guard [i_idx - 1 >= 0] reads [1 <= i_idx], and
    [j_idx - 1 > i_idx] keeps its form ([j_idx - 1] is 0 where Python has
    -1, and neither is above [i_idx]). *)
Definition grow_spans (clusters : list cluster) (i_idx j_idx : nat)
  : list nat * list nat :=
  let vowel_i_indices := [i_idx] in
  let vowel_j_indices := [j_idx] in
  let vowel_i_indices :=
    if (i_idx + 1 <? j_idx) && diphthong_at clusters i_idx (i_idx + 1)
    then [i_idx; i_idx + 1] else vowel_i_indices in
  let vowel_i_indices :=
    if (1 <=? i_idx) && diphthong_at clusters (i_idx - 1) i_idx
    then [i_idx - 1; i_idx] else vowel_i_indices in
  let vowel_j_indices :=
    if (i_idx <? j_idx - 1) && diphthong_at clusters (j_idx - 1) j_idx
    then [j_idx - 1; j_idx] else vowel_j_indices in
  let vowel_j_indices :=
    if (j_idx + 1 <? List.length clusters)
       && diphthong_at clusters j_idx (j_idx + 1)
       && (i_idx <? j_idx + 1)
    then vowel_j_indices ++ [j_idx + 1] else vowel_j_indices in
  (vowel_i_indices, vowel_j_indices).

(** [set(vowel_i_indices) & set(vowel_j_indices)], as a truth value. *)
Definition spans_overlap (vi vj : list nat) : bool :=
  existsb (fun k => existsb (Nat.eqb k) vj) vi.

(** Lines 226 to 228. *)
Definition resolve_overlap (i_idx : nat) (spans : list nat * list nat)
  : list nat * list nat :=
  if spans_overlap (fst spans) (snd spans)
  then ([i_idx], filter (fun k => negb (k =? i_idx)) (snd spans))
  else spans.

Definition expand_spans (clusters : list cluster) (i_idx j_idx : nat)
  : list nat * list nat :=
  resolve_overlap i_idx (grow_spans clusters i_idx j_idx).

(** ["".join(clusters[k]['text'] for k in indices)]; the indices are
    those of [expand_spans], all of them valid. *)
Definition join_texts (clusters : list cluster) (indices : list nat) : str :=
  flat_map (fun k => match nth_error clusters k with
                     | Some c => cl_text c
                     | None => []
                     end) indices.

Definition expand (clusters : list cluster) (h : hit) : occurrence :=
  let spans := expand_spans clusters (i_index h) (j_index h) in
  {| found := h;
     vowel_i_indices := fst spans;
     vowel_j_indices := snd spans;
     vowel_i_text := join_texts clusters (fst spans);
     vowel_j_text := join_texts clusters (snd spans) |}.

(* ================================================================= *)
(** ** HTML annotation (source lines 235 to 259) *)

(** [html.escape(s)] of the Python library, with its default [quote=True]. *)
Definition html_escape_char (ch : codepoint) : str :=
  if N.eqb ch 0x26%N then lit "&amp;"
  else if N.eqb ch 0x3C%N then lit "&lt;"
  else if N.eqb ch 0x3E%N then lit "&gt;"
  else if N.eqb ch 0x22%N then lit "&quot;"
  else if N.eqb ch 0x27%N then lit "&#x27;"
  else [ch].

Definition html_escape (s : str) : str := flat_map html_escape_char s.

(** [cluster_marks[k]]: the numbers of the occurrences that list [k], one
    entry for each time [k] is listed; [k in cluster_marks] holds exactly
    when the list is not empty. *)
Definition cluster_marks (occurrences : list occurrence) (k : nat)
  : list nat :=
  flat_map
    (fun p =>
       map (fun _ => S (fst p))
           (filter (Nat.eqb k)
                   (vowel_i_indices (snd p) ++ vowel_j_indices (snd p))))
    (enumerate occurrences).

Definition list_min (l : list nat) : nat :=
  match l with
  | [] => 0
  | x :: l' => fold_left Nat.min l' x
  end.

Definition DQUOTE : str := [0x22%N].

Definition span_class_title (k : hiatus_kind) : str * str :=
  match k with
  | AcrossLine => (lit "hiatus-across", lit "across-line hiatus")
  | InterWord => (lit "hiatus-inter", lit "interword hiatus")
  | IntraWord => (lit "hiatus-intra", lit "intra-word hiatus")
  end.

Definition html_part (occurrences : list occurrence) (k : nat) (cl : cluster)
  : str :=
  let esc := html_escape (cl_text cl) in
  match cluster_marks occurrences k with
  | [] => esc
  | marks =>
      let occ_id := list_min marks in
      match nth_error occurrences (occ_id - 1) with
      | Some occ =>
          let ct := span_class_title (kind (found occ)) in
          lit "<span class=" ++ DQUOTE ++ fst ct ++ DQUOTE
            ++ lit " title=" ++ DQUOTE ++ html_escape (snd ct) ++ DQUOTE
            ++ lit ">" ++ esc ++ lit "</span>"
      | None => esc
      end
  end.

Definition annotate (clusters : list cluster) (occurrences : list occurrence)
  : str :=
  flat_map (fun p => html_part occurrences (fst p) (snd p))
           (enumerate clusters).

(* ================================================================= *)
(** ** The detector (source lines 96 to 260) *)

Definition clusters_of (t : str) : list cluster :=
  map (add_line t) (grapheme_clusters t).

Definition detect_hiatus_in_text (text : str)
  (treat_iota_as_diphthong : bool) (max_cluster_lookahead : Z)
  : str * list occurrence :=
  let t := normalize_NFC U text in
  let clusters := clusters_of t in
  let occurrences :=
    map (expand clusters)
        (scan t clusters treat_iota_as_diphthong max_cluster_lookahead) in
  (annotate clusters occurrences, occurrences).

End Detector.

(* ================================================================= *)
(** ** Report rows (source lines 300 to 339)

    [write_outputs] builds one table row and one CSV record per occurrence
    and then writes two files.  The two lists are embedded; the template
    and the writing belong to the file system and are not. *)

(** [str(n)] for an int that is not negative. *)
Definition str_of_nat (n : nat) : str :=
  lit (NilZero.string_of_uint (Nat.to_uint n)).

(** The string an occurrence holds under ['kind']. *)
Definition kind_text (k : hiatus_kind) : str :=
  match k with
  | IntraWord => lit "intra-word"
  | InterWord => lit "interword"
  | AcrossLine => lit "across-line"
  end.

Definition kind_short (k : str) : str :=
  if str_eqb k (lit "intra-word") then lit "I"
  else if str_eqb k (lit "interword") then lit "B"
  else if str_eqb k (lit "across-line") then lit "V"
  else k.

(** Lines 315 to 318, for the short kind [k] of the occurrence. *)
Definition line_display (k : str) (occ : occurrence) : str :=
  if str_eqb k (lit "V")
  then str_of_nat (line_i (found occ)) ++ lit "-"
         ++ str_of_nat (line_j (found occ))
  else str_of_nat (line_i (found occ)).

(** Lines 323 to 329, for the occurrence numbered [n]. *)
Definition html_row (n : nat) (occ : occurrence) : str :=
  let k := kind_short (kind_text (kind (found occ))) in
  let v1_html := html_escape (vowel_i_text occ) in
  let v2_html := html_escape (vowel_j_text occ) in
  lit "<tr><td>" ++ str_of_nat n ++ lit "</td>"
    ++ lit "<td>" ++ k ++ lit "</td>"
    ++ lit "<td>" ++ line_display k occ ++ lit "</td>"
    ++ lit "<td>" ++ v1_html ++ lit "</td>"
    ++ lit "<td>" ++ v2_html ++ lit "</td></tr>".

(** The dictionary appended to [csv_rows], lines 331 to 339. *)
Record csv_row : Type := mkCsvRow {
  csv_index : nat;
  csv_kind : str;
  csv_line : str;
  csv_start_pos : nat;
  csv_end_pos : nat;
  csv_vowel_i : str;
  csv_vowel_j : str
}.

Definition csv_row_of (n : nat) (occ : occurrence) : csv_row :=
  let k := kind_short (kind_text (kind (found occ))) in
  {| csv_index := n;
     csv_kind := k;
     csv_line := line_display k occ;
     csv_start_pos := start_pos (found occ);
     csv_end_pos := end_pos (found occ);
     csv_vowel_i := vowel_i_text occ;
     csv_vowel_j := vowel_j_text occ |}.

(** The loop [for n, occ in enumerate(occurrences, 1)]: the two lists it
    leaves behind. *)
Definition report_rows (occurrences : list occurrence)
  : list str * list csv_row :=
  (map (fun p => html_row (S (fst p)) (snd p)) (enumerate occurrences),
   map (fun p => csv_row_of (S (fst p)) (snd p)) (enumerate occurrences)).

(* ================================================================= *)
(** ** An excerpt of the Unicode Character Database

    The rows of [UnicodeData.txt] (Unicode 14.0, the version of the
    interpreter's [unicodedata]) for the code points polytonic Greek text
    is made of: general category, canonical combining class, decomposition
    mapping and lowercase mapping.  The excerpt is closed under its own
    mappings.  The normalization forms are computed from the rows as
    UAX 15 prescribes.  A code point outside the excerpt is treated as
    unassigned. *)

Module GreekUCD.

Local Open Scope N_scope.

Inductive ucd_mapping : Type :=
| NoMap
| Canon (m : str)
| Compat (m : str).   (* tagged <compat> *)

Record ucd_entry : Type := mkEntry {
  e_category : string;
  e_combining : N;
  e_mapping : ucd_mapping;
  e_lower : str    (* empty when the code point is its own lowercase *)
}.

Definition E (cp : codepoint) (cat : string) (ccc : N) (mp : ucd_mapping)
  (low : str) : codepoint * ucd_entry :=
  (cp, mkEntry cat ccc mp low).

(** C0 controls, Basic Latin and the spacing marks that Greek decomposes to. *)
Definition UCD_LATIN : list (codepoint * ucd_entry) :=
  [
    E 0x0009 "Cc" 0 NoMap [];
    E 0x000A "Cc" 0 NoMap [];
    E 0x000D "Cc" 0 NoMap [];
    E 0x0020 "Zs" 0 NoMap [];
    E 0x0021 "Po" 0 NoMap [];
    E 0x0022 "Po" 0 NoMap [];
    E 0x0023 "Po" 0 NoMap [];
    E 0x0024 "Sc" 0 NoMap [];
    E 0x0025 "Po" 0 NoMap [];
    E 0x0026 "Po" 0 NoMap [];
    E 0x0027 "Po" 0 NoMap [];
    E 0x0028 "Ps" 0 NoMap [];
    E 0x0029 "Pe" 0 NoMap [];
    E 0x002A "Po" 0 NoMap [];
    E 0x002B "Sm" 0 NoMap [];
    E 0x002C "Po" 0 NoMap [];
    E 0x002D "Pd" 0 NoMap [];
    E 0x002E "Po" 0 NoMap [];
    E 0x002F "Po" 0 NoMap [];
    E 0x0030 "Nd" 0 NoMap [];
    E 0x0031 "Nd" 0 NoMap [];
    E 0x0032 "Nd" 0 NoMap [];
    E 0x0033 "Nd" 0 NoMap [];
    E 0x0034 "Nd" 0 NoMap [];
    E 0x0035 "Nd" 0 NoMap [];
    E 0x0036 "Nd" 0 NoMap [];
    E 0x0037 "Nd" 0 NoMap [];
    E 0x0038 "Nd" 0 NoMap [];
    E 0x0039 "Nd" 0 NoMap [];
    E 0x003A "Po" 0 NoMap [];
    E 0x003B "Po" 0 NoMap [];
    E 0x003C "Sm" 0 NoMap [];
    E 0x003D "Sm" 0 NoMap [];
    E 0x003E "Sm" 0 NoMap [];
    E 0x003F "Po" 0 NoMap [];
    E 0x0040 "Po" 0 NoMap [];
    E 0x0041 "Lu" 0 NoMap [0x0061];
    E 0x0042 "Lu" 0 NoMap [0x0062];
    E 0x0043 "Lu" 0 NoMap [0x0063];
    E 0x0044 "Lu" 0 NoMap [0x0064];
    E 0x0045 "Lu" 0 NoMap [0x0065];
    E 0x0046 "Lu" 0 NoMap [0x0066];
    E 0x0047 "Lu" 0 NoMap [0x0067];
    E 0x0048 "Lu" 0 NoMap [0x0068];
    E 0x0049 "Lu" 0 NoMap [0x0069];
    E 0x004A "Lu" 0 NoMap [0x006A];
    E 0x004B "Lu" 0 NoMap [0x006B];
    E 0x004C "Lu" 0 NoMap [0x006C];
    E 0x004D "Lu" 0 NoMap [0x006D];
    E 0x004E "Lu" 0 NoMap [0x006E];
    E 0x004F "Lu" 0 NoMap [0x006F];
    E 0x0050 "Lu" 0 NoMap [0x0070];
    E 0x0051 "Lu" 0 NoMap [0x0071];
    E 0x0052 "Lu" 0 NoMap [0x0072];
    E 0x0053 "Lu" 0 NoMap [0x0073];
    E 0x0054 "Lu" 0 NoMap [0x0074];
    E 0x0055 "Lu" 0 NoMap [0x0075];
    E 0x0056 "Lu" 0 NoMap [0x0076];
    E 0x0057 "Lu" 0 NoMap [0x0077];
    E 0x0058 "Lu" 0 NoMap [0x0078];
    E 0x0059 "Lu" 0 NoMap [0x0079];
    E 0x005A "Lu" 0 NoMap [0x007A];
    E 0x005B "Ps" 0 NoMap [];
    E 0x005C "Po" 0 NoMap [];
    E 0x005D "Pe" 0 NoMap [];
    E 0x005E "Sk" 0 NoMap [];
    E 0x005F "Pc" 0 NoMap [];
    E 0x0060 "Sk" 0 NoMap [];
    E 0x0061 "Ll" 0 NoMap [];
    E 0x0062 "Ll" 0 NoMap [];
    E 0x0063 "Ll" 0 NoMap [];
    E 0x0064 "Ll" 0 NoMap [];
    E 0x0065 "Ll" 0 NoMap [];
    E 0x0066 "Ll" 0 NoMap [];
    E 0x0067 "Ll" 0 NoMap [];
    E 0x0068 "Ll" 0 NoMap [];
    E 0x0069 "Ll" 0 NoMap [];
    E 0x006A "Ll" 0 NoMap [];
    E 0x006B "Ll" 0 NoMap [];
    E 0x006C "Ll" 0 NoMap [];
    E 0x006D "Ll" 0 NoMap [];
    E 0x006E "Ll" 0 NoMap [];
    E 0x006F "Ll" 0 NoMap [];
    E 0x0070 "Ll" 0 NoMap [];
    E 0x0071 "Ll" 0 NoMap [];
    E 0x0072 "Ll" 0 NoMap [];
    E 0x0073 "Ll" 0 NoMap [];
    E 0x0074 "Ll" 0 NoMap [];
    E 0x0075 "Ll" 0 NoMap [];
    E 0x0076 "Ll" 0 NoMap [];
    E 0x0077 "Ll" 0 NoMap [];
    E 0x0078 "Ll" 0 NoMap [];
    E 0x0079 "Ll" 0 NoMap [];
    E 0x007A "Ll" 0 NoMap [];
    E 0x007B "Ps" 0 NoMap [];
    E 0x007C "Sm" 0 NoMap [];
    E 0x007D "Pe" 0 NoMap [];
    E 0x007E "Sm" 0 NoMap [];
    E 0x00A8 "Sk" 0 (Compat [0x0020; 0x0308]) [];
    E 0x00B4 "Sk" 0 (Compat [0x0020; 0x0301]) [];
    E 0x00B7 "Po" 0 NoMap [];
    E 0x02B9 "Lm" 0 NoMap []
  ].

(** The combining diacritical marks of polytonic Greek. *)
Definition UCD_MARKS : list (codepoint * ucd_entry) :=
  [
    E 0x0300 "Mn" 230 NoMap [];
    E 0x0301 "Mn" 230 NoMap [];
    E 0x0304 "Mn" 230 NoMap [];
    E 0x0306 "Mn" 230 NoMap [];
    E 0x0308 "Mn" 230 NoMap [];
    E 0x0313 "Mn" 230 NoMap [];
    E 0x0314 "Mn" 230 NoMap [];
    E 0x0342 "Mn" 230 NoMap [];
    E 0x0343 "Mn" 230 (Canon [0x0313]) [];
    E 0x0344 "Mn" 230 (Canon [0x0308; 0x0301]) [];
    E 0x0345 "Mn" 240 NoMap []
  ].

(** Greek and Coptic, U+0370 to U+03FF. *)
Definition UCD_GREEK : list (codepoint * ucd_entry) :=
  [
    E 0x0370 "Lu" 0 NoMap [0x0371];
    E 0x0371 "Ll" 0 NoMap [];
    E 0x0372 "Lu" 0 NoMap [0x0373];
    E 0x0373 "Ll" 0 NoMap [];
    E 0x0374 "Lm" 0 (Canon [0x02B9]) [];
    E 0x0375 "Sk" 0 NoMap [];
    E 0x0376 "Lu" 0 NoMap [0x0377];
    E 0x0377 "Ll" 0 NoMap [];
    E 0x037A "Lm" 0 (Compat [0x0020; 0x0345]) [];
    E 0x037B "Ll" 0 NoMap [];
    E 0x037C "Ll" 0 NoMap [];
    E 0x037D "Ll" 0 NoMap [];
    E 0x037E "Po" 0 (Canon [0x003B]) [];
    E 0x037F "Lu" 0 NoMap [0x03F3];
    E 0x0384 "Sk" 0 (Compat [0x0020; 0x0301]) [];
    E 0x0385 "Sk" 0 (Canon [0x00A8; 0x0301]) [];
    E 0x0386 "Lu" 0 (Canon [0x0391; 0x0301]) [0x03AC];
    E 0x0387 "Po" 0 (Canon [0x00B7]) [];
    E 0x0388 "Lu" 0 (Canon [0x0395; 0x0301]) [0x03AD];
    E 0x0389 "Lu" 0 (Canon [0x0397; 0x0301]) [0x03AE];
    E 0x038A "Lu" 0 (Canon [0x0399; 0x0301]) [0x03AF];
    E 0x038C "Lu" 0 (Canon [0x039F; 0x0301]) [0x03CC];
    E 0x038E "Lu" 0 (Canon [0x03A5; 0x0301]) [0x03CD];
    E 0x038F "Lu" 0 (Canon [0x03A9; 0x0301]) [0x03CE];
    E 0x0390 "Ll" 0 (Canon [0x03CA; 0x0301]) [];
    E 0x0391 "Lu" 0 NoMap [0x03B1];
    E 0x0392 "Lu" 0 NoMap [0x03B2];
    E 0x0393 "Lu" 0 NoMap [0x03B3];
    E 0x0394 "Lu" 0 NoMap [0x03B4];
    E 0x0395 "Lu" 0 NoMap [0x03B5];
    E 0x0396 "Lu" 0 NoMap [0x03B6];
    E 0x0397 "Lu" 0 NoMap [0x03B7];
    E 0x0398 "Lu" 0 NoMap [0x03B8];
    E 0x0399 "Lu" 0 NoMap [0x03B9];
    E 0x039A "Lu" 0 NoMap [0x03BA];
    E 0x039B "Lu" 0 NoMap [0x03BB];
    E 0x039C "Lu" 0 NoMap [0x03BC];
    E 0x039D "Lu" 0 NoMap [0x03BD];
    E 0x039E "Lu" 0 NoMap [0x03BE];
    E 0x039F "Lu" 0 NoMap [0x03BF];
    E 0x03A0 "Lu" 0 NoMap [0x03C0];
    E 0x03A1 "Lu" 0 NoMap [0x03C1];
    E 0x03A3 "Lu" 0 NoMap [0x03C3];
    E 0x03A4 "Lu" 0 NoMap [0x03C4];
    E 0x03A5 "Lu" 0 NoMap [0x03C5];
    E 0x03A6 "Lu" 0 NoMap [0x03C6];
    E 0x03A7 "Lu" 0 NoMap [0x03C7];
    E 0x03A8 "Lu" 0 NoMap [0x03C8];
    E 0x03A9 "Lu" 0 NoMap [0x03C9];
    E 0x03AA "Lu" 0 (Canon [0x0399; 0x0308]) [0x03CA];
    E 0x03AB "Lu" 0 (Canon [0x03A5; 0x0308]) [0x03CB];
    E 0x03AC "Ll" 0 (Canon [0x03B1; 0x0301]) [];
    E 0x03AD "Ll" 0 (Canon [0x03B5; 0x0301]) [];
    E 0x03AE "Ll" 0 (Canon [0x03B7; 0x0301]) [];
    E 0x03AF "Ll" 0 (Canon [0x03B9; 0x0301]) [];
    E 0x03B0 "Ll" 0 (Canon [0x03CB; 0x0301]) [];
    E 0x03B1 "Ll" 0 NoMap [];
    E 0x03B2 "Ll" 0 NoMap [];
    E 0x03B3 "Ll" 0 NoMap [];
    E 0x03B4 "Ll" 0 NoMap [];
    E 0x03B5 "Ll" 0 NoMap [];
    E 0x03B6 "Ll" 0 NoMap [];
    E 0x03B7 "Ll" 0 NoMap [];
    E 0x03B8 "Ll" 0 NoMap [];
    E 0x03B9 "Ll" 0 NoMap [];
    E 0x03BA "Ll" 0 NoMap [];
    E 0x03BB "Ll" 0 NoMap [];
    E 0x03BC "Ll" 0 NoMap [];
    E 0x03BD "Ll" 0 NoMap [];
    E 0x03BE "Ll" 0 NoMap [];
    E 0x03BF "Ll" 0 NoMap [];
    E 0x03C0 "Ll" 0 NoMap [];
    E 0x03C1 "Ll" 0 NoMap [];
    E 0x03C2 "Ll" 0 NoMap [];
    E 0x03C3 "Ll" 0 NoMap [];
    E 0x03C4 "Ll" 0 NoMap [];
    E 0x03C5 "Ll" 0 NoMap [];
    E 0x03C6 "Ll" 0 NoMap [];
    E 0x03C7 "Ll" 0 NoMap [];
    E 0x03C8 "Ll" 0 NoMap [];
    E 0x03C9 "Ll" 0 NoMap [];
    E 0x03CA "Ll" 0 (Canon [0x03B9; 0x0308]) [];
    E 0x03CB "Ll" 0 (Canon [0x03C5; 0x0308]) [];
    E 0x03CC "Ll" 0 (Canon [0x03BF; 0x0301]) [];
    E 0x03CD "Ll" 0 (Canon [0x03C5; 0x0301]) [];
    E 0x03CE "Ll" 0 (Canon [0x03C9; 0x0301]) [];
    E 0x03CF "Lu" 0 NoMap [0x03D7];
    E 0x03D0 "Ll" 0 (Compat [0x03B2]) [];
    E 0x03D1 "Ll" 0 (Compat [0x03B8]) [];
    E 0x03D2 "Lu" 0 (Compat [0x03A5]) [];
    E 0x03D3 "Lu" 0 (Canon [0x03D2; 0x0301]) [];
    E 0x03D4 "Lu" 0 (Canon [0x03D2; 0x0308]) [];
    E 0x03D5 "Ll" 0 (Compat [0x03C6]) [];
    E 0x03D6 "Ll" 0 (Compat [0x03C0]) [];
    E 0x03D7 "Ll" 0 NoMap [];
    E 0x03D8 "Lu" 0 NoMap [0x03D9];
    E 0x03D9 "Ll" 0 NoMap [];
    E 0x03DA "Lu" 0 NoMap [0x03DB];
    E 0x03DB "Ll" 0 NoMap [];
    E 0x03DC "Lu" 0 NoMap [0x03DD];
    E 0x03DD "Ll" 0 NoMap [];
    E 0x03DE "Lu" 0 NoMap [0x03DF];
    E 0x03DF "Ll" 0 NoMap [];
    E 0x03E0 "Lu" 0 NoMap [0x03E1];
    E 0x03E1 "Ll" 0 NoMap [];
    E 0x03E2 "Lu" 0 NoMap [0x03E3];
    E 0x03E3 "Ll" 0 NoMap [];
    E 0x03E4 "Lu" 0 NoMap [0x03E5];
    E 0x03E5 "Ll" 0 NoMap [];
    E 0x03E6 "Lu" 0 NoMap [0x03E7];
    E 0x03E7 "Ll" 0 NoMap [];
    E 0x03E8 "Lu" 0 NoMap [0x03E9];
    E 0x03E9 "Ll" 0 NoMap [];
    E 0x03EA "Lu" 0 NoMap [0x03EB];
    E 0x03EB "Ll" 0 NoMap [];
    E 0x03EC "Lu" 0 NoMap [0x03ED];
    E 0x03ED "Ll" 0 NoMap [];
    E 0x03EE "Lu" 0 NoMap [0x03EF];
    E 0x03EF "Ll" 0 NoMap [];
    E 0x03F0 "Ll" 0 (Compat [0x03BA]) [];
    E 0x03F1 "Ll" 0 (Compat [0x03C1]) [];
    E 0x03F2 "Ll" 0 (Compat [0x03C2]) [];
    E 0x03F3 "Ll" 0 NoMap [];
    E 0x03F4 "Lu" 0 (Compat [0x0398]) [0x03B8];
    E 0x03F5 "Ll" 0 (Compat [0x03B5]) [];
    E 0x03F6 "Sm" 0 NoMap [];
    E 0x03F7 "Lu" 0 NoMap [0x03F8];
    E 0x03F8 "Ll" 0 NoMap [];
    E 0x03F9 "Lu" 0 (Compat [0x03A3]) [0x03F2];
    E 0x03FA "Lu" 0 NoMap [0x03FB];
    E 0x03FB "Ll" 0 NoMap [];
    E 0x03FC "Ll" 0 NoMap [];
    E 0x03FD "Lu" 0 NoMap [0x037B];
    E 0x03FE "Lu" 0 NoMap [0x037C];
    E 0x03FF "Lu" 0 NoMap [0x037D]
  ].

(** Greek Extended, U+1F00 to U+1F7F. *)
Definition UCD_GREEK_EXT_A : list (codepoint * ucd_entry) :=
  [
    E 0x1F00 "Ll" 0 (Canon [0x03B1; 0x0313]) [];
    E 0x1F01 "Ll" 0 (Canon [0x03B1; 0x0314]) [];
    E 0x1F02 "Ll" 0 (Canon [0x1F00; 0x0300]) [];
    E 0x1F03 "Ll" 0 (Canon [0x1F01; 0x0300]) [];
    E 0x1F04 "Ll" 0 (Canon [0x1F00; 0x0301]) [];
    E 0x1F05 "Ll" 0 (Canon [0x1F01; 0x0301]) [];
    E 0x1F06 "Ll" 0 (Canon [0x1F00; 0x0342]) [];
    E 0x1F07 "Ll" 0 (Canon [0x1F01; 0x0342]) [];
    E 0x1F08 "Lu" 0 (Canon [0x0391; 0x0313]) [0x1F00];
    E 0x1F09 "Lu" 0 (Canon [0x0391; 0x0314]) [0x1F01];
    E 0x1F0A "Lu" 0 (Canon [0x1F08; 0x0300]) [0x1F02];
    E 0x1F0B "Lu" 0 (Canon [0x1F09; 0x0300]) [0x1F03];
    E 0x1F0C "Lu" 0 (Canon [0x1F08; 0x0301]) [0x1F04];
    E 0x1F0D "Lu" 0 (Canon [0x1F09; 0x0301]) [0x1F05];
    E 0x1F0E "Lu" 0 (Canon [0x1F08; 0x0342]) [0x1F06];
    E 0x1F0F "Lu" 0 (Canon [0x1F09; 0x0342]) [0x1F07];
    E 0x1F10 "Ll" 0 (Canon [0x03B5; 0x0313]) [];
    E 0x1F11 "Ll" 0 (Canon [0x03B5; 0x0314]) [];
    E 0x1F12 "Ll" 0 (Canon [0x1F10; 0x0300]) [];
    E 0x1F13 "Ll" 0 (Canon [0x1F11; 0x0300]) [];
    E 0x1F14 "Ll" 0 (Canon [0x1F10; 0x0301]) [];
    E 0x1F15 "Ll" 0 (Canon [0x1F11; 0x0301]) [];
    E 0x1F18 "Lu" 0 (Canon [0x0395; 0x0313]) [0x1F10];
    E 0x1F19 "Lu" 0 (Canon [0x0395; 0x0314]) [0x1F11];
    E 0x1F1A "Lu" 0 (Canon [0x1F18; 0x0300]) [0x1F12];
    E 0x1F1B "Lu" 0 (Canon [0x1F19; 0x0300]) [0x1F13];
    E 0x1F1C "Lu" 0 (Canon [0x1F18; 0x0301]) [0x1F14];
    E 0x1F1D "Lu" 0 (Canon [0x1F19; 0x0301]) [0x1F15];
    E 0x1F20 "Ll" 0 (Canon [0x03B7; 0x0313]) [];
    E 0x1F21 "Ll" 0 (Canon [0x03B7; 0x0314]) [];
    E 0x1F22 "Ll" 0 (Canon [0x1F20; 0x0300]) [];
    E 0x1F23 "Ll" 0 (Canon [0x1F21; 0x0300]) [];
    E 0x1F24 "Ll" 0 (Canon [0x1F20; 0x0301]) [];
    E 0x1F25 "Ll" 0 (Canon [0x1F21; 0x0301]) [];
    E 0x1F26 "Ll" 0 (Canon [0x1F20; 0x0342]) [];
    E 0x1F27 "Ll" 0 (Canon [0x1F21; 0x0342]) [];
    E 0x1F28 "Lu" 0 (Canon [0x0397; 0x0313]) [0x1F20];
    E 0x1F29 "Lu" 0 (Canon [0x0397; 0x0314]) [0x1F21];
    E 0x1F2A "Lu" 0 (Canon [0x1F28; 0x0300]) [0x1F22];
    E 0x1F2B "Lu" 0 (Canon [0x1F29; 0x0300]) [0x1F23];
    E 0x1F2C "Lu" 0 (Canon [0x1F28; 0x0301]) [0x1F24];
    E 0x1F2D "Lu" 0 (Canon [0x1F29; 0x0301]) [0x1F25];
    E 0x1F2E "Lu" 0 (Canon [0x1F28; 0x0342]) [0x1F26];
    E 0x1F2F "Lu" 0 (Canon [0x1F29; 0x0342]) [0x1F27];
    E 0x1F30 "Ll" 0 (Canon [0x03B9; 0x0313]) [];
    E 0x1F31 "Ll" 0 (Canon [0x03B9; 0x0314]) [];
    E 0x1F32 "Ll" 0 (Canon [0x1F30; 0x0300]) [];
    E 0x1F33 "Ll" 0 (Canon [0x1F31; 0x0300]) [];
    E 0x1F34 "Ll" 0 (Canon [0x1F30; 0x0301]) [];
    E 0x1F35 "Ll" 0 (Canon [0x1F31; 0x0301]) [];
    E 0x1F36 "Ll" 0 (Canon [0x1F30; 0x0342]) [];
    E 0x1F37 "Ll" 0 (Canon [0x1F31; 0x0342]) [];
    E 0x1F38 "Lu" 0 (Canon [0x0399; 0x0313]) [0x1F30];
    E 0x1F39 "Lu" 0 (Canon [0x0399; 0x0314]) [0x1F31];
    E 0x1F3A "Lu" 0 (Canon [0x1F38; 0x0300]) [0x1F32];
    E 0x1F3B "Lu" 0 (Canon [0x1F39; 0x0300]) [0x1F33];
    E 0x1F3C "Lu" 0 (Canon [0x1F38; 0x0301]) [0x1F34];
    E 0x1F3D "Lu" 0 (Canon [0x1F39; 0x0301]) [0x1F35];
    E 0x1F3E "Lu" 0 (Canon [0x1F38; 0x0342]) [0x1F36];
    E 0x1F3F "Lu" 0 (Canon [0x1F39; 0x0342]) [0x1F37];
    E 0x1F40 "Ll" 0 (Canon [0x03BF; 0x0313]) [];
    E 0x1F41 "Ll" 0 (Canon [0x03BF; 0x0314]) [];
    E 0x1F42 "Ll" 0 (Canon [0x1F40; 0x0300]) [];
    E 0x1F43 "Ll" 0 (Canon [0x1F41; 0x0300]) [];
    E 0x1F44 "Ll" 0 (Canon [0x1F40; 0x0301]) [];
    E 0x1F45 "Ll" 0 (Canon [0x1F41; 0x0301]) [];
    E 0x1F48 "Lu" 0 (Canon [0x039F; 0x0313]) [0x1F40];
    E 0x1F49 "Lu" 0 (Canon [0x039F; 0x0314]) [0x1F41];
    E 0x1F4A "Lu" 0 (Canon [0x1F48; 0x0300]) [0x1F42];
    E 0x1F4B "Lu" 0 (Canon [0x1F49; 0x0300]) [0x1F43];
    E 0x1F4C "Lu" 0 (Canon [0x1F48; 0x0301]) [0x1F44];
    E 0x1F4D "Lu" 0 (Canon [0x1F49; 0x0301]) [0x1F45];
    E 0x1F50 "Ll" 0 (Canon [0x03C5; 0x0313]) [];
    E 0x1F51 "Ll" 0 (Canon [0x03C5; 0x0314]) [];
    E 0x1F52 "Ll" 0 (Canon [0x1F50; 0x0300]) [];
    E 0x1F53 "Ll" 0 (Canon [0x1F51; 0x0300]) [];
    E 0x1F54 "Ll" 0 (Canon [0x1F50; 0x0301]) [];
    E 0x1F55 "Ll" 0 (Canon [0x1F51; 0x0301]) [];
    E 0x1F56 "Ll" 0 (Canon [0x1F50; 0x0342]) [];
    E 0x1F57 "Ll" 0 (Canon [0x1F51; 0x0342]) [];
    E 0x1F59 "Lu" 0 (Canon [0x03A5; 0x0314]) [0x1F51];
    E 0x1F5B "Lu" 0 (Canon [0x1F59; 0x0300]) [0x1F53];
    E 0x1F5D "Lu" 0 (Canon [0x1F59; 0x0301]) [0x1F55];
    E 0x1F5F "Lu" 0 (Canon [0x1F59; 0x0342]) [0x1F57];
    E 0x1F60 "Ll" 0 (Canon [0x03C9; 0x0313]) [];
    E 0x1F61 "Ll" 0 (Canon [0x03C9; 0x0314]) [];
    E 0x1F62 "Ll" 0 (Canon [0x1F60; 0x0300]) [];
    E 0x1F63 "Ll" 0 (Canon [0x1F61; 0x0300]) [];
    E 0x1F64 "Ll" 0 (Canon [0x1F60; 0x0301]) [];
    E 0x1F65 "Ll" 0 (Canon [0x1F61; 0x0301]) [];
    E 0x1F66 "Ll" 0 (Canon [0x1F60; 0x0342]) [];
    E 0x1F67 "Ll" 0 (Canon [0x1F61; 0x0342]) [];
    E 0x1F68 "Lu" 0 (Canon [0x03A9; 0x0313]) [0x1F60];
    E 0x1F69 "Lu" 0 (Canon [0x03A9; 0x0314]) [0x1F61];
    E 0x1F6A "Lu" 0 (Canon [0x1F68; 0x0300]) [0x1F62];
    E 0x1F6B "Lu" 0 (Canon [0x1F69; 0x0300]) [0x1F63];
    E 0x1F6C "Lu" 0 (Canon [0x1F68; 0x0301]) [0x1F64];
    E 0x1F6D "Lu" 0 (Canon [0x1F69; 0x0301]) [0x1F65];
    E 0x1F6E "Lu" 0 (Canon [0x1F68; 0x0342]) [0x1F66];
    E 0x1F6F "Lu" 0 (Canon [0x1F69; 0x0342]) [0x1F67];
    E 0x1F70 "Ll" 0 (Canon [0x03B1; 0x0300]) [];
    E 0x1F71 "Ll" 0 (Canon [0x03AC]) [];
    E 0x1F72 "Ll" 0 (Canon [0x03B5; 0x0300]) [];
    E 0x1F73 "Ll" 0 (Canon [0x03AD]) [];
    E 0x1F74 "Ll" 0 (Canon [0x03B7; 0x0300]) [];
    E 0x1F75 "Ll" 0 (Canon [0x03AE]) [];
    E 0x1F76 "Ll" 0 (Canon [0x03B9; 0x0300]) [];
    E 0x1F77 "Ll" 0 (Canon [0x03AF]) [];
    E 0x1F78 "Ll" 0 (Canon [0x03BF; 0x0300]) [];
    E 0x1F79 "Ll" 0 (Canon [0x03CC]) [];
    E 0x1F7A "Ll" 0 (Canon [0x03C5; 0x0300]) [];
    E 0x1F7B "Ll" 0 (Canon [0x03CD]) [];
    E 0x1F7C "Ll" 0 (Canon [0x03C9; 0x0300]) [];
    E 0x1F7D "Ll" 0 (Canon [0x03CE]) []
  ].

(** Greek Extended, U+1F80 to U+1FFF. *)
Definition UCD_GREEK_EXT_B : list (codepoint * ucd_entry) :=
  [
    E 0x1F80 "Ll" 0 (Canon [0x1F00; 0x0345]) [];
    E 0x1F81 "Ll" 0 (Canon [0x1F01; 0x0345]) [];
    E 0x1F82 "Ll" 0 (Canon [0x1F02; 0x0345]) [];
    E 0x1F83 "Ll" 0 (Canon [0x1F03; 0x0345]) [];
    E 0x1F84 "Ll" 0 (Canon [0x1F04; 0x0345]) [];
    E 0x1F85 "Ll" 0 (Canon [0x1F05; 0x0345]) [];
    E 0x1F86 "Ll" 0 (Canon [0x1F06; 0x0345]) [];
    E 0x1F87 "Ll" 0 (Canon [0x1F07; 0x0345]) [];
    E 0x1F88 "Lt" 0 (Canon [0x1F08; 0x0345]) [0x1F80];
    E 0x1F89 "Lt" 0 (Canon [0x1F09; 0x0345]) [0x1F81];
    E 0x1F8A "Lt" 0 (Canon [0x1F0A; 0x0345]) [0x1F82];
    E 0x1F8B "Lt" 0 (Canon [0x1F0B; 0x0345]) [0x1F83];
    E 0x1F8C "Lt" 0 (Canon [0x1F0C; 0x0345]) [0x1F84];
    E 0x1F8D "Lt" 0 (Canon [0x1F0D; 0x0345]) [0x1F85];
    E 0x1F8E "Lt" 0 (Canon [0x1F0E; 0x0345]) [0x1F86];
    E 0x1F8F "Lt" 0 (Canon [0x1F0F; 0x0345]) [0x1F87];
    E 0x1F90 "Ll" 0 (Canon [0x1F20; 0x0345]) [];
    E 0x1F91 "Ll" 0 (Canon [0x1F21; 0x0345]) [];
    E 0x1F92 "Ll" 0 (Canon [0x1F22; 0x0345]) [];
    E 0x1F93 "Ll" 0 (Canon [0x1F23; 0x0345]) [];
    E 0x1F94 "Ll" 0 (Canon [0x1F24; 0x0345]) [];
    E 0x1F95 "Ll" 0 (Canon [0x1F25; 0x0345]) [];
    E 0x1F96 "Ll" 0 (Canon [0x1F26; 0x0345]) [];
    E 0x1F97 "Ll" 0 (Canon [0x1F27; 0x0345]) [];
    E 0x1F98 "Lt" 0 (Canon [0x1F28; 0x0345]) [0x1F90];
    E 0x1F99 "Lt" 0 (Canon [0x1F29; 0x0345]) [0x1F91];
    E 0x1F9A "Lt" 0 (Canon [0x1F2A; 0x0345]) [0x1F92];
    E 0x1F9B "Lt" 0 (Canon [0x1F2B; 0x0345]) [0x1F93];
    E 0x1F9C "Lt" 0 (Canon [0x1F2C; 0x0345]) [0x1F94];
    E 0x1F9D "Lt" 0 (Canon [0x1F2D; 0x0345]) [0x1F95];
    E 0x1F9E "Lt" 0 (Canon [0x1F2E; 0x0345]) [0x1F96];
    E 0x1F9F "Lt" 0 (Canon [0x1F2F; 0x0345]) [0x1F97];
    E 0x1FA0 "Ll" 0 (Canon [0x1F60; 0x0345]) [];
    E 0x1FA1 "Ll" 0 (Canon [0x1F61; 0x0345]) [];
    E 0x1FA2 "Ll" 0 (Canon [0x1F62; 0x0345]) [];
    E 0x1FA3 "Ll" 0 (Canon [0x1F63; 0x0345]) [];
    E 0x1FA4 "Ll" 0 (Canon [0x1F64; 0x0345]) [];
    E 0x1FA5 "Ll" 0 (Canon [0x1F65; 0x0345]) [];
    E 0x1FA6 "Ll" 0 (Canon [0x1F66; 0x0345]) [];
    E 0x1FA7 "Ll" 0 (Canon [0x1F67; 0x0345]) [];
    E 0x1FA8 "Lt" 0 (Canon [0x1F68; 0x0345]) [0x1FA0];
    E 0x1FA9 "Lt" 0 (Canon [0x1F69; 0x0345]) [0x1FA1];
    E 0x1FAA "Lt" 0 (Canon [0x1F6A; 0x0345]) [0x1FA2];
    E 0x1FAB "Lt" 0 (Canon [0x1F6B; 0x0345]) [0x1FA3];
    E 0x1FAC "Lt" 0 (Canon [0x1F6C; 0x0345]) [0x1FA4];
    E 0x1FAD "Lt" 0 (Canon [0x1F6D; 0x0345]) [0x1FA5];
    E 0x1FAE "Lt" 0 (Canon [0x1F6E; 0x0345]) [0x1FA6];
    E 0x1FAF "Lt" 0 (Canon [0x1F6F; 0x0345]) [0x1FA7];
    E 0x1FB0 "Ll" 0 (Canon [0x03B1; 0x0306]) [];
    E 0x1FB1 "Ll" 0 (Canon [0x03B1; 0x0304]) [];
    E 0x1FB2 "Ll" 0 (Canon [0x1F70; 0x0345]) [];
    E 0x1FB3 "Ll" 0 (Canon [0x03B1; 0x0345]) [];
    E 0x1FB4 "Ll" 0 (Canon [0x03AC; 0x0345]) [];
    E 0x1FB6 "Ll" 0 (Canon [0x03B1; 0x0342]) [];
    E 0x1FB7 "Ll" 0 (Canon [0x1FB6; 0x0345]) [];
    E 0x1FB8 "Lu" 0 (Canon [0x0391; 0x0306]) [0x1FB0];
    E 0x1FB9 "Lu" 0 (Canon [0x0391; 0x0304]) [0x1FB1];
    E 0x1FBA "Lu" 0 (Canon [0x0391; 0x0300]) [0x1F70];
    E 0x1FBB "Lu" 0 (Canon [0x0386]) [0x1F71];
    E 0x1FBC "Lt" 0 (Canon [0x0391; 0x0345]) [0x1FB3];
    E 0x1FBD "Sk" 0 (Compat [0x0020; 0x0313]) [];
    E 0x1FBE "Ll" 0 (Canon [0x03B9]) [];
    E 0x1FBF "Sk" 0 (Compat [0x0020; 0x0313]) [];
    E 0x1FC0 "Sk" 0 (Compat [0x0020; 0x0342]) [];
    E 0x1FC1 "Sk" 0 (Canon [0x00A8; 0x0342]) [];
    E 0x1FC2 "Ll" 0 (Canon [0x1F74; 0x0345]) [];
    E 0x1FC3 "Ll" 0 (Canon [0x03B7; 0x0345]) [];
    E 0x1FC4 "Ll" 0 (Canon [0x03AE; 0x0345]) [];
    E 0x1FC6 "Ll" 0 (Canon [0x03B7; 0x0342]) [];
    E 0x1FC7 "Ll" 0 (Canon [0x1FC6; 0x0345]) [];
    E 0x1FC8 "Lu" 0 (Canon [0x0395; 0x0300]) [0x1F72];
    E 0x1FC9 "Lu" 0 (Canon [0x0388]) [0x1F73];
    E 0x1FCA "Lu" 0 (Canon [0x0397; 0x0300]) [0x1F74];
    E 0x1FCB "Lu" 0 (Canon [0x0389]) [0x1F75];
    E 0x1FCC "Lt" 0 (Canon [0x0397; 0x0345]) [0x1FC3];
    E 0x1FCD "Sk" 0 (Canon [0x1FBF; 0x0300]) [];
    E 0x1FCE "Sk" 0 (Canon [0x1FBF; 0x0301]) [];
    E 0x1FCF "Sk" 0 (Canon [0x1FBF; 0x0342]) [];
    E 0x1FD0 "Ll" 0 (Canon [0x03B9; 0x0306]) [];
    E 0x1FD1 "Ll" 0 (Canon [0x03B9; 0x0304]) [];
    E 0x1FD2 "Ll" 0 (Canon [0x03CA; 0x0300]) [];
    E 0x1FD3 "Ll" 0 (Canon [0x0390]) [];
    E 0x1FD6 "Ll" 0 (Canon [0x03B9; 0x0342]) [];
    E 0x1FD7 "Ll" 0 (Canon [0x03CA; 0x0342]) [];
    E 0x1FD8 "Lu" 0 (Canon [0x0399; 0x0306]) [0x1FD0];
    E 0x1FD9 "Lu" 0 (Canon [0x0399; 0x0304]) [0x1FD1];
    E 0x1FDA "Lu" 0 (Canon [0x0399; 0x0300]) [0x1F76];
    E 0x1FDB "Lu" 0 (Canon [0x038A]) [0x1F77];
    E 0x1FDD "Sk" 0 (Canon [0x1FFE; 0x0300]) [];
    E 0x1FDE "Sk" 0 (Canon [0x1FFE; 0x0301]) [];
    E 0x1FDF "Sk" 0 (Canon [0x1FFE; 0x0342]) [];
    E 0x1FE0 "Ll" 0 (Canon [0x03C5; 0x0306]) [];
    E 0x1FE1 "Ll" 0 (Canon [0x03C5; 0x0304]) [];
    E 0x1FE2 "Ll" 0 (Canon [0x03CB; 0x0300]) [];
    E 0x1FE3 "Ll" 0 (Canon [0x03B0]) [];
    E 0x1FE4 "Ll" 0 (Canon [0x03C1; 0x0313]) [];
    E 0x1FE5 "Ll" 0 (Canon [0x03C1; 0x0314]) [];
    E 0x1FE6 "Ll" 0 (Canon [0x03C5; 0x0342]) [];
    E 0x1FE7 "Ll" 0 (Canon [0x03CB; 0x0342]) [];
    E 0x1FE8 "Lu" 0 (Canon [0x03A5; 0x0306]) [0x1FE0];
    E 0x1FE9 "Lu" 0 (Canon [0x03A5; 0x0304]) [0x1FE1];
    E 0x1FEA "Lu" 0 (Canon [0x03A5; 0x0300]) [0x1F7A];
    E 0x1FEB "Lu" 0 (Canon [0x038E]) [0x1F7B];
    E 0x1FEC "Lu" 0 (Canon [0x03A1; 0x0314]) [0x1FE5];
    E 0x1FED "Sk" 0 (Canon [0x00A8; 0x0300]) [];
    E 0x1FEE "Sk" 0 (Canon [0x0385]) [];
    E 0x1FEF "Sk" 0 (Canon [0x0060]) [];
    E 0x1FF2 "Ll" 0 (Canon [0x1F7C; 0x0345]) [];
    E 0x1FF3 "Ll" 0 (Canon [0x03C9; 0x0345]) [];
    E 0x1FF4 "Ll" 0 (Canon [0x03CE; 0x0345]) [];
    E 0x1FF6 "Ll" 0 (Canon [0x03C9; 0x0342]) [];
    E 0x1FF7 "Ll" 0 (Canon [0x1FF6; 0x0345]) [];
    E 0x1FF8 "Lu" 0 (Canon [0x039F; 0x0300]) [0x1F78];
    E 0x1FF9 "Lu" 0 (Canon [0x038C]) [0x1F79];
    E 0x1FFA "Lu" 0 (Canon [0x03A9; 0x0300]) [0x1F7C];
    E 0x1FFB "Lu" 0 (Canon [0x038F]) [0x1F7D];
    E 0x1FFC "Lt" 0 (Canon [0x03A9; 0x0345]) [0x1FF3];
    E 0x1FFD "Sk" 0 (Canon [0x00B4]) [];
    E 0x1FFE "Sk" 0 (Compat [0x0020; 0x0314]) []
  ].


Definition UCD : list (codepoint * ucd_entry) :=
  UCD_LATIN ++ UCD_MARKS ++ UCD_GREEK ++ UCD_GREEK_EXT_A ++ UCD_GREEK_EXT_B.

Fixpoint lookup (cp : codepoint) (rows : list (codepoint * ucd_entry))
  : option ucd_entry :=
  match rows with
  | [] => None
  | (k, e) :: rows' => if N.eqb cp k then Some e else lookup cp rows'
  end.

Definition entry_of (cp : codepoint) : option ucd_entry := lookup cp UCD.

Definition ucd_combining (cp : codepoint) : N :=
  match entry_of cp with
  | Some e => e_combining e
  | None => 0
  end.

Definition ucd_category (cp : codepoint) : string :=
  match entry_of cp with
  | Some e => e_category e
  | None => "Cn"%string
  end.

Definition ucd_mapping_of (cp : codepoint) : ucd_mapping :=
  match entry_of cp with
  | Some e => e_mapping e
  | None => NoMap
  end.

(** The text form of a mapping, as [unicodedata.decomposition] prints it. *)
Definition hex_digit (d : N) : Ascii.ascii :=
  nth (N.to_nat d) (list_ascii_of_string "0123456789ABCDEF"%string) "0"%char.

Fixpoint hex_digits (width : nat) (n : N) (acc : string) : string :=
  match width with
  | 0%nat => acc
  | S w => hex_digits w (n / 16) (String (hex_digit (n mod 16)) acc)
  end.

Definition hex4 (n : N) : string :=
  if n <? 0x10000 then hex_digits 4 n EmptyString
  else hex_digits 6 n EmptyString.

Definition hex_join (m : str) : string :=
  String.concat " "%string (map hex4 m).

Definition ucd_decomposition (cp : codepoint) : string :=
  match ucd_mapping_of cp with
  | NoMap => EmptyString
  | Canon m => hex_join m
  | Compat m => String.append "<compat> "%string (hex_join m)
  end.

Definition ucd_lower (cp : codepoint) : str :=
  match entry_of cp with
  | Some e => match e_lower e with
              | [] => [cp]
              | l => l
              end
  | None => [cp]
  end.

Definition ucd_isspace (cp : codepoint) : bool :=
  existsb (N.eqb cp) [0x09; 0x0A; 0x0D; 0x20].

(** Full decomposition of one code point; mappings nest at most three
    deep in the excerpt. *)
Fixpoint decompose (depth : nat) (compat : bool) (cp : codepoint) : str :=
  match depth with
  | 0%nat => [cp]
  | S d =>
      match ucd_mapping_of cp with
      | Canon m => flat_map (decompose d compat) m
      | Compat m => if compat then flat_map (decompose d compat) m else [cp]
      | NoMap => [cp]
      end
  end.

(** Canonical ordering: a mark moves left past the marks of a higher
    combining class. *)
Fixpoint place_mark (c : codepoint) (rev_out : str) : str :=
  match rev_out with
  | [] => [c]
  | p :: r =>
      if negb (ucd_combining c =? 0) && (ucd_combining c <? ucd_combining p)
      then p :: place_mark c r
      else c :: rev_out
  end.

Definition canonical_order (s : str) : str :=
  rev (fold_left (fun acc c => place_mark c acc) s []).

Definition ucd_NFD (s : str) : str :=
  canonical_order (flat_map (decompose 4 false) s).

Definition ucd_NFKD (s : str) : str :=
  canonical_order (flat_map (decompose 4 true) s).

(** The primary composite of a pair: a row with that canonical mapping
    whose mapping starts with a starter (the one exclusion of the
    excerpt, U+0344, does not). *)
Definition is_primary_composite (l c : codepoint) (row : codepoint * ucd_entry)
  : bool :=
  match e_mapping (snd row) with
  | Canon [a; b] => (a =? l) && (b =? c) && (ucd_combining a =? 0)
  | _ => false
  end.

Definition compose_pair (l c : codepoint) : option codepoint :=
  option_map fst (find (is_primary_composite l c) UCD).

(** Canonical composition.  The state holds the output before the last
    starter (reversed), the last starter, and what follows it (reversed). *)
Definition compose_step (st : str * option codepoint * str) (c : codepoint)
  : str * option codepoint * str :=
  let '(done, starter, pending) := st in
  match starter with
  | None =>
      if ucd_combining c =? 0 then (pending ++ done, Some c, [])
      else (done, None, c :: pending)
  | Some l =>
      let blocked :=
        match pending with
        | [] => false
        | b :: _ => (ucd_combining b =? 0) || (ucd_combining c <=? ucd_combining b)
        end in
      match (if blocked then None else compose_pair l c) with
      | Some p => (done, Some p, pending)
      | None =>
          if ucd_combining c =? 0 then (pending ++ l :: done, Some c, [])
          else (done, Some l, c :: pending)
      end
  end.

Definition compose (s : str) : str :=
  let '(done, starter, pending) := fold_left compose_step s ([], None, []) in
  rev (pending ++ match starter with
                  | Some l => l :: done
                  | None => done
                  end).

Definition ucd_NFC (s : str) : str := compose (ucd_NFD s).

(** The two facts of section "Two facts of the character database", as
    tests on one code point [ch] and the starters of its decomposition. *)
Definition single_vowel (l : str) : bool :=
  match l with
  | [x] => existsb (N.eqb x) BASE_VOWELS
  | _ => false
  end.

Definition starter_ok (ch X : codepoint) : bool :=
  implb (ucd_combining X =? 0)
        (negb (set_mem (ucd_lower X) DIPHTHONGS)
         && implb (single_vowel (ucd_lower X))
                  (String.prefix "L" (ucd_category ch)
                   && negb (ucd_isspace ch))).

Definition starters_ok (ch : codepoint) : bool :=
  forallb (starter_ok ch) (decompose 4 false ch).

Definition greek_ucd : UnicodeData :=
  {| combining := ucd_combining;
     category := ucd_category;
     decomposition := ucd_decomposition;
     normalize_NFC := ucd_NFC;
     normalize_NFD := ucd_NFD;
     normalize_NFKD := ucd_NFKD;
     lower := ucd_lower;
     isspace := ucd_isspace |}.

End GreekUCD.

(* ================================================================= *)
(** ** Predicates used in the statements *)

(** Consecutive spans [(start, end)]: the first starts at [i], each is
    non-empty, and each starts where the one before it ends. *)
Fixpoint chained (i : nat) (spans : list (nat * nat)) : Prop :=
  match spans with
  | [] => True
  | (a, b) :: rest => a = i /\ a < b /\ chained b rest
  end.

(** Cluster [idx] exists and is not punctuation or space: the test of the
    line index loop, lines 121 to 123. *)
Definition nonpunct_at (U : UnicodeData) (clusters : list cluster)
  (idx : nat) : bool :=
  match nth_error clusters idx with
  | Some c => negb (is_punct_or_space_cluster U (cl_text c))
  | None => false
  end.

(** Two facts of the character database, stated on the functions of the
    interface.  The first: no starter that NFD yields lowercases to an
    entry of the diphthong table (eta and omega with ypogegrammeni
    decompose, and no lowercase mapping is a pair of Greek vowels).  The
    second: a starter that NFD yields and that lowercases to a Greek vowel
    stems from a letter of the text, which is no white space. *)
Definition starter_lowercase_not_diphthong (U : UnicodeData) : Prop :=
  forall (s : str) (X : codepoint),
    In X (normalize_NFD U s) ->
    combining U X = 0%N ->
    set_mem (lower U X) DIPHTHONGS = false.

Definition vowel_starter_from_letter (U : UnicodeData) : Prop :=
  forall (s : str) (X x : codepoint),
    In X (normalize_NFD U s) ->
    combining U X = 0%N ->
    lower U X = [x] ->
    In x BASE_VOWELS ->
    exists ch,
      In ch s /\ String.prefix "L" (category U ch) = true
      /\ isspace U ch = false.

(** Kind, the two indices and the two spans of an occurrence. *)
Definition summary (occ : occurrence)
  : hiatus_kind * nat * nat * list nat * list nat :=
  (kind (found occ), i_index (found occ), j_index (found occ),
   vowel_i_indices occ, vowel_j_indices occ).

Definition g_span (g : grapheme) : nat * nat := (g_start g, g_end g).
Definition cl_span (c : cluster) : nat * nat := (cl_start c, cl_end c).

(** [cluster_marks[k]] when the occurrences [l] are numbered from [n + 1]
    instead of 1: the marks the loop of lines 237 to 241 leaves for
    cluster [k] on a tail of the occurrence list. *)
Definition marks_from (k n : nat) (l : list occurrence) : list nat :=
  flat_map
    (fun p =>
       map (fun _ => S (fst p))
           (filter (Nat.eqb k)
                   (vowel_i_indices (snd p) ++ vowel_j_indices (snd p))))
    (combine (seq n (List.length l)) l).

(* ================================================================= *)
(** ** Sample inputs *)

Module Samples.

Local Open Scope N_scope.

(** theta, epsilon, omicron, upsilon with perispomeni. *)
Definition theou : str := [0x3B8; 0x3B5; 0x3BF; 0x1FE6].

(** kappa, alpha, iota with varia, space, epsilon, iota with psili and
    perispomeni, delta, omicron, nu. *)
Definition kai_eidon : str :=
  [0x3BA; 0x3B1; 0x1F76; 0x20; 0x3B5; 0x1F36; 0x3B4; 0x3BF; 0x3BD].

(** alpha with psili, iota. *)
Definition a_psili_iota : str := [0x1F00; 0x3B9].

(** The same word typed with a separate combining psili. *)
Definition a_psili_iota_decomposed : str := [0x3B1; 0x313; 0x3B9].

(** epsilon with psili, upsilon. *)
Definition e_psili_upsilon : str := [0x1F10; 0x3C5].

(** omicron, iota with dialytika. *)
Definition o_i_dialytika : str := [0x3BF; 0x3CA].

(** alpha, upsilon, iota. *)
Definition alpha_upsilon_iota : str := [0x3B1; 0x3C5; 0x3B9].

(** eta, omicron, upsilon, iota. *)
Definition eta_omicron_upsilon_iota : str := [0x3B7; 0x3BF; 0x3C5; 0x3B9].

(** pi, nu, epsilon, upsilon with perispomeni, mu, alpha, newline, alpha
    with dasia and oxia, gamma, iota, omicron, nu. *)
Definition pneuma_hagion : str :=
  [0x3C0; 0x3BD; 0x3B5; 0x1FE6; 0x3BC; 0x3B1; 0x0A;
   0x1F05; 0x3B3; 0x3B9; 0x3BF; 0x3BD].

End Samples.

(* ================================================================= *)
(** * Facts about lists and slices *)

Section ListFacts.

Context {A : Type}.

Lemma slice_empty (s : list A) (a b : nat) : b <= a -> slice s a b = [].
Proof.
  intros Hle. unfold slice.
  replace (b - a) with 0 by lia. reflexivity.
Qed.

Lemma slice_app_skipn (s : list A) (a b : nat) :
  a <= b -> slice s a b ++ skipn b s = skipn a s.
Proof.
  intros Hle. unfold slice.
  pose proof (firstn_skipn (b - a) (skipn a s)) as H.
  rewrite skipn_skipn in H.
  replace (b - a + a) with b in H by lia. exact H.
Qed.

Lemma nth_error_skipn_shift (s : list A) (a p : nat) :
  nth_error (skipn a s) p = nth_error s (a + p).
Proof.
  revert s. induction a as [|a IH]; intros s; simpl.
  - reflexivity.
  - destruct s as [|x s]; simpl.
    + destruct p; reflexivity.
    + apply IH.
Qed.

(** A slice holds exactly the elements at the positions it spans. *)
Lemma In_slice (s : list A) (a b : nat) (x : A) :
  In x (slice s a b) <-> exists p, a <= p < b /\ nth_error s p = Some x.
Proof.
  unfold slice. split.
  - intros Hin. apply In_nth_error in Hin. destruct Hin as [q Hq].
    assert (Hlt : q < b - a).
    { assert (Hsome : nth_error (firstn (b - a) (skipn a s)) q <> None)
        by congruence.
      apply nth_error_Some in Hsome.
      rewrite length_firstn in Hsome. lia. }
    rewrite nth_error_firstn in Hq.
    destruct (Nat.ltb_spec q (b - a)) as [_|Hge]; [|lia].
    rewrite nth_error_skipn_shift in Hq.
    exists (a + q). split; [lia | exact Hq].
  - intros [p [Hp Hnth]].
    apply (nth_error_In _ (p - a)).
    rewrite nth_error_firstn.
    destruct (Nat.ltb_spec (p - a) (b - a)) as [_|Hge]; [|lia].
    rewrite nth_error_skipn_shift.
    replace (a + (p - a)) with p by lia. exact Hnth.
Qed.

Lemma slice_incl (s : list A) (a b a' b' : nat) (x : A) :
  a' <= a -> b <= b' -> In x (slice s a b) -> In x (slice s a' b').
Proof.
  intros Ha Hb Hin. apply In_slice in Hin. destruct Hin as [p [Hp Hnth]].
  apply In_slice. exists p. split; [lia | exact Hnth].
Qed.

(** [enumerate] from an arbitrary first index. *)
Lemma In_combine_seq (l : list A) (n k : nat) (x : A) :
  In (k, x) (combine (seq n (List.length l)) l)
  <-> n <= k /\ nth_error l (k - n) = Some x.
Proof.
  revert n. induction l as [|y l IH]; intros n; simpl.
  - split; [tauto|]. intros [_ H]. destruct (k - n); discriminate.
  - split.
    + intros [Heq | Hin].
      * inversion Heq; subst. split; [lia|].
        replace (k - k) with 0 by lia. reflexivity.
      * apply IH in Hin. destruct Hin as [Hle Hnth]. split; [lia|].
        replace (k - n) with (S (k - S n)) by lia. exact Hnth.
    + intros [Hle Hnth].
      destruct (Nat.eq_dec k n) as [->|Hne].
      * left. replace (n - n) with 0 in Hnth by lia.
        simpl in Hnth. congruence.
      * right. apply IH. split; [lia|].
        replace (k - n) with (S (k - S n)) in Hnth by lia. exact Hnth.
Qed.

Lemma In_enumerate (l : list A) (k : nat) (x : A) :
  In (k, x) (enumerate l) <-> nth_error l k = Some x.
Proof.
  unfold enumerate. rewrite In_combine_seq.
  replace (k - 0) with k by lia. split; [tauto|]. intros H. split; [lia|auto].
Qed.

End ListFacts.

(* ================================================================= *)
(** * The grapheme segmenter *)

Lemma chained_nth (spans : list (nat * nat)) :
  forall i k a b,
    chained i spans -> nth_error spans k = Some (a, b) -> i <= a /\ a < b.
Proof.
  induction spans as [|[a0 b0] rest IH]; intros i k a b Hch Hnth.
  - destruct k; discriminate.
  - destruct Hch as [Ha [Hlt Hrest]]. destruct k as [|k]; simpl in Hnth.
    + inversion Hnth; subst. lia.
    + destruct (IH _ _ _ _ Hrest Hnth). lia.
Qed.

Lemma chained_next (spans : list (nat * nat)) :
  forall i k a b a' b',
    chained i spans ->
    nth_error spans k = Some (a, b) ->
    nth_error spans (S k) = Some (a', b') ->
    a' = b.
Proof.
  induction spans as [|[a0 b0] rest IH]; intros i k a b a' b' Hch Hk Hk'.
  - destruct k; discriminate.
  - destruct Hch as [Ha [Hlt Hrest]]. destruct k as [|k]; simpl in Hk, Hk'.
    + inversion Hk; subst.
      destruct rest as [|[a1 b1] rest']; simpl in Hk'; [discriminate|].
      inversion Hk'; subst. destruct Hrest as [Heq _]. exact Heq.
    + eapply IH; eauto.
Qed.

Lemma chained_later (spans : list (nat * nat)) :
  forall i k k' a b a' b',
    chained i spans ->
    k < k' ->
    nth_error spans k = Some (a, b) ->
    nth_error spans k' = Some (a', b') ->
    b <= a'.
Proof.
  induction spans as [|[a0 b0] rest IH]; intros i k k' a b a' b' Hch Hlt Hk Hk'.
  - destruct k; discriminate.
  - destruct Hch as [Ha [Hab Hrest]].
    destruct k' as [|k']; [lia|]. simpl in Hk'.
    destruct k as [|k]; simpl in Hk.
    + inversion Hk; subst.
      destruct (chained_nth _ _ _ _ _ Hrest Hk'). lia.
    + apply (IH _ k k' a b a' b' Hrest); [lia | assumption | assumption].
Qed.

Section SegmenterFacts.

Variable U : UnicodeData.

Lemma combining_run_le (rest : str) :
  combining_run U rest <= List.length rest.
Proof.
  induction rest as [|c rest IH]; simpl.
  - lia.
  - destruct (N.eqb (combining U c) 0); lia.
Qed.

Lemma loop_chained (s : str) :
  forall turns i,
    chained i (map g_span (grapheme_clusters_loop U turns s i)).
Proof.
  induction turns as [|turns IH]; intros i; simpl.
  - exact I.
  - destruct (Nat.ltb_spec i (List.length s)); simpl.
    + split; [reflexivity|]. split; [lia|]. apply IH.
    + exact I.
Qed.

Lemma loop_texts (s : str) :
  forall turns i,
    Forall (fun g => g_text g = slice s (g_start g) (g_end g)
                     /\ g_end g <= List.length s)
           (grapheme_clusters_loop U turns s i).
Proof.
  induction turns as [|turns IH]; intros i; simpl.
  - constructor.
  - destruct (Nat.ltb_spec i (List.length s)) as [Hlt|Hge].
    + constructor; [|apply IH]. simpl. split; [reflexivity|].
      pose proof (combining_run_le (skipn (i + 1) s)) as Hrun.
      rewrite length_skipn in Hrun. lia.
    + constructor.
Qed.

(** The turns never run out before the text does: the clusters cover the
    rest of the text without gap or overlap. *)
Lemma loop_cover (s : str) :
  forall turns i,
    List.length s <= i + turns ->
    List.concat (map g_text (grapheme_clusters_loop U turns s i)) = skipn i s.
Proof.
  induction turns as [|turns IH]; intros i Hfuel; simpl.
  - symmetry. apply skipn_all2. lia.
  - destruct (Nat.ltb_spec i (List.length s)) as [Hlt|Hge]; simpl.
    + rewrite IH by lia. apply slice_app_skipn. lia.
    + symmetry. apply skipn_all2. lia.
Qed.

Lemma grapheme_clusters_cover (s : str) :
  List.concat (map g_text (grapheme_clusters U s)) = s.
Proof.
  unfold grapheme_clusters. rewrite loop_cover by lia. reflexivity.
Qed.

Lemma clusters_chained (t : str) :
  chained 0 (map cl_span (clusters_of U t)).
Proof.
  unfold clusters_of. rewrite map_map.
  replace (map (fun g => cl_span (add_line t g)) (grapheme_clusters U t))
    with (map g_span (grapheme_clusters U t))
    by (apply map_ext; intros g; reflexivity).
  apply loop_chained.
Qed.

Lemma clusters_nth_span (t : str) (k : nat) (c : cluster) :
  nth_error (clusters_of U t) k = Some c ->
  nth_error (map cl_span (clusters_of U t)) k = Some (cl_start c, cl_end c).
Proof.
  intros H. rewrite nth_error_map, H. reflexivity.
Qed.

Lemma cluster_nonempty (t : str) (k : nat) (c : cluster) :
  nth_error (clusters_of U t) k = Some c -> cl_start c < cl_end c.
Proof.
  intros H. apply clusters_nth_span in H.
  destruct (chained_nth _ _ _ _ _ (clusters_chained t) H). assumption.
Qed.

Lemma cluster_adjacent (t : str) (k : nat) (c c' : cluster) :
  nth_error (clusters_of U t) k = Some c ->
  nth_error (clusters_of U t) (S k) = Some c' ->
  cl_start c' = cl_end c.
Proof.
  intros H H'. apply clusters_nth_span in H, H'.
  exact (chained_next _ _ _ _ _ _ _ (clusters_chained t) H H').
Qed.

Lemma cluster_order (t : str) (k k' : nat) (c c' : cluster) :
  k < k' ->
  nth_error (clusters_of U t) k = Some c ->
  nth_error (clusters_of U t) k' = Some c' ->
  cl_end c <= cl_start c'.
Proof.
  intros Hlt H H'. apply clusters_nth_span in H, H'.
  exact (chained_later _ _ _ _ _ _ _ _ (clusters_chained t) Hlt H H').
Qed.

Lemma cluster_start_increasing (t : str) (k k' : nat) (c c' : cluster) :
  k < k' ->
  nth_error (clusters_of U t) k = Some c ->
  nth_error (clusters_of U t) k' = Some c' ->
  cl_start c < cl_start c'.
Proof.
  intros Hlt H H'.
  pose proof (cluster_nonempty _ _ _ H).
  pose proof (cluster_order _ _ _ _ _ Hlt H H'). lia.
Qed.

Lemma cluster_text_slice (t : str) (k : nat) (c : cluster) :
  nth_error (clusters_of U t) k = Some c ->
  cl_text c = slice t (cl_start c) (cl_end c) /\ cl_end c <= List.length t
  /\ cl_line c = line_number_at t (cl_start c).
Proof.
  unfold clusters_of. intros H. rewrite nth_error_map in H.
  destruct (nth_error (grapheme_clusters U t) k) as [g|] eqn:Hg;
    [|discriminate].
  inversion H; subst; simpl.
  apply nth_error_In in Hg.
  pose proof (loop_texts t (List.length t) 0) as Hall.
  rewrite Forall_forall in Hall. destruct (Hall g Hg) as [Htxt Hend].
  auto.
Qed.

End SegmenterFacts.

(* ================================================================= *)
(** * The hiatus scanner *)

(** Hits produced one per position, each tagged with its position, come
    out in strictly increasing order of the tag. *)
Lemma indexed_hits_sorted {A B : Type} (f : nat -> A -> list B)
  (idx : B -> nat) :
  (forall k x y, In y (f k x) -> idx y = k) ->
  (forall k x, List.length (f k x) <= 1) ->
  forall l n,
    let out := flat_map (fun p => f (fst p) (snd p))
                        (combine (seq n (List.length l)) l) in
    StronglySorted lt (map idx out) /\ Forall (fun y => n <= idx y) out.
Proof.
  intros Hidx Hone.
  induction l as [|x l IH]; intros n; simpl.
  - split; constructor.
  - destruct (IH (S n)) as [Hsorted Hge].
    specialize (Hidx n x). specialize (Hone n x).
    destruct (f n x) as [|y [|y' ys]]; simpl in *.
    + split; [exact Hsorted|].
      eapply Forall_impl; [|exact Hge]. simpl. intros; lia.
    + assert (Hy : idx y = n) by (apply Hidx; auto).
      split.
      * constructor; [exact Hsorted|].
        rewrite Forall_map. eapply Forall_impl; [|exact Hge].
        simpl. intros; lia.
      * constructor; [lia|].
        eapply Forall_impl; [|exact Hge]. simpl. intros; lia.
    + lia.
Qed.

Lemma sorted_filter_eq_le_1 (l : list nat) (i : nat) :
  StronglySorted lt l ->
  List.length (filter (Nat.eqb i) l) <= 1.
Proof.
  induction 1 as [|x l Hs IH Hall]; simpl.
  - lia.
  - destruct (Nat.eqb_spec i x) as [->|Hne]; simpl; [|exact IH].
    assert (Hnil : filter (Nat.eqb x) l = []).
    { clear IH Hs. induction l as [|y l IHl]; simpl; [reflexivity|].
      inversion Hall; subst.
      destruct (Nat.eqb_spec x y); [lia|]. auto. }
    rewrite Hnil. simpl. lia.
Qed.

Lemma sorted_map_monotone {B : Type} (idx f : B -> nat) (l : list B) :
  (forall x y, In x l -> In y l -> idx x < idx y -> f x < f y) ->
  StronglySorted lt (map idx l) ->
  StronglySorted lt (map f l).
Proof.
  induction l as [|x l IH]; simpl; intros Hmono Hs.
  - constructor.
  - inversion Hs as [|? ? Hs' Hall]; subst. constructor.
    + apply IH; [|exact Hs']. intros; apply Hmono; auto.
    + rewrite Forall_map in *. rewrite Forall_forall in *.
      intros y Hy. apply Hmono; auto.
Qed.

Lemma filter_map_comm {A B : Type} (g : A -> B) (p : B -> bool)
  (l : list A) :
  filter p (map g l) = map g (filter (fun x => p (g x)) l).
Proof.
  induction l as [|x l IH]; simpl; [reflexivity|].
  destruct (p (g x)); simpl; rewrite IH; reflexivity.
Qed.

Lemma lookahead_range_spec (i : nat) (K : Z) (n j : nat) :
  In j (lookahead_range i K n) ->
  i < j /\ j < n /\ (Z.of_nat j - Z.of_nat i <= K)%Z.
Proof.
  unfold lookahead_range. rewrite in_seq. lia.
Qed.

Lemma lookahead_range_head (i : nat) (K : Z) (n : nat) :
  (1 <= K)%Z -> i + 1 < n ->
  exists rest, lookahead_range i K n = (i + 1) :: rest.
Proof.
  intros HK Hn. unfold lookahead_range.
  remember (Z.to_nat (Z.min (Z.of_nat i + 1 + K) (Z.of_nat n)) - (i + 1))
    as m eqn:Hm.
  destruct m as [|m]; [lia|].
  simpl. eexists. reflexivity.
Qed.

Section ScannerFacts.

Variable U : UnicodeData.
Variable t : str.
Variable clusters : list cluster.
Variable treat_iota_as_diphthong : bool.

(** What a recorded hit says about the pair it was made from. *)
Lemma scan_from_recorded (i : nat) (ci : cluster) (h : hit) :
  forall js,
    scan_from U t clusters treat_iota_as_diphthong i ci js = Recorded h ->
    exists j cj k,
      In j js /\ nth_error clusters j = Some cj
      /\ is_vowel_cluster U (cl_text cj) = true
      /\ classify_kind U t clusters i ci j cj = Some k
      /\ diphthong_decision U treat_iota_as_diphthong k ci cj = false
      /\ h = make_hit t k i ci j cj.
Proof.
  induction js as [|j js IH]; simpl; intros Hrec; [discriminate|].
  destruct (nth_error clusters j) as [cj|] eqn:Hcj; [|discriminate].
  destruct (is_vowel_cluster U (cl_text cj)) eqn:Hv; simpl in Hrec.
  - destruct (classify_kind U t clusters i ci j cj) as [k|] eqn:Hk.
    + destruct (diphthong_decision U treat_iota_as_diphthong k ci cj) eqn:Hd;
        [discriminate|].
      inversion Hrec; subst.
      exists j, cj, k. repeat split; auto.
    + destruct (IH Hrec) as [j' [cj' [k' [Hin Hrest]]]].
      exists j', cj', k'. split; [right; exact Hin | exact Hrest].
  - destruct (IH Hrec) as [j' [cj' [k' [Hin Hrest]]]].
    exists j', cj', k'. split; [right; exact Hin | exact Hrest].
Qed.

(** The inner loop passes over the values of [j] that are no vowel or
    have no kind, and the first pairing with a kind settles it. *)
Lemma scan_from_first (i : nat) (ci cj : cluster) (j : nat)
  (k : hiatus_kind) (js1 js2 : list nat) :
  (forall j', In j' js1 ->
     exists cj', nth_error clusters j' = Some cj'
       /\ (is_vowel_cluster U (cl_text cj') = false
           \/ classify_kind U t clusters i ci j' cj' = None)) ->
  nth_error clusters j = Some cj ->
  is_vowel_cluster U (cl_text cj) = true ->
  classify_kind U t clusters i ci j cj = Some k ->
  scan_from U t clusters treat_iota_as_diphthong i ci (js1 ++ j :: js2)
  = if diphthong_decision U treat_iota_as_diphthong k ci cj
    then DiphthongStop
    else Recorded (make_hit t k i ci j cj).
Proof.
  intros Hskip Hj Hv Hk.
  induction js1 as [|j' js1 IH]; simpl.
  - rewrite Hj, Hv, Hk. reflexivity.
  - destruct (Hskip j' (or_introl eq_refl)) as [cj' [Hj' Hcase]].
    rewrite Hj'.
    assert (Hrest : forall x, In x js1 ->
              exists cx, nth_error clusters x = Some cx
                /\ (is_vowel_cluster U (cl_text cx) = false
                    \/ classify_kind U t clusters i ci x cx = None))
      by (intros x Hx; apply Hskip; right; exact Hx).
    destruct (is_vowel_cluster U (cl_text cj')) eqn:Hv'; simpl.
    + destruct Hcase as [Hc|Hc]; [discriminate|].
      rewrite Hc. exact (IH Hrest).
    + exact (IH Hrest).
Qed.

Variable max_cluster_lookahead : Z.

Lemma scan_start_first (i : nat) (ci cj : cluster) (j : nat)
  (k : hiatus_kind) :
  is_vowel_cluster U (cl_text ci) = true ->
  In j (lookahead_range i max_cluster_lookahead (List.length clusters)) ->
  nth_error clusters j = Some cj ->
  is_vowel_cluster U (cl_text cj) = true ->
  classify_kind U t clusters i ci j cj = Some k ->
  (forall j' cj',
     i < j' -> j' < j -> nth_error clusters j' = Some cj' ->
     is_vowel_cluster U (cl_text cj') = false
     \/ classify_kind U t clusters i ci j' cj' = None) ->
  scan_start U t clusters treat_iota_as_diphthong max_cluster_lookahead i ci
  = if diphthong_decision U treat_iota_as_diphthong k ci cj
    then DiphthongStop
    else Recorded (make_hit t k i ci j cj).
Proof.
  intros Hvi Hin Hj Hvj Hk Hskip.
  unfold scan_start. rewrite Hvi. simpl.
  unfold lookahead_range in *.
  remember (Z.to_nat (Z.min (Z.of_nat i + 1 + max_cluster_lookahead)
                            (Z.of_nat (List.length clusters)))) as hi.
  apply in_seq in Hin.
  replace (hi - (i + 1)) with ((j - (i + 1)) + S (hi - (j + 1))) by lia.
  rewrite seq_app. simpl.
  replace (i + 1 + (j - (i + 1))) with j by lia.
  apply scan_from_first; try assumption.
  intros j' Hj'. apply in_seq in Hj'.
  destruct (nth_error clusters j') as [cj'|] eqn:Hnth.
  - exists cj'. split; [reflexivity|].
    apply (Hskip j' cj'); [lia | lia | exact Hnth].
  - apply nth_error_None in Hnth.
    assert (Hsome : nth_error clusters j <> None) by congruence.
    apply nth_error_Some in Hsome. lia.
Qed.

Lemma scan_start_recorded (i : nat) (ci : cluster) (h : hit) :
  scan_start U t clusters treat_iota_as_diphthong max_cluster_lookahead i ci
  = Recorded h ->
  is_vowel_cluster U (cl_text ci) = true
  /\ exists j cj k,
       i < j /\ j < List.length clusters
       /\ (Z.of_nat j - Z.of_nat i <= max_cluster_lookahead)%Z
       /\ nth_error clusters j = Some cj
       /\ is_vowel_cluster U (cl_text cj) = true
       /\ classify_kind U t clusters i ci j cj = Some k
       /\ diphthong_decision U treat_iota_as_diphthong k ci cj = false
       /\ h = make_hit t k i ci j cj.
Proof.
  unfold scan_start. intros Hrec.
  destruct (is_vowel_cluster U (cl_text ci)) eqn:Hv; simpl in Hrec;
    [|discriminate].
  split; [reflexivity|].
  apply scan_from_recorded in Hrec.
  destruct Hrec as [j [cj [k [Hin Hrest]]]].
  apply lookahead_range_spec in Hin.
  exists j, cj, k. intuition.
Qed.

Lemma In_scan (h : hit) :
  In h (scan U t clusters treat_iota_as_diphthong max_cluster_lookahead)
  <-> exists i ci,
        nth_error clusters i = Some ci
        /\ scan_start U t clusters treat_iota_as_diphthong
             max_cluster_lookahead i ci = Recorded h.
Proof.
  unfold scan. rewrite in_flat_map. split.
  - intros [[i ci] [Hin Hout]]. simpl in Hout.
    apply In_enumerate in Hin. exists i, ci. split; [exact Hin|].
    destruct (scan_start U t clusters treat_iota_as_diphthong
                max_cluster_lookahead i ci); simpl in Hout; try tauto.
    destruct Hout as [->|[]]. reflexivity.
  - intros [i [ci [Hnth Hrec]]]. exists (i, ci). split.
    + apply In_enumerate. exact Hnth.
    + simpl. rewrite Hrec. simpl. auto.
Qed.

(** Every hit of the scanner, spelled out. *)
Lemma scan_hit_spec (h : hit) :
  In h (scan U t clusters treat_iota_as_diphthong max_cluster_lookahead) ->
  exists ci cj,
    nth_error clusters (i_index h) = Some ci
    /\ nth_error clusters (j_index h) = Some cj
    /\ i_index h < j_index h
    /\ j_index h < List.length clusters
    /\ (Z.of_nat (j_index h) - Z.of_nat (i_index h)
        <= max_cluster_lookahead)%Z
    /\ is_vowel_cluster U (cl_text ci) = true
    /\ is_vowel_cluster U (cl_text cj) = true
    /\ classify_kind U t clusters (i_index h) ci (j_index h) cj
       = Some (kind h)
    /\ diphthong_decision U treat_iota_as_diphthong (kind h) ci cj = false
    /\ h = make_hit t (kind h) (i_index h) ci (j_index h) cj.
Proof.
  intros Hin. apply In_scan in Hin. destruct Hin as [i [ci [Hi Hrec]]].
  apply scan_start_recorded in Hrec.
  destruct Hrec as [Hvi [j [cj [k [Hlt [Hlen [HK [Hj [Hvj [Hk [Hd ->]]]]]]]]]]].
  simpl. exists ci, cj. repeat split; auto.
Qed.

Lemma scan_start_index (i : nat) (ci : cluster) (h : hit) :
  In h (outcome_hits
          (scan_start U t clusters treat_iota_as_diphthong
             max_cluster_lookahead i ci)) ->
  i_index h = i.
Proof.
  destruct (scan_start U t clusters treat_iota_as_diphthong
              max_cluster_lookahead i ci) as [| |h'] eqn:Hs; simpl;
    try tauto.
  intros [->|[]]. apply scan_start_recorded in Hs.
  destruct Hs as [_ [j [cj [k [_ [_ [_ [_ [_ [_ [_ ->]]]]]]]]]]]. reflexivity.
Qed.

Lemma scan_sorted :
  StronglySorted lt
    (map i_index
         (scan U t clusters treat_iota_as_diphthong max_cluster_lookahead)).
Proof.
  unfold scan, enumerate.
  apply (indexed_hits_sorted
           (fun i ci => outcome_hits
                          (scan_start U t clusters treat_iota_as_diphthong
                             max_cluster_lookahead i ci)) i_index).
  - intros k x y. apply scan_start_index.
  - intros k x.
    destruct (scan_start U t clusters treat_iota_as_diphthong
                max_cluster_lookahead k x); simpl; lia.
Qed.

End ScannerFacts.

(* ================================================================= *)
(** * The detector *)

Section DetectorFacts.

Variable U : UnicodeData.
Variable text : str.
Variable treat_iota_as_diphthong : bool.
Variable max_cluster_lookahead : Z.

Local Abbreviation t := (normalize_NFC U text).
Local Abbreviation clusters := (clusters_of U t).
Local Abbreviation hits :=
  (scan U t clusters treat_iota_as_diphthong max_cluster_lookahead).

Lemma detect_occurrences :
  snd (detect_hiatus_in_text U text treat_iota_as_diphthong
         max_cluster_lookahead)
  = map (expand U clusters) hits.
Proof. reflexivity. Qed.

Lemma In_occurrences (occ : occurrence) :
  In occ (snd (detect_hiatus_in_text U text treat_iota_as_diphthong
                 max_cluster_lookahead)) ->
  In (found occ) hits /\ occ = expand U clusters (found occ).
Proof.
  rewrite detect_occurrences, in_map_iff.
  intros [h [<- Hin]]. simpl. auto.
Qed.

Lemma occurrence_indices :
  map (fun occ => i_index (found occ))
      (snd (detect_hiatus_in_text U text treat_iota_as_diphthong
              max_cluster_lookahead))
  = map i_index hits.
Proof.
  rewrite detect_occurrences, map_map. reflexivity.
Qed.

Lemma clusters_length :
  List.length clusters = List.length (grapheme_clusters U t).
Proof. unfold clusters_of. apply length_map. Qed.

End DetectorFacts.

(* ================================================================= *)
(** * Adjacent vowel clusters *)

Lemma slice_nil_inv {A : Type} (s : list A) (a b : nat) :
  slice s a b = [] -> a <= b -> b <= List.length s -> a = b.
Proof.
  unfold slice. intros Hnil Hab Hb.
  apply (f_equal (@List.length A)) in Hnil.
  rewrite length_firstn, length_skipn in Hnil. simpl in Hnil. lia.
Qed.

Section AdjacentPairs.

Variable U : UnicodeData.
Variable text : str.
Variable treat_iota_as_diphthong : bool.
Variable max_cluster_lookahead : Z.

Local Abbreviation t := (normalize_NFC U text).
Local Abbreviation clusters := (clusters_of U t).

(** Two clusters with nothing between them are neighbours in the
    sequence. *)
Lemma empty_between_adjacent (i j : nat) (ci cj : cluster) :
  i < j ->
  nth_error clusters i = Some ci ->
  nth_error clusters j = Some cj ->
  slice t (cl_end ci) (cl_start cj) = [] ->
  j = i + 1.
Proof.
  intros Hlt Hi Hj Hnil.
  pose proof (cluster_order U t i j ci cj Hlt Hi Hj) as Hord.
  pose proof (cluster_nonempty U t j cj Hj) as Hne.
  destruct (cluster_text_slice U t j cj Hj) as [_ [Hend _]].
  assert (Heq : cl_end ci = cl_start cj)
    by (apply (slice_nil_inv t); [exact Hnil | lia | lia]).
  destruct (Nat.eq_dec j (i + 1)) as [|Hne']; [assumption|exfalso].
  assert (Hmid : i + 1 < List.length clusters).
  { assert (Hsome : nth_error clusters j <> None) by congruence.
    apply nth_error_Some in Hsome. lia. }
  destruct (nth_error clusters (i + 1)) as [cm|] eqn:Hm.
  - assert (Hlt1 : i < i + 1) by lia.
    assert (Hlt2 : i + 1 < j) by lia.
    pose proof (cluster_order U t i (i + 1) ci cm Hlt1 Hi Hm).
    pose proof (cluster_order U t (i + 1) j cm cj Hlt2 Hm Hj).
    pose proof (cluster_nonempty U t (i + 1) cm Hm). lia.
  - apply nth_error_None in Hm. lia.
Qed.

Lemma classify_adjacent (i : nat) (ci cj : cluster) :
  nth_error clusters i = Some ci ->
  nth_error clusters (i + 1) = Some cj ->
  classify_kind U t clusters i ci (i + 1) cj = Some IntraWord.
Proof.
  intros Hi Hj. unfold classify_kind.
  rewrite Nat.add_1_r in Hj.
  rewrite (cluster_adjacent U t i ci cj Hi Hj).
  rewrite slice_empty by lia. reflexivity.
Qed.

(** With a lookahead of at least one cluster, the neighbour is the first
    pairing the scanner looks at, and it settles the start cluster. *)
Lemma scan_start_adjacent (i : nat) (ci cj : cluster) :
  (1 <= max_cluster_lookahead)%Z ->
  nth_error clusters i = Some ci ->
  nth_error clusters (i + 1) = Some cj ->
  is_vowel_cluster U (cl_text ci) = true ->
  is_vowel_cluster U (cl_text cj) = true ->
  scan_start U t clusters treat_iota_as_diphthong max_cluster_lookahead i ci
  = if diphthong_decision U treat_iota_as_diphthong IntraWord ci cj
    then DiphthongStop
    else Recorded (make_hit t IntraWord i ci (i + 1) cj).
Proof.
  intros HK Hi Hj Hvi Hvj. unfold scan_start. rewrite Hvi. simpl.
  assert (Hlen : i + 1 < List.length clusters).
  { assert (Hsome : nth_error clusters (i + 1) <> None) by congruence.
    apply nth_error_Some in Hsome. exact Hsome. }
  destruct (lookahead_range_head i max_cluster_lookahead _ HK Hlen)
    as [rest ->].
  simpl. rewrite Hj, Hvj. simpl.
  rewrite (classify_adjacent i ci cj Hi Hj). reflexivity.
Qed.

Lemma recorded_in_occurrences (i : nat) (ci : cluster) (h : hit) :
  nth_error clusters i = Some ci ->
  scan_start U t clusters treat_iota_as_diphthong max_cluster_lookahead i ci
  = Recorded h ->
  In (expand U clusters h)
     (snd (detect_hiatus_in_text U text treat_iota_as_diphthong
             max_cluster_lookahead)).
Proof.
  intros Hi Hrec. rewrite detect_occurrences. apply in_map.
  apply In_scan. exists i, ci. auto.
Qed.

Lemma not_recorded_no_occurrence (i : nat) (ci : cluster) :
  nth_error clusters i = Some ci ->
  (forall h,
      scan_start U t clusters treat_iota_as_diphthong max_cluster_lookahead
        i ci <> Recorded h) ->
  forall occ,
    In occ (snd (detect_hiatus_in_text U text treat_iota_as_diphthong
                   max_cluster_lookahead)) ->
    i_index (found occ) <> i.
Proof.
  intros Hi Hnot occ Hin Heq.
  apply In_occurrences in Hin. destruct Hin as [Hin _].
  apply In_scan in Hin. destruct Hin as [i' [ci' [Hi' Hrec]]].
  assert (Hidx : i_index (found occ) = i').
  { apply (scan_start_index U t clusters treat_iota_as_diphthong
             max_cluster_lookahead i' ci').
    rewrite Hrec. simpl. auto. }
  assert (Hii : i' = i) by congruence.
  rewrite Hii in Hi', Hrec.
  assert (Hcc : ci' = ci) by congruence.
  rewrite Hcc in Hrec. exact (Hnot _ Hrec).
Qed.

End AdjacentPairs.

Section DiphthongDecision.

Variable U : UnicodeData.
Variable treat_iota_as_diphthong : bool.

Lemma decision_breathing (ci cj : cluster) :
  contains_breathing U (cl_text ci) = true ->
  diphthong_decision U treat_iota_as_diphthong IntraWord ci cj = false.
Proof.
  intros Hb. unfold diphthong_decision. rewrite Hb. reflexivity.
Qed.

Lemma decision_diaeresis (ci cj : cluster) :
  contains_combining_diaeresis U (cl_text cj) = true ->
  diphthong_decision U treat_iota_as_diphthong IntraWord ci cj = false.
Proof.
  intros Hd. unfold diphthong_decision. rewrite Hd.
  destruct (contains_breathing U (cl_text ci)); reflexivity.
Qed.

Lemma decision_diphthong (ci cj : cluster) :
  set_mem (base_letter U (cl_text ci) ++ base_letter U (cl_text cj))
          DIPHTHONGS = true ->
  contains_combining_diaeresis U (cl_text cj) = false ->
  contains_breathing U (cl_text ci) = false ->
  diphthong_decision U treat_iota_as_diphthong IntraWord ci cj = true.
Proof.
  intros Hp Hd Hb. unfold diphthong_decision. rewrite Hp, Hd, Hb.
  destruct (treat_iota_as_diphthong
            && (contains_iota_subscript U (cl_text ci)
                || contains_iota_subscript U (cl_text cj))); reflexivity.
Qed.

End DiphthongDecision.

(* ================================================================= *)
(** * The span expander *)

Ltac split_tests :=
  repeat match goal with
         | |- context [Nat.ltb ?a ?b] => destruct (Nat.ltb_spec a b)
         | |- context [Nat.leb ?a ?b] => destruct (Nat.leb_spec a b)
         | |- context [Nat.eqb ?a ?b] => destruct (Nat.eqb_spec a b)
         | |- context [diphthong_at ?U ?cs ?a ?b] =>
             destruct (diphthong_at U cs a b)
         end;
  simpl.

Section ExpanderFacts.

Variable U : UnicodeData.
Variable clusters : list cluster.

(** The two lists as grown hold the boundary cluster and neighbours of
    it only; the left one never more than two indices, the right one
    never more than three. *)
Lemma grow_spans_shape (i j : nat) :
  let grown := grow_spans U clusters i j in
  In (fst grown) [[i]; [i; i + 1]; [i - 1; i]]
  /\ In (snd grown) [[j]; [j - 1; j]; [j; j + 1]; [j - 1; j; j + 1]]
  /\ (fst grown = [i; i + 1] -> i + 1 < j)
  /\ (In (j - 1) (snd grown) -> j - 1 <> j -> i < j - 1).
Proof.
  unfold grow_spans. split_tests; repeat split; simpl; intros;
    try tauto; try lia; try discriminate;
    try (match goal with H : [_; _] = [_; _] |- _ =>
           inversion H; lia end);
    intuition lia.
Qed.

Lemma spans_overlap_spec (vi vj : list nat) :
  spans_overlap vi vj = true <-> exists k, In k vi /\ In k vj.
Proof.
  unfold spans_overlap. rewrite existsb_exists. split.
  - intros [k [Hi Hj]]. apply existsb_exists in Hj.
    destruct Hj as [k' [Hj Heq]]. apply Nat.eqb_eq in Heq. subst k'.
    exists k. auto.
  - intros [k [Hi Hj]]. exists k. split; [exact Hi|].
    apply existsb_exists. exists k. split; [exact Hj|].
    apply Nat.eqb_refl.
Qed.

Lemma filter_above (i : nat) (l : list nat) :
  Forall (fun k => i < k) l ->
  filter (fun k => negb (k =? i)) l = l.
Proof.
  induction 1 as [|k l Hk _ IH]; simpl; [reflexivity|].
  destruct (Nat.eqb_spec k i); [lia|]. simpl. rewrite IH. reflexivity.
Qed.

Lemma grown_right_above (i j : nat) :
  i < j -> Forall (fun k => i < k) (snd (grow_spans U clusters i j)).
Proof.
  intros Hlt. unfold grow_spans. split_tests;
    repeat constructor; lia.
Qed.

Lemma expand_spans_right (i j : nat) :
  i < j ->
  snd (expand_spans U clusters i j) = snd (grow_spans U clusters i j).
Proof.
  intros Hlt. unfold expand_spans, resolve_overlap.
  destruct (spans_overlap (fst (grow_spans U clusters i j))
              (snd (grow_spans U clusters i j))); [|reflexivity].
  simpl. apply filter_above. apply grown_right_above. exact Hlt.
Qed.

Lemma expand_spans_left (i j : nat) :
  fst (expand_spans U clusters i j)
  = if spans_overlap (fst (grow_spans U clusters i j))
         (snd (grow_spans U clusters i j))
    then [i] else fst (grow_spans U clusters i j).
Proof.
  unfold expand_spans, resolve_overlap.
  destruct (spans_overlap (fst (grow_spans U clusters i j))
              (snd (grow_spans U clusters i j))); reflexivity.
Qed.



(** Every index of the two spans is an index of the cluster sequence:
    the texts of the spans are joined from clusters that exist. *)
Lemma expand_spans_valid (i j : nat) :
  i < j -> j < List.length clusters ->
  Forall (fun k => k < List.length clusters)
         (fst (expand_spans U clusters i j))
  /\ Forall (fun k => k < List.length clusters)
            (snd (expand_spans U clusters i j)).
Proof.
  intros Hlt Hlen.
  rewrite expand_spans_left, (expand_spans_right i j Hlt).
  assert (Hgrown : Forall (fun k => k < List.length clusters)
                     (fst (grow_spans U clusters i j))
                   /\ Forall (fun k => k < List.length clusters)
                        (snd (grow_spans U clusters i j))).
  { unfold grow_spans. split_tests; split; repeat constructor; lia. }
  destruct Hgrown as [Hl Hr]. split; [|exact Hr].
  destruct (spans_overlap (fst (grow_spans U clusters i j))
              (snd (grow_spans U clusters i j))); [|exact Hl].
  repeat constructor. lia.
Qed.

End ExpanderFacts.

Section OccurrenceSpans.

Variable U : UnicodeData.
Variable text : str.
Variable treat_iota_as_diphthong : bool.
Variable max_cluster_lookahead : Z.

(** The spans of a reported occurrence are those the expander computes
    from its two indices, the first of which is the smaller. *)
Lemma occurrence_spans (occ : occurrence) :
  In occ (snd (detect_hiatus_in_text U text treat_iota_as_diphthong
                 max_cluster_lookahead)) ->
  i_index (found occ) < j_index (found occ)
  /\ (vowel_i_indices occ, vowel_j_indices occ)
     = expand_spans U (clusters_of U (normalize_NFC U text))
         (i_index (found occ)) (j_index (found occ)).
Proof.
  intros Hin. apply In_occurrences in Hin. destruct Hin as [Hin Heq].
  apply scan_hit_spec in Hin.
  destruct Hin as [ci [cj [_ [_ [Hlt _]]]]].
  split; [exact Hlt|].
  rewrite Heq at 1 2. simpl.
  destruct (expand_spans U (clusters_of U (normalize_NFC U text))
              (i_index (found occ)) (j_index (found occ))); reflexivity.
Qed.

End OccurrenceSpans.

(* ================================================================= *)
(** * The line index *)

Lemma filter_enumerate_sorted {A : Type} (p : nat * A -> bool) :
  forall (l : list A) (a : nat),
    let out := map fst (filter p (combine (seq a (List.length l)) l)) in
    StronglySorted lt out /\ Forall (fun k => a <= k) out.
Proof.
  induction l as [|x l IH]; intros a; simpl.
  - split; constructor.
  - destruct (IH (S a)) as [Hs Hge].
    assert (Hgt : Forall (fun k => a < k)
                    (map fst (filter p (combine (seq (S a) (List.length l)) l))))
      by (eapply Forall_impl; [|exact Hge]; simpl; intros; lia).
    destruct (p (a, x)); simpl.
    + split; constructor; auto.
      eapply Forall_impl; [|exact Hge]. simpl. intros; lia.
    + split; [exact Hs|].
      eapply Forall_impl; [|exact Hge]. simpl. intros; lia.
Qed.

Lemma line_to_idxs_sorted (clusters : list cluster) (ln : nat) :
  StronglySorted lt (line_to_idxs clusters ln).
Proof.
  unfold line_to_idxs, enumerate.
  apply (filter_enumerate_sorted
           (fun p : nat * cluster => cl_line (snd p) =? ln) clusters 0).
Qed.

Lemma In_line_to_idxs (clusters : list cluster) (ln k : nat) :
  In k (line_to_idxs clusters ln)
  <-> exists c, nth_error clusters k = Some c /\ cl_line c = ln.
Proof.
  unfold line_to_idxs. rewrite in_map_iff. split.
  - intros [[k' c] [Hk Hin]]. simpl in Hk. subst k'.
    apply filter_In in Hin. destruct Hin as [Hin Hln]. simpl in Hln.
    apply In_enumerate in Hin. apply Nat.eqb_eq in Hln.
    exists c. auto.
  - intros [c [Hnth Hln]]. exists (k, c). split; [reflexivity|].
    apply filter_In. split; [apply In_enumerate; exact Hnth|].
    simpl. apply Nat.eqb_eq. exact Hln.
Qed.

Lemma str_count_firstn_le (c : codepoint) (n : nat) (l : str) :
  str_count c (firstn n l) <= str_count c l.
Proof.
  unfold str_count.
  assert (Hsplit : List.length (filter (N.eqb c) l)
                   = List.length (filter (N.eqb c) (firstn n l))
                     + List.length (filter (N.eqb c) (skipn n l))).
  { rewrite <- length_app, <- filter_app, firstn_skipn. reflexivity. }
  lia.
Qed.

Lemma line_number_at_mono (t : str) (a b : nat) :
  a <= b -> line_number_at t a <= line_number_at t b.
Proof.
  intros Hle. unfold line_number_at, slice. simpl.
  rewrite !Nat.sub_0_r.
  replace (firstn a t) with (firstn a (firstn b t)).
  - apply str_count_firstn_le.
  - rewrite firstn_firstn. f_equal. lia.
Qed.

Section LineIndexFacts.

Variable U : UnicodeData.
Variable clusters : list cluster.

Lemma nonpunct_step_eq (st : option nat * option nat) (idx : nat) :
  nonpunct_step U clusters st idx
  = if nonpunct_at U clusters idx
    then (match fst st with None => Some idx | Some f => Some f end,
          Some idx)
    else st.
Proof.
  unfold nonpunct_step, nonpunct_at.
  destruct (nth_error clusters idx) as [c|]; [|reflexivity].
  destruct (is_punct_or_space_cluster U (cl_text c)); reflexivity.
Qed.

(** [first] ends as the first index of the line that is not punctuation:
    every index of the line before it is punctuation. *)
Lemma fold_first (idxs : list nat) :
  StronglySorted lt idxs ->
  forall st j,
    fst (fold_left (nonpunct_step U clusters) idxs st) = Some j ->
    fst st = Some j
    \/ (fst st = None /\ In j idxs
        /\ forall k, In k idxs -> k < j -> nonpunct_at U clusters k = false).
Proof.
  induction 1 as [|x rest Hs IH Hall]; intros st j Hres; simpl in Hres.
  - left. exact Hres.
  - rewrite Forall_forall in Hall.
    rewrite nonpunct_step_eq in Hres.
    destruct (nonpunct_at U clusters x) eqn:Hx.
    + destruct (IH _ _ Hres) as [Hfst | [Hnone _]]; simpl in *.
      * destruct (fst st) as [f|] eqn:Hf; [left; exact Hfst|].
        right. inversion Hfst; subst. split; [reflexivity|].
        split; [left; reflexivity|].
        intros k [->|Hk] Hlt; [lia|]. specialize (Hall _ Hk). lia.
      * destruct (fst st); discriminate.
    + destruct (IH _ _ Hres) as [Hfst | [Hnone [Hin Hbefore]]].
      * left. exact Hfst.
      * right. split; [exact Hnone|]. split; [right; exact Hin|].
        intros k [->|Hk] Hlt; [exact Hx | apply Hbefore; assumption].
Qed.

(** [last] ends as the last index of the line that is not punctuation:
    every index of the line after it is punctuation. *)
Lemma fold_last (idxs : list nat) :
  StronglySorted lt idxs ->
  forall st i,
    snd (fold_left (nonpunct_step U clusters) idxs st) = Some i ->
    (snd st = Some i
     /\ forall k, In k idxs -> nonpunct_at U clusters k = false)
    \/ (In i idxs
        /\ forall k, In k idxs -> i < k -> nonpunct_at U clusters k = false).
Proof.
  induction 1 as [|x rest Hs IH Hall]; intros st i Hres; simpl in Hres.
  - left. split; [exact Hres|]. intros k [].
  - rewrite Forall_forall in Hall.
    rewrite nonpunct_step_eq in Hres.
    destruct (nonpunct_at U clusters x) eqn:Hx.
    + right.
      destruct (IH _ _ Hres) as [[Hsnd Hnone] | [Hin Hafter]]; simpl in *.
      * inversion Hsnd; subst. split; [left; reflexivity|].
        intros k [->|Hk] Hlt; [lia | apply Hnone; exact Hk].
      * split; [right; exact Hin|].
        intros k [->|Hk] Hlt; [|apply Hafter; assumption].
        specialize (Hall _ Hin). lia.
    + destruct (IH _ _ Hres) as [[Hsnd Hnone] | [Hin Hafter]].
      * left. split; [exact Hsnd|].
        intros k [->|Hk]; [exact Hx | apply Hnone; exact Hk].
      * right. split; [right; exact Hin|].
        intros k [->|Hk] Hlt; [exact Hx | apply Hafter; assumption].
Qed.

Lemma nonpunct_at_false (k : nat) (c : cluster) :
  nth_error clusters k = Some c ->
  nonpunct_at U clusters k = false ->
  is_punct_or_space_cluster U (cl_text c) = true.
Proof.
  unfold nonpunct_at. intros -> H.
  destruct (is_punct_or_space_cluster U (cl_text c)); [reflexivity|].
  discriminate.
Qed.

Lemma first_nonpunct_spec (ln j : nat) :
  first_nonpunct U clusters ln = Some j ->
  forall k c,
    nth_error clusters k = Some c -> cl_line c = ln -> k < j ->
    is_punct_or_space_cluster U (cl_text c) = true.
Proof.
  unfold first_nonpunct, first_last_nonpunct. intros Hres k c Hk Hln Hlt.
  apply (fold_first _ (line_to_idxs_sorted clusters ln)) in Hres.
  destruct Hres as [Hfst | [_ [_ Hbefore]]]; [discriminate|].
  apply (nonpunct_at_false k c Hk). apply Hbefore; [|exact Hlt].
  apply In_line_to_idxs. exists c. auto.
Qed.

Lemma last_nonpunct_spec (ln i : nat) :
  last_nonpunct U clusters ln = Some i ->
  forall k c,
    nth_error clusters k = Some c -> cl_line c = ln -> i < k ->
    is_punct_or_space_cluster U (cl_text c) = true.
Proof.
  unfold last_nonpunct, first_last_nonpunct. intros Hres k c Hk Hln Hlt.
  apply (fold_last _ (line_to_idxs_sorted clusters ln)) in Hres.
  destruct Hres as [[Hsnd _] | [_ Hafter]]; [discriminate|].
  apply (nonpunct_at_false k c Hk). apply Hafter; [|exact Hlt].
  apply In_line_to_idxs. exists c. auto.
Qed.

End LineIndexFacts.

(* ================================================================= *)
(** * What lies between the two clusters of a hit *)

Lemma str_eqb_eq (a b : str) : str_eqb a b = true -> a = b.
Proof.
  revert b. induction a as [|x a IH]; intros [|y b]; simpl;
    try discriminate; [reflexivity|].
  intros H. apply andb_prop in H. destruct H as [Hxy Hab].
  apply N.eqb_eq in Hxy. subst y. f_equal. apply IH. exact Hab.
Qed.

Section BetweenClusters.

Variable U : UnicodeData.
Variable t : str.

Local Abbreviation clusters := (clusters_of U t).

Lemma classify_kind_inv (i j : nat) (ci cj : cluster) (k : hiatus_kind) :
  classify_kind U t clusters i ci j cj = Some k ->
  match k with
  | IntraWord => slice t (cl_end ci) (cl_start cj) = []
  | InterWord =>
      only_punct_space_between U t (cl_end ci) (cl_start cj) = true
  | AcrossLine =>
      cl_line cj = cl_line ci + 1
      /\ last_nonpunct U clusters (cl_line ci) = Some i
      /\ first_nonpunct U clusters (cl_line cj) = Some j
  end.
Proof.
  unfold classify_kind.
  destruct (char_in NEWLINE (slice t (cl_end ci) (cl_start cj))).
  - destruct (Nat.eqb_spec (cl_line cj) (cl_line ci + 1)) as [Hln|];
      [|discriminate].
    destruct (last_nonpunct U clusters (cl_line ci)) as [last_idx|];
      [|discriminate].
    destruct (first_nonpunct U clusters (cl_line cj)) as [first_idx|];
      [|discriminate].
    destruct (Nat.eqb_spec last_idx i); simpl; [|discriminate].
    destruct (Nat.eqb_spec first_idx j); simpl; [|discriminate].
    intros H; inversion H; subst. auto.
  - destruct (str_eqb (slice t (cl_end ci) (cl_start cj)) []) eqn:Hempty.
    + intros H; inversion H; subst. apply str_eqb_eq. exact Hempty.
    + destruct (only_punct_space_between U t (cl_end ci) (cl_start cj))
        eqn:Honly; simpl; [|discriminate].
      destruct (cl_line ci =? cl_line cj); [|discriminate].
      intros H; inversion H; subst. reflexivity.
Qed.

Lemma cluster_line_mono (k k' : nat) (c c' : cluster) :
  k < k' ->
  nth_error clusters k = Some c ->
  nth_error clusters k' = Some c' ->
  cl_line c <= cl_line c'.
Proof.
  intros Hlt Hk Hk'.
  pose proof (cluster_start_increasing U t k k' c c' Hlt Hk Hk') as Hs.
  destruct (cluster_text_slice U t k c Hk) as [_ [_ ->]].
  destruct (cluster_text_slice U t k' c' Hk') as [_ [_ ->]].
  apply line_number_at_mono. lia.
Qed.

Variable treat_iota_as_diphthong : bool.
Variable max_cluster_lookahead : Z.

(** A cluster strictly between the two clusters of a hit holds no letter
    and no digit, or is punctuation or space throughout. *)
Lemma between_cluster_plain (h : hit) (k : nat) (ck : cluster) :
  In h (scan U t clusters treat_iota_as_diphthong max_cluster_lookahead) ->
  i_index h < k -> k < j_index h ->
  nth_error clusters k = Some ck ->
  (forall ch, In ch (cl_text ck) -> is_letter_or_number U ch = false)
  \/ is_punct_or_space_cluster U (cl_text ck) = true.
Proof.
  intros Hin Hik Hkj Hk.
  apply scan_hit_spec in Hin.
  destruct Hin as [ci [cj [Hi [Hj [Hlt [_ [_ [_ [_ [Hkind _]]]]]]]]]].
  apply classify_kind_inv in Hkind.
  pose proof (cluster_order U t _ _ _ _ Hik Hi Hk) as Hord1.
  pose proof (cluster_order U t _ _ _ _ Hkj Hk Hj) as Hord2.
  pose proof (cluster_nonempty U t _ _ Hk) as Hne.
  destruct (kind h).
  - (* intra-word: the two clusters are neighbours *)
    exfalso.
    pose proof (cluster_nonempty U t _ _ Hj) as Hnej.
    destruct (cluster_text_slice U t _ _ Hj) as [_ [Hend _]].
    assert (Heq : cl_end ci = cl_start cj)
      by (apply (slice_nil_inv t); [exact Hkind | lia | lia]).
    lia.
  - (* interword: every code point in between was tested *)
    left. intros ch Hch.
    destruct (cluster_text_slice U t _ _ Hk) as [Htxt _].
    rewrite Htxt in Hch.
    apply (slice_incl t _ _ (cl_end ci) (cl_start cj)) in Hch;
      [|exact Hord1 | exact Hord2].
    unfold only_punct_space_between in Hkind.
    rewrite forallb_forall in Hkind. specialize (Hkind _ Hch).
    destruct (is_letter_or_number U ch); [discriminate | reflexivity].
  - (* across-line: the line index vouches for both lines *)
    right. destruct Hkind as [Hln [Hlast Hfirst]].
    pose proof (cluster_line_mono _ _ _ _ Hik Hi Hk) as Hl1.
    pose proof (cluster_line_mono _ _ _ _ Hkj Hk Hj) as Hl2.
    destruct (Nat.eq_dec (cl_line ck) (cl_line ci)) as [Hsame|Hdiff].
    + apply (last_nonpunct_spec U clusters _ _ Hlast k ck Hk Hsame Hik).
    + assert (Hnext : cl_line ck = cl_line cj) by lia.
      apply (first_nonpunct_spec U clusters _ _ Hfirst k ck Hk Hnext Hkj).
Qed.

End BetweenClusters.

(* ================================================================= *)
(** * Two facts of the character database

    The inward growth of a span needs a cluster strictly between the two
    clusters of a hit whose base letter pairs as a diphthong.  Two facts
    about the database rule this out; they are stated on the functions of
    the interface.  Both hold of the excerpt ([GreekUCD], proved below),
    and an exhaustive run over the code points of the interpreter's
    database finds no exception to either. *)

Lemma prefix_L_not_P_S (cat : string) :
  String.prefix "L" cat = true ->
  String.prefix "P" cat = false /\ String.prefix "S" cat = false.
Proof.
  destruct cat as [|a cat]; cbn [String.prefix]; [discriminate|].
  destruct (Ascii.ascii_dec "L" a) as [Heq|]; [|discriminate].
  subst a. intros _. split.
  - destruct (Ascii.ascii_dec "P" "L") as [H|]; [discriminate H|reflexivity].
  - destruct (Ascii.ascii_dec "S" "L") as [H|]; [discriminate H|reflexivity].
Qed.

(** How a concatenation of two base letters can be an entry of the
    table. *)
Lemma diphthong_split (b b' : str) :
  set_mem (b ++ b') DIPHTHONGS = true ->
  (exists x y, b = [x] /\ b' = [y] /\ In x BASE_VOWELS /\ In y BASE_VOWELS)
  \/ (b = [] /\ set_mem b' DIPHTHONGS = true)
  \/ (b' = [] /\ set_mem b DIPHTHONGS = true).
Proof.
  intros Hmem.
  destruct b as [|x b].
  - right. left. split; [reflexivity | exact Hmem].
  - destruct b' as [|y b'].
    + right. right. split; [reflexivity|].
      rewrite app_nil_r in Hmem. exact Hmem.
    + left. unfold set_mem in Hmem. apply existsb_exists in Hmem.
      destruct Hmem as [d [Hd Heq]]. apply str_eqb_eq in Heq.
      destruct b as [|x' b]; simpl in Heq.
      * destruct b' as [|y' b'].
        -- exists x, y. subst d. unfold DIPHTHONGS, BASE_VOWELS in *.
           simpl in Hd.
           repeat (destruct Hd as [Hd|Hd];
                   [inversion Hd; subst; simpl; tauto|]).
           destruct Hd.
        -- exfalso. subst d. unfold DIPHTHONGS in Hd. simpl in Hd.
           repeat (destruct Hd as [Hd|Hd]; [discriminate|]). destruct Hd.
      * exfalso. subst d. unfold DIPHTHONGS in Hd. simpl in Hd.
        repeat (destruct Hd as [Hd|Hd];
                [try discriminate;
                 inversion Hd; destruct b; discriminate|]).
        destruct Hd.
Qed.

Section CharacterData.

Variable U : UnicodeData.

Hypothesis starters : starter_lowercase_not_diphthong U.
Hypothesis letters : vowel_starter_from_letter U.

Lemma base_letter_not_diphthong (c : str) :
  set_mem (base_letter U c) DIPHTHONGS = false.
Proof.
  unfold base_letter.
  destruct (find (is_base U) (normalize_NFD U c)) as [X|] eqn:Hfind;
    [|reflexivity].
  apply find_some in Hfind. destruct Hfind as [Hin Hbase].
  apply (starters c X Hin).
  apply N.eqb_eq. exact Hbase.
Qed.

Lemma vowel_base_has_letter (c : str) (x : codepoint) :
  base_letter U c = [x] ->
  In x BASE_VOWELS ->
  exists ch,
    In ch c /\ String.prefix "L" (category U ch) = true
    /\ isspace U ch = false.
Proof.
  unfold base_letter.
  destruct (find (is_base U) (normalize_NFD U c)) as [X|] eqn:Hfind;
    [|discriminate].
  apply find_some in Hfind. destruct Hfind as [Hin Hbase].
  intros Hlow Hx.
  apply (letters c X x Hin); auto.
  apply N.eqb_eq. exact Hbase.
Qed.

(** A cluster without letters, or of punctuation and space only, has no
    Greek vowel for base letter. *)
Lemma plain_cluster_base (c : str) (x : codepoint) :
  (forall ch, In ch c -> is_letter_or_number U ch = false)
  \/ is_punct_or_space_cluster U c = true ->
  base_letter U c = [x] ->
  In x BASE_VOWELS ->
  False.
Proof.
  intros Hplain Hb Hx.
  destruct (vowel_base_has_letter c x Hb Hx) as [ch [Hch [HL Hsp]]].
  destruct Hplain as [Hnone | Hpunct].
  - specialize (Hnone _ Hch). unfold is_letter_or_number in Hnone.
    rewrite HL in Hnone. discriminate.
  - unfold is_punct_or_space_cluster in Hpunct.
    rewrite forallb_forall in Hpunct. specialize (Hpunct _ Hch).
    unfold is_punct_or_space_char in Hpunct. rewrite Hsp in Hpunct.
    destruct (prefix_L_not_P_S _ HL) as [HP HS].
    rewrite HP, HS in Hpunct. discriminate.
Qed.

Lemma plain_cluster_no_diphthong (c c' : str) :
  (forall ch, In ch c -> is_letter_or_number U ch = false)
  \/ is_punct_or_space_cluster U c = true ->
  set_mem (base_letter U c ++ base_letter U c') DIPHTHONGS = false
  /\ set_mem (base_letter U c' ++ base_letter U c) DIPHTHONGS = false.
Proof.
  intros Hplain. split.
  - destruct (set_mem (base_letter U c ++ base_letter U c') DIPHTHONGS)
      eqn:Hmem; [exfalso|reflexivity].
    apply diphthong_split in Hmem.
    destruct Hmem as [[x [y [Hb [_ [Hx _]]]]] | [[_ Hd] | [_ Hd]]].
    + exact (plain_cluster_base c x Hplain Hb Hx).
    + rewrite base_letter_not_diphthong in Hd. discriminate.
    + rewrite base_letter_not_diphthong in Hd. discriminate.
  - destruct (set_mem (base_letter U c' ++ base_letter U c) DIPHTHONGS)
      eqn:Hmem; [exfalso|reflexivity].
    apply diphthong_split in Hmem.
    destruct Hmem as [[x [y [_ [Hb [_ Hy]]]]] | [[_ Hd] | [_ Hd]]].
    + exact (plain_cluster_base c y Hplain Hb Hy).
    + rewrite base_letter_not_diphthong in Hd. discriminate.
    + rewrite base_letter_not_diphthong in Hd. discriminate.
Qed.

Variable text : str.
Variable treat_iota_as_diphthong : bool.
Variable max_cluster_lookahead : Z.

Local Abbreviation t := (normalize_NFC U text).
Local Abbreviation clusters := (clusters_of U t).

(** No span of a hit grows inward. *)
Lemma no_inward_growth (h : hit) :
  In h (scan U t clusters treat_iota_as_diphthong max_cluster_lookahead) ->
  (i_index h + 1 <? j_index h)
  && diphthong_at U clusters (i_index h) (i_index h + 1) = false
  /\ (i_index h <? j_index h - 1)
     && diphthong_at U clusters (j_index h - 1) (j_index h) = false.
Proof.
  intros Hin.
  pose proof (scan_hit_spec U t clusters _ _ h Hin) as Hspec.
  destruct Hspec as [ci [cj [Hi [Hj [Hlt [Hlen _]]]]]].
  split.
  - destruct (Nat.ltb_spec (i_index h + 1) (j_index h)) as [Hgap|];
      [simpl|reflexivity].
    destruct (nth_error clusters (i_index h + 1)) as [ck|] eqn:Hk.
    + assert (Hafter : i_index h < i_index h + 1) by lia.
      pose proof (between_cluster_plain U t _ _ h _ ck Hin Hafter Hgap Hk)
        as Hplain.
      unfold diphthong_at, safe_base. rewrite Hi, Hk.
      apply (plain_cluster_no_diphthong _ (cl_text ci) Hplain).
    + apply nth_error_None in Hk. lia.
  - destruct (Nat.ltb_spec (i_index h) (j_index h - 1)) as [Hgap|];
      [simpl|reflexivity].
    destruct (nth_error clusters (j_index h - 1)) as [ck|] eqn:Hk.
    + assert (Hbefore : j_index h - 1 < j_index h) by lia.
      pose proof (between_cluster_plain U t _ _ h _ ck Hin Hgap Hbefore Hk)
        as Hplain.
      unfold diphthong_at, safe_base. rewrite Hj, Hk.
      apply (plain_cluster_no_diphthong _ (cl_text cj) Hplain).
    + apply nth_error_None in Hk. lia.
Qed.

(** The spans of a hit as grown: the left one may take in the cluster
    before it, the right one the cluster after it, and that is all. *)
Lemma grown_outward_only (h : hit) :
  In h (scan U t clusters treat_iota_as_diphthong max_cluster_lookahead) ->
  grow_spans U clusters (i_index h) (j_index h)
  = (if (1 <=? i_index h)
        && diphthong_at U clusters (i_index h - 1) (i_index h)
     then [i_index h - 1; i_index h] else [i_index h],
     if (j_index h + 1 <? List.length clusters)
        && diphthong_at U clusters (j_index h) (j_index h + 1)
     then [j_index h; j_index h + 1] else [j_index h]).
Proof.
  intros Hin. destruct (no_inward_growth h Hin) as [Hleft Hright].
  unfold grow_spans. rewrite Hleft, Hright.
  assert (Hlt : (i_index h <? j_index h + 1) = true).
  { apply Nat.ltb_lt.
    pose proof (scan_hit_spec U t clusters _ _ h Hin) as Hspec.
    destruct Hspec as [ci [cj [_ [_ [Hlt _]]]]]. lia. }
  rewrite Hlt, andb_true_r. reflexivity.
Qed.

(** The spans of a reported occurrence are final as grown. *)
Lemma occurrence_spans_outward (occ : occurrence) :
  In occ (snd (detect_hiatus_in_text U text treat_iota_as_diphthong
                 max_cluster_lookahead)) ->
  let i := i_index (found occ) in
  let j := j_index (found occ) in
  i < j
  /\ grow_spans U clusters i j = (vowel_i_indices occ, vowel_j_indices occ)
  /\ vowel_i_indices occ
     = (if (1 <=? i) && diphthong_at U clusters (i - 1) i
        then [i - 1; i] else [i])
  /\ vowel_j_indices occ
     = (if (j + 1 <? List.length clusters)
           && diphthong_at U clusters j (j + 1)
        then [j; j + 1] else [j]).
Proof.
  intros Hin i j.
  destruct (occurrence_spans U text _ _ occ Hin) as [Hlt Hspans].
  apply In_occurrences in Hin. destruct Hin as [Hin _].
  pose proof (grown_outward_only (found occ) Hin) as Hgrown.
  fold i j in Hlt, Hspans, Hgrown.
  assert (Hno : spans_overlap (fst (grow_spans U clusters i j))
                  (snd (grow_spans U clusters i j)) = false).
  { destruct (spans_overlap (fst (grow_spans U clusters i j))
                (snd (grow_spans U clusters i j))) eqn:Ho;
      [exfalso|reflexivity].
    apply spans_overlap_spec in Ho. destruct Ho as [k [Hk1 Hk2]].
    rewrite Hgrown in Hk1, Hk2. cbn [fst snd] in Hk1, Hk2.
    destruct ((1 <=? i) && diphthong_at U clusters (i - 1) i);
      destruct ((j + 1 <? List.length clusters)
                && diphthong_at U clusters j (j + 1));
      cbn [In] in Hk1, Hk2; lia. }
  unfold expand_spans, resolve_overlap in Hspans. rewrite Hno in Hspans.
  rewrite Hgrown in Hspans.
  pose proof (f_equal fst Hspans) as Hvi.
  pose proof (f_equal snd Hspans) as Hvj.
  cbn [fst snd] in Hvi, Hvj.
  split; [exact Hlt|]. split; [|split; assumption].
  rewrite Hgrown. symmetry. exact Hspans.
Qed.

End CharacterData.

(* ================================================================= *)
(** * The excerpt satisfies the two facts *)

Module GreekUCDFacts.

Import GreekUCD.

Lemma lookup_In (cp : codepoint) (rows : list (codepoint * ucd_entry))
  (e : ucd_entry) :
  lookup cp rows = Some e -> In (cp, e) rows.
Proof.
  induction rows as [|[k e'] rows IH]; simpl; [discriminate|].
  destruct (N.eqb_spec cp k) as [->|Hne].
  - intros H; inversion H; subst. left. reflexivity.
  - intros H. right. apply IH. exact H.
Qed.

Lemma rows_starters_ok :
  forallb (fun row => starters_ok (fst row)) UCD = true.
Proof. vm_compute. reflexivity. Qed.

Lemma unlisted_not_listed (ch : codepoint) (l : list codepoint) :
  entry_of ch = None ->
  forallb (fun v => match entry_of v with Some _ => true | None => false end)
          l = true ->
  existsb (N.eqb ch) l = false.
Proof.
  intros Hnone Hall.
  destruct (existsb (N.eqb ch) l) eqn:Hex; [exfalso|reflexivity].
  apply existsb_exists in Hex. destruct Hex as [v [Hv Heq]].
  apply N.eqb_eq in Heq. subst v.
  rewrite forallb_forall in Hall. specialize (Hall _ Hv).
  rewrite Hnone in Hall. discriminate.
Qed.

Lemma unlisted_not_in_table (ch : codepoint) :
  entry_of ch = None -> set_mem [ch] DIPHTHONGS = false.
Proof.
  intros Hnone.
  destruct (set_mem [ch] DIPHTHONGS) eqn:Hmem; [exfalso|reflexivity].
  unfold set_mem in Hmem. apply existsb_exists in Hmem.
  destruct Hmem as [d [Hd Heq]]. apply str_eqb_eq in Heq. subst d.
  unfold DIPHTHONGS in Hd. simpl in Hd.
  repeat (destruct Hd as [Hd|Hd];
          [try discriminate; inversion Hd; subst;
           vm_compute in Hnone; discriminate|]).
  destruct Hd.
Qed.

(** Every code point passes the test: a row of the excerpt by running the
    test on it, a code point outside the excerpt because it is its own
    decomposition and lowercase and is none of the letters concerned. *)
Lemma all_starters_ok (ch : codepoint) : starters_ok ch = true.
Proof.
  destruct (entry_of ch) as [e|] eqn:Hentry.
  - apply lookup_In in Hentry.
    pose proof rows_starters_ok as Hrows.
    rewrite forallb_forall in Hrows.
    exact (Hrows _ Hentry).
  - unfold starters_ok. cbn [decompose].
    unfold ucd_mapping_of. rewrite Hentry. cbn [forallb].
    rewrite andb_true_r. unfold starter_ok, ucd_lower. rewrite Hentry.
    rewrite (unlisted_not_in_table ch Hentry).
    unfold single_vowel.
    rewrite (unlisted_not_listed ch BASE_VOWELS Hentry)
      by (vm_compute; reflexivity).
    cbn [negb andb implb].
    destruct (ucd_combining ch =? 0)%N; reflexivity.
Qed.

Lemma In_place_mark (X c : codepoint) (rev_out : str) :
  In X (place_mark c rev_out) -> X = c \/ In X rev_out.
Proof.
  induction rev_out as [|p r IH]; simpl.
  - intros [->|[]]. left. reflexivity.
  - destruct (negb (ucd_combining c =? 0)%N
              && (ucd_combining c <? ucd_combining p)%N); simpl.
    + intros [->|Hin]; [right; left; reflexivity|].
      destruct (IH Hin) as [->|Hr]; [left; reflexivity|right; right; exact Hr].
    + intros [->|[->|Hin]]; auto.
Qed.

Lemma In_canonical_order (X : codepoint) (s : str) :
  In X (canonical_order s) -> In X s.
Proof.
  unfold canonical_order. rewrite <- in_rev.
  assert (Hgen : forall acc,
             In X (fold_left (fun acc c => place_mark c acc) s acc) ->
             In X s \/ In X acc).
  { induction s as [|c s IH]; simpl; intros acc Hin; [right; exact Hin|].
    destruct (IH _ Hin) as [Hs|Hacc]; [left; right; exact Hs|].
    destruct (In_place_mark _ _ _ Hacc) as [->|Ha]; auto. }
  intros Hin. destruct (Hgen [] Hin) as [Hs|[]]. exact Hs.
Qed.

Lemma In_ucd_NFD (X : codepoint) (s : str) :
  In X (ucd_NFD s) -> exists ch, In ch s /\ In X (decompose 4 false ch).
Proof.
  unfold ucd_NFD. intros Hin. apply In_canonical_order in Hin.
  apply in_flat_map in Hin. exact Hin.
Qed.

Lemma starter_ok_of_NFD (s : str) (X : codepoint) :
  In X (normalize_NFD greek_ucd s) ->
  exists ch, In ch s /\ starter_ok ch X = true.
Proof.
  intros Hin. apply In_ucd_NFD in Hin. destruct Hin as [ch [Hch HX]].
  exists ch. split; [exact Hch|].
  pose proof (all_starters_ok ch) as Hall. unfold starters_ok in Hall.
  rewrite forallb_forall in Hall. exact (Hall _ HX).
Qed.

Lemma greek_starter_lowercase_not_diphthong :
  starter_lowercase_not_diphthong greek_ucd.
Proof.
  intros s X Hin Hccc.
  destruct (starter_ok_of_NFD s X Hin) as [ch [_ Hok]].
  unfold starter_ok in Hok. simpl in Hccc. rewrite Hccc in Hok.
  rewrite N.eqb_refl in Hok. cbn [implb] in Hok.
  apply andb_prop in Hok. destruct Hok as [Hok _].
  change (lower greek_ucd X) with (ucd_lower X).
  destruct (set_mem (ucd_lower X) DIPHTHONGS);
    [discriminate Hok | reflexivity].
Qed.

Lemma greek_vowel_starter_from_letter :
  vowel_starter_from_letter greek_ucd.
Proof.
  intros s X x Hin Hccc Hlow Hx.
  destruct (starter_ok_of_NFD s X Hin) as [ch [Hch Hok]].
  exists ch. split; [exact Hch|].
  unfold starter_ok in Hok. simpl in Hccc, Hlow. rewrite Hccc, Hlow in Hok.
  rewrite N.eqb_refl in Hok. cbn [implb] in Hok.
  apply andb_prop in Hok. destruct Hok as [_ Hok].
  assert (Hv : single_vowel [x] = true).
  { unfold single_vowel. apply existsb_exists.
    exists x. split; [exact Hx | apply N.eqb_refl]. }
  rewrite Hv in Hok. cbn [implb] in Hok.
  apply andb_prop in Hok. destruct Hok as [HL Hsp].
  change (category greek_ucd ch) with (ucd_category ch).
  change (isspace greek_ucd ch) with (ucd_isspace ch).
  split; [exact HL|].
  destruct (ucd_isspace ch); [discriminate Hsp | reflexivity].
Qed.

End GreekUCDFacts.

(* ================================================================= *)
(** * Runs on the excerpt *)

Example kai_eidon_run :
  map summary
      (snd (detect_hiatus_in_text GreekUCD.greek_ucd Samples.kai_eidon
              false 8))
  = [(InterWord, 2, 4, [1; 2], [4; 5])].
Proof. vm_compute. reflexivity. Qed.

Example pneuma_hagion_run :
  map summary
      (snd (detect_hiatus_in_text GreekUCD.greek_ucd Samples.pneuma_hagion
              false 8))
  = [(AcrossLine, 5, 7, [5], [7]); (IntraWord, 9, 10, [9], [10])].
Proof. vm_compute. reflexivity. Qed.

(** A diaeresis on the second vowel turns the pair omicron, iota of the
    table back into a hiatus. *)
Example o_i_dialytika_run :
  map summary
      (snd (detect_hiatus_in_text GreekUCD.greek_ucd Samples.o_i_dialytika
              false 8))
  = [(IntraWord, 0, 1, [0], [1])]
  /\ contains_combining_diaeresis GreekUCD.greek_ucd [0x3CA%N] = true.
Proof. split; vm_compute; reflexivity. Qed.

Example nfc_composes :
  normalize_NFC GreekUCD.greek_ucd Samples.a_psili_iota_decomposed
  = Samples.a_psili_iota
  /\ normalize_NFD GreekUCD.greek_ucd Samples.a_psili_iota
     = Samples.a_psili_iota_decomposed.
Proof. split; vm_compute; reflexivity. Qed.

Example theou_annotated :
  fst (detect_hiatus_in_text GreekUCD.greek_ucd Samples.theou false 8)
  = let open_span :=
      lit "<span class=" ++ DQUOTE ++ lit "hiatus-intra" ++ DQUOTE
        ++ lit " title=" ++ DQUOTE ++ lit "intra-word hiatus" ++ DQUOTE
        ++ lit ">" in
    [0x3B8%N]
      ++ open_span ++ [0x3B5%N] ++ lit "</span>"
      ++ open_span ++ [0x3BF%N] ++ lit "</span>"
      ++ open_span ++ [0x1FE6%N] ++ lit "</span>".
Proof. vm_compute. reflexivity. Qed.

(* ================================================================= *)
(** * The expander on an arbitrary pair of indices

    What lines 206 to 228 compute for any pair [i_idx < j_idx], whether or
    not the scanner can produce it. *)


(** The left span holds at most two indices, the right span at most
    three: the growth to the right appends to the list already grown to
    the left. *)
Lemma expander_span_sizes (U : UnicodeData) (clusters : list cluster)
  (i_idx j_idx : nat) :
  i_idx < j_idx ->
  let final := expand_spans U clusters i_idx j_idx in
  List.length (fst final) <= 2
  /\ List.length (snd final) <= 3
  /\ In i_idx (fst final)
  /\ In j_idx (snd final)
  /\ (List.length (snd final) = 3 <->
      (i_idx <? j_idx - 1) && diphthong_at U clusters (j_idx - 1) j_idx
      && ((j_idx + 1 <? List.length clusters)
          && diphthong_at U clusters j_idx (j_idx + 1)) = true).
Proof.
  intros Hlt final.
  pose proof (expand_spans_right U clusters i_idx j_idx Hlt) as Hr.
  pose proof (expand_spans_left U clusters i_idx j_idx) as Hl.
  fold final in Hr, Hl.
  destruct (grow_spans_shape U clusters i_idx j_idx) as [Hgl [Hgr _]].
  assert (Hleft : In (fst final) [[i_idx]; [i_idx; i_idx + 1];
                                  [i_idx - 1; i_idx]]).
  { rewrite Hl.
    destruct (spans_overlap (fst (grow_spans U clusters i_idx j_idx))
                (snd (grow_spans U clusters i_idx j_idx)));
      [left; reflexivity | exact Hgl]. }
  rewrite Hr. clear Hl Hr Hgl.
  repeat split.
  - cbn [In] in Hleft. destruct Hleft as [<-|[<-|[<-|[]]]]; simpl; lia.
  - cbn [In] in Hgr. destruct Hgr as [<-|[<-|[<-|[<-|[]]]]]; simpl; lia.
  - cbn [In] in Hleft. destruct Hleft as [<-|[<-|[<-|[]]]]; simpl; auto.
  - cbn [In] in Hgr. destruct Hgr as [<-|[<-|[<-|[<-|[]]]]]; simpl; auto.
  - clear Hleft Hgr. unfold grow_spans. split_tests; simpl;
      intros; try discriminate; try lia; reflexivity.
  - clear Hleft Hgr. unfold grow_spans. split_tests; simpl;
      intros; try discriminate; try lia; reflexivity.
Qed.

(** Both cases exist for the expander alone.  Over the clusters alpha,
    upsilon, iota and the indices 0 and 2 the grown spans [0; 1] and
    [1; 2] share index 1 and come out as [0] and [1; 2].  Over eta,
    omicron, upsilon, iota and the indices 0 and 2 the right span comes
    out as [1; 2; 3].  No run reaches either: the scanner stops at the
    vowel in between (see [occurrence_spans_outward]). *)
Example expander_alone_overlap :
  let clusters :=
    clusters_of GreekUCD.greek_ucd
      (normalize_NFC GreekUCD.greek_ucd Samples.alpha_upsilon_iota) in
  grow_spans GreekUCD.greek_ucd clusters 0 2 = ([0; 1], [1; 2])
  /\ expand_spans GreekUCD.greek_ucd clusters 0 2 = ([0], [1; 2])
  /\ snd (detect_hiatus_in_text GreekUCD.greek_ucd
            Samples.alpha_upsilon_iota false 8) = [].
Proof. repeat split; vm_compute; reflexivity. Qed.

Example expander_alone_three :
  let clusters :=
    clusters_of GreekUCD.greek_ucd
      (normalize_NFC GreekUCD.greek_ucd Samples.eta_omicron_upsilon_iota) in
  expand_spans GreekUCD.greek_ucd clusters 0 2 = ([0], [1; 2; 3])
  /\ map (fun occ => (i_index (found occ), j_index (found occ),
                      vowel_i_indices occ, vowel_j_indices occ))
         (snd (detect_hiatus_in_text GreekUCD.greek_ucd
                 Samples.eta_omicron_upsilon_iota false 8))
     = [(0, 1, [0], [1; 2])].
Proof. repeat split; vm_compute; reflexivity. Qed.

(* ================================================================= *)
(** * The claims of the specification *)

(** C1, as the code has it.  An intra-word vowel pair (nothing between
    the two clusters) whose first cluster carries a smooth or rough
    breathing is always recorded when the lookahead is at least one
    cluster: the breathing clears the diphthong flag last, so the scanner
    appends an intra-word occurrence for the pair and then stops scanning
    from that start cluster. *)
Theorem breathing_pair_is_recorded (U : UnicodeData) (text : str)
  (treat_iota_as_diphthong : bool) (max_cluster_lookahead : Z)
  (i j : nat) (ci cj : cluster) :
  let t := normalize_NFC U text in
  let clusters := clusters_of U t in
  (1 <= max_cluster_lookahead)%Z ->
  i < j ->
  nth_error clusters i = Some ci ->
  nth_error clusters j = Some cj ->
  is_vowel_cluster U (cl_text ci) = true ->
  is_vowel_cluster U (cl_text cj) = true ->
  slice t (cl_end ci) (cl_start cj) = [] ->
  contains_breathing U (cl_text ci) = true ->
  let h := make_hit t IntraWord i ci j cj in
  scan_start U t clusters treat_iota_as_diphthong max_cluster_lookahead i ci
  = Recorded h
  /\ In (expand U clusters h)
        (snd (detect_hiatus_in_text U text treat_iota_as_diphthong
                max_cluster_lookahead)).
Proof.
  cbv zeta. intros HK Hlt Hi Hj Hvi Hvj Hnil Hb.
  assert (Hadj : j = i + 1)
    by (apply (empty_between_adjacent U text i j ci cj); assumption).
  subst j.
  pose proof (scan_start_adjacent U text treat_iota_as_diphthong
                max_cluster_lookahead i ci cj HK Hi Hj Hvi Hvj) as Hrec.
  rewrite decision_breathing in Hrec by exact Hb.
  split; [exact Hrec|].
  exact (recorded_in_occurrences U text treat_iota_as_diphthong
           max_cluster_lookahead i ci _ Hi Hrec).
Qed.

Lemma breathing_pair_is_recorded_witness :
  let ci := mkCluster [0x1F00%N] 0 1 0 in
  let cj := mkCluster [0x3B9%N] 1 2 0 in
  contains_breathing GreekUCD.greek_ucd (cl_text ci) = true
  /\ In (expand GreekUCD.greek_ucd
           (clusters_of GreekUCD.greek_ucd
              (normalize_NFC GreekUCD.greek_ucd Samples.a_psili_iota))
           (make_hit (normalize_NFC GreekUCD.greek_ucd Samples.a_psili_iota)
              IntraWord 0 ci 1 cj))
        (snd (detect_hiatus_in_text GreekUCD.greek_ucd Samples.a_psili_iota
                false 8)).
Proof.
  intros ci cj.
  assert (Hb : contains_breathing GreekUCD.greek_ucd (cl_text ci) = true)
    by (vm_compute; reflexivity).
  split; [exact Hb|].
  refine (proj2 (breathing_pair_is_recorded GreekUCD.greek_ucd
                   Samples.a_psili_iota false 8 0 1 ci cj
                   _ _ _ _ _ _ _ Hb)).
  - lia.
  - lia.
  - vm_compute; reflexivity.
  - vm_compute; reflexivity.
  - vm_compute; reflexivity.
  - vm_compute; reflexivity.
  - vm_compute; reflexivity.
Defined.

(** C1 as the specification words it fails: on alpha with psili followed
    by iota the detector reports an intra-word occurrence for the pair,
    although nothing lies between the two clusters and the first one
    carries a breathing. *)
Lemma breathing_pair_recorded_on_a_psili_iota :
  exists occ,
    snd (detect_hiatus_in_text GreekUCD.greek_ucd Samples.a_psili_iota
           false 8) = [occ]
    /\ kind (found occ) = IntraWord
    /\ i_index (found occ) = 0
    /\ j_index (found occ) = 1
    /\ intervening (found occ) = []
    /\ contains_breathing GreekUCD.greek_ucd (cluster_i_text (found occ))
       = true.
Proof.
  eexists. split; [vm_compute; reflexivity|].
  repeat split; vm_compute; reflexivity.
Qed.

(** C2, as the code has it.  On the single line theta, epsilon, omicron,
    upsilon with perispomeni, with the default configuration, detection
    returns exactly one occurrence: the intra-word hiatus of epsilon
    (cluster 1) and omicron (cluster 2), whose right span is widened to
    the diphthong omicron, upsilon.  The pair omicron, upsilon itself
    yields none. *)
Theorem theou_one_occurrence :
  snd (detect_hiatus_in_text GreekUCD.greek_ucd Samples.theou false 8)
  = [ {| found :=
           {| kind := IntraWord;
              start_pos := 1;
              end_pos := 3;
              snippet := [0x3B5; 0x3BF]%N;
              cluster_i_text := [0x3B5]%N;
              cluster_j_text := [0x3BF]%N;
              line_i := 1;
              line_j := 1;
              i_index := 1;
              j_index := 2;
              intervening := [] |};
         vowel_i_indices := [1];
         vowel_j_indices := [2; 3];
         vowel_i_text := [0x3B5]%N;
         vowel_j_text := [0x3BF; 0x1FE6]%N |} ].
Proof. vm_compute. reflexivity. Qed.

(** C2 as the specification words it fails: the occurrence list of that
    line is not empty. *)
Lemma theou_occurrences_not_empty :
  snd (detect_hiatus_in_text GreekUCD.greek_ucd Samples.theou false 8)
  <> [].
Proof. vm_compute. discriminate. Qed.




(** C4.  Given the two facts of the character database, each side of
    every occurrence of a run holds at most two cluster indices: the left
    span is the boundary cluster [i_index], alone or with the cluster
    before it; the right span is the boundary cluster [j_index], alone or
    with the cluster after it. *)
Theorem span_sizes (U : UnicodeData) (text : str)
  (treat_iota_as_diphthong : bool) (max_cluster_lookahead : Z)
  (occ : occurrence) :
  starter_lowercase_not_diphthong U ->
  vowel_starter_from_letter U ->
  In occ (snd (detect_hiatus_in_text U text treat_iota_as_diphthong
                 max_cluster_lookahead)) ->
  let i := i_index (found occ) in
  let j := j_index (found occ) in
  List.length (vowel_i_indices occ) <= 2
  /\ List.length (vowel_j_indices occ) <= 2
  /\ (vowel_i_indices occ = [i] \/ vowel_i_indices occ = [i - 1; i])
  /\ (vowel_j_indices occ = [j] \/ vowel_j_indices occ = [j; j + 1]).
Proof.
  intros Hstarters Hletters Hin i j.
  destruct (occurrence_spans_outward U Hstarters Hletters text
              treat_iota_as_diphthong max_cluster_lookahead occ Hin)
    as [_ [_ [Hvi Hvj]]].
  fold i j in Hvi, Hvj.
  rewrite Hvi, Hvj.
  destruct ((1 <=? i)
            && diphthong_at U (clusters_of U (normalize_NFC U text))
                 (i - 1) i);
    destruct ((j + 1 <? List.length (clusters_of U (normalize_NFC U text)))
              && diphthong_at U (clusters_of U (normalize_NFC U text))
                   j (j + 1));
    simpl; auto.
Qed.

Lemma span_sizes_witness :
  exists occ,
    In occ (snd (detect_hiatus_in_text GreekUCD.greek_ucd Samples.kai_eidon
                   false 8))
    /\ i_index (found occ) = 2 /\ j_index (found occ) = 4
    /\ List.length (vowel_i_indices occ) <= 2
    /\ List.length (vowel_j_indices occ) <= 2.
Proof.
  assert (Hin : In (nth 0 (snd (detect_hiatus_in_text GreekUCD.greek_ucd
                                  Samples.kai_eidon false 8))
                        (mkOccurrence (mkHit IntraWord 0 0 [] [] [] 0 0 0 0 [])
                                      [] [] [] []))
                   (snd (detect_hiatus_in_text GreekUCD.greek_ucd
                           Samples.kai_eidon false 8)))
    by (vm_compute; left; reflexivity).
  pose proof (span_sizes GreekUCD.greek_ucd Samples.kai_eidon false 8 _
                GreekUCDFacts.greek_starter_lowercase_not_diphthong
                GreekUCDFacts.greek_vowel_starter_from_letter Hin) as H.
  eexists. split; [exact Hin|].
  split; [vm_compute; reflexivity|]. split; [vm_compute; reflexivity|].
  split; [exact (proj1 H) | exact (proj1 (proj2 H))].
Defined.

(** C5, as the code has it.  For an intra-word pair whose base letters
    form an entry of the diphthong table (the eight two-letter entries
    among them): no occurrence is recorded for the start cluster when the
    second cluster has no diaeresis and the first has no breathing; an
    occurrence is recorded when the second cluster carries a diaeresis
    or the first carries a breathing. *)
Theorem diphthong_pair_suppression (U : UnicodeData) (text : str)
  (treat_iota_as_diphthong : bool) (max_cluster_lookahead : Z)
  (i j : nat) (ci cj : cluster) :
  let t := normalize_NFC U text in
  let clusters := clusters_of U t in
  let occurrences :=
    snd (detect_hiatus_in_text U text treat_iota_as_diphthong
           max_cluster_lookahead) in
  (1 <= max_cluster_lookahead)%Z ->
  i < j ->
  nth_error clusters i = Some ci ->
  nth_error clusters j = Some cj ->
  is_vowel_cluster U (cl_text ci) = true ->
  is_vowel_cluster U (cl_text cj) = true ->
  slice t (cl_end ci) (cl_start cj) = [] ->
  set_mem (base_letter U (cl_text ci) ++ base_letter U (cl_text cj))
          DIPHTHONGS = true ->
  (contains_combining_diaeresis U (cl_text cj) = false ->
   contains_breathing U (cl_text ci) = false ->
   forall occ, In occ occurrences -> i_index (found occ) <> i)
  /\ (contains_combining_diaeresis U (cl_text cj) = true
      \/ contains_breathing U (cl_text ci) = true ->
      In (expand U clusters (make_hit t IntraWord i ci j cj)) occurrences).
Proof.
  cbv zeta. intros HK Hlt Hi Hj Hvi Hvj Hnil Hpair.
  assert (Hadj : j = i + 1)
    by (apply (empty_between_adjacent U text i j ci cj); assumption).
  subst j.
  pose proof (scan_start_adjacent U text treat_iota_as_diphthong
                max_cluster_lookahead i ci cj HK Hi Hj Hvi Hvj) as Hscan.
  split.
  - intros Hd Hb.
    apply (not_recorded_no_occurrence U text treat_iota_as_diphthong
             max_cluster_lookahead i ci Hi).
    intros h. rewrite Hscan.
    rewrite decision_diphthong by assumption. discriminate.
  - intros Hor.
    apply (recorded_in_occurrences U text treat_iota_as_diphthong
             max_cluster_lookahead i ci _ Hi).
    rewrite Hscan.
    destruct Hor as [Hd|Hb].
    + rewrite decision_diaeresis by exact Hd. reflexivity.
    + rewrite decision_breathing by exact Hb. reflexivity.
Qed.

Lemma diphthong_pair_suppression_witness :
  let ci := mkCluster [0x3BF%N] 2 3 0 in
  let cj := mkCluster [0x1FE6%N] 3 4 0 in
  set_mem (base_letter GreekUCD.greek_ucd (cl_text ci)
           ++ base_letter GreekUCD.greek_ucd (cl_text cj)) DIPHTHONGS = true
  /\ forall occ,
       In occ (snd (detect_hiatus_in_text GreekUCD.greek_ucd Samples.theou
                      false 8)) ->
       i_index (found occ) <> 2.
Proof.
  intros ci cj.
  assert (Hpair : set_mem (base_letter GreekUCD.greek_ucd (cl_text ci)
                           ++ base_letter GreekUCD.greek_ucd (cl_text cj))
                          DIPHTHONGS = true)
    by (vm_compute; reflexivity).
  split; [exact Hpair|].
  refine (proj1 (diphthong_pair_suppression GreekUCD.greek_ucd
                   Samples.theou false 8 2 3 ci cj
                   _ _ _ _ _ _ _ Hpair) _ _).
  - lia.
  - lia.
  - vm_compute; reflexivity.
  - vm_compute; reflexivity.
  - vm_compute; reflexivity.
  - vm_compute; reflexivity.
  - vm_compute; reflexivity.
  - vm_compute; reflexivity.
  - vm_compute; reflexivity.
Defined.

(** C5 as the specification words it fails: epsilon with psili followed by
    upsilon has the base letters epsilon, upsilon of the table and no
    diaeresis on the second cluster, and yet an occurrence is recorded
    for the pair. *)
Lemma diphthong_pair_recorded_on_e_psili_upsilon :
  exists occ,
    snd (detect_hiatus_in_text GreekUCD.greek_ucd Samples.e_psili_upsilon
           false 8) = [occ]
    /\ kind (found occ) = IntraWord
    /\ i_index (found occ) = 0
    /\ j_index (found occ) = 1
    /\ intervening (found occ) = []
    /\ base_letter GreekUCD.greek_ucd (cluster_i_text (found occ))
       ++ base_letter GreekUCD.greek_ucd (cluster_j_text (found occ))
       = [0x3B5; 0x3C5]%N
    /\ contains_combining_diaeresis GreekUCD.greek_ucd
         (cluster_j_text (found occ)) = false.
Proof.
  eexists. split; [vm_compute; reflexivity|].
  repeat split; vm_compute; reflexivity.
Qed.

(** C6.  Whatever the text and the configuration, a start cluster index
    [i] contributes at most one occurrence to the result.  Scanning from
    [i] stops at the first pairing in the lookahead range that has a kind,
    the values of [j] before it being no vowel or without a kind: that
    pairing alone decides between stopping without a record (diphthong)
    and recording the hiatus. *)
Theorem one_occurrence_per_start (U : UnicodeData) (text : str)
  (treat_iota_as_diphthong : bool) (max_cluster_lookahead : Z) (i : nat) :
  let t := normalize_NFC U text in
  let clusters := clusters_of U t in
  List.length
    (filter (fun occ => Nat.eqb i (i_index (found occ)))
            (snd (detect_hiatus_in_text U text treat_iota_as_diphthong
                    max_cluster_lookahead)))
  <= 1
  /\ forall (ci cj : cluster) (j : nat) (k : hiatus_kind),
       nth_error clusters i = Some ci ->
       is_vowel_cluster U (cl_text ci) = true ->
       In j (lookahead_range i max_cluster_lookahead
               (List.length clusters)) ->
       nth_error clusters j = Some cj ->
       is_vowel_cluster U (cl_text cj) = true ->
       classify_kind U t clusters i ci j cj = Some k ->
       (forall j' cj',
          i < j' -> j' < j -> nth_error clusters j' = Some cj' ->
          is_vowel_cluster U (cl_text cj') = false
          \/ classify_kind U t clusters i ci j' cj' = None) ->
       scan_start U t clusters treat_iota_as_diphthong
         max_cluster_lookahead i ci
       = if diphthong_decision U treat_iota_as_diphthong k ci cj
         then DiphthongStop
         else Recorded (make_hit t k i ci j cj).
Proof.
  cbv zeta. split.
  - pose proof (scan_sorted U (normalize_NFC U text)
                  (clusters_of U (normalize_NFC U text))
                  treat_iota_as_diphthong max_cluster_lookahead) as Hsorted.
    rewrite <- occurrence_indices in Hsorted.
    apply (sorted_filter_eq_le_1 _ i) in Hsorted.
    rewrite filter_map_comm, length_map in Hsorted. exact Hsorted.
  - intros ci cj j k _ Hvi Hin Hj Hvj Hk Hskip.
    apply scan_start_first; assumption.
Qed.

(** C7.  Every reported occurrence has [i_index < j_index], and both are
    indices into the cluster sequence the segmenter makes of the
    normalized text. *)
Theorem occurrence_indices_valid (U : UnicodeData) (text : str)
  (treat_iota_as_diphthong : bool) (max_cluster_lookahead : Z)
  (occ : occurrence) :
  In occ (snd (detect_hiatus_in_text U text treat_iota_as_diphthong
                 max_cluster_lookahead)) ->
  let n := List.length (grapheme_clusters U (normalize_NFC U text)) in
  i_index (found occ) < j_index (found occ)
  /\ i_index (found occ) < n
  /\ j_index (found occ) < n.
Proof.
  intros Hin n. apply In_occurrences in Hin. destruct Hin as [Hin _].
  apply scan_hit_spec in Hin.
  destruct Hin as [ci [cj [_ [_ [Hlt [Hlen _]]]]]].
  rewrite clusters_length in Hlen. unfold n. lia.
Qed.

Lemma occurrence_indices_valid_witness :
  exists occ,
    In occ (snd (detect_hiatus_in_text GreekUCD.greek_ucd Samples.kai_eidon
                   false 8))
    /\ i_index (found occ) = 2 /\ j_index (found occ) = 4
    /\ i_index (found occ) < j_index (found occ)
    /\ i_index (found occ) < 9
    /\ j_index (found occ) < 9.
Proof.
  assert (Hin : In (nth 0 (snd (detect_hiatus_in_text GreekUCD.greek_ucd
                                  Samples.kai_eidon false 8))
                        (mkOccurrence (mkHit IntraWord 0 0 [] [] [] 0 0 0 0 [])
                                      [] [] [] []))
                   (snd (detect_hiatus_in_text GreekUCD.greek_ucd
                           Samples.kai_eidon false 8)))
    by (vm_compute; left; reflexivity).
  eexists. split; [exact Hin|].
  split; [vm_compute; reflexivity|]. split; [vm_compute; reflexivity|].
  exact (occurrence_indices_valid GreekUCD.greek_ucd Samples.kai_eidon
           false 8 _ Hin).
Defined.

(** C8.  For a lookahead bound [K >= 1], every reported occurrence has
    [j_index - i_index <= K]; in particular fewer than [K] clusters lie
    strictly between the two, so a pair with more than [K] clusters in
    between is never reported. *)
Theorem lookahead_bound (U : UnicodeData) (text : str)
  (treat_iota_as_diphthong : bool) (K : Z) (occ : occurrence) :
  (1 <= K)%Z ->
  In occ (snd (detect_hiatus_in_text U text treat_iota_as_diphthong K)) ->
  (Z.of_nat (j_index (found occ)) - Z.of_nat (i_index (found occ)) <= K)%Z
  /\ (Z.of_nat (j_index (found occ) - i_index (found occ) - 1) < K)%Z.
Proof.
  intros HK Hin. apply In_occurrences in Hin. destruct Hin as [Hin _].
  apply scan_hit_spec in Hin.
  destruct Hin as [ci [cj [_ [_ [Hlt [_ [Hbound _]]]]]]].
  lia.
Qed.

Lemma lookahead_bound_witness :
  exists occ,
    (1 <= 2)%Z
    /\ In occ (snd (detect_hiatus_in_text GreekUCD.greek_ucd
                      Samples.kai_eidon false 2))
    /\ (Z.of_nat (j_index (found occ)) - Z.of_nat (i_index (found occ))
        <= 2)%Z
    /\ (Z.of_nat (j_index (found occ) - i_index (found occ) - 1) < 2)%Z.
Proof.
  assert (Hin : In (nth 0 (snd (detect_hiatus_in_text GreekUCD.greek_ucd
                                  Samples.kai_eidon false 2))
                        (mkOccurrence (mkHit IntraWord 0 0 [] [] [] 0 0 0 0 [])
                                      [] [] [] []))
                   (snd (detect_hiatus_in_text GreekUCD.greek_ucd
                           Samples.kai_eidon false 2)))
    by (vm_compute; left; reflexivity).
  assert (HK : (1 <= 2)%Z) by lia.
  eexists. split; [exact HK|]. split; [exact Hin|].
  exact (lookahead_bound GreekUCD.greek_ucd Samples.kai_eidon false 2 _
           HK Hin).
Defined.

(** C9.  Detection is invariant under prior NFC normalization: the
    detector normalizes first, so on a text whose normal form is stable
    under a second normalization (NFC is idempotent) the annotated text
    and the occurrence list, field by field, are those of the text
    itself. *)
Theorem detection_invariant_under_nfc (U : UnicodeData) (text : str)
  (treat_iota_as_diphthong : bool) (max_cluster_lookahead : Z) :
  normalize_NFC U (normalize_NFC U text) = normalize_NFC U text ->
  detect_hiatus_in_text U (normalize_NFC U text) treat_iota_as_diphthong
    max_cluster_lookahead
  = detect_hiatus_in_text U text treat_iota_as_diphthong
      max_cluster_lookahead.
Proof.
  intros Hidem. unfold detect_hiatus_in_text. rewrite Hidem. reflexivity.
Qed.

Lemma detection_invariant_under_nfc_witness :
  GreekUCD.ucd_NFC Samples.a_psili_iota_decomposed = Samples.a_psili_iota
  /\ GreekUCD.ucd_NFC (GreekUCD.ucd_NFC Samples.a_psili_iota_decomposed)
     = GreekUCD.ucd_NFC Samples.a_psili_iota_decomposed
  /\ detect_hiatus_in_text GreekUCD.greek_ucd
       (GreekUCD.ucd_NFC Samples.a_psili_iota_decomposed) false 8
     = detect_hiatus_in_text GreekUCD.greek_ucd
         Samples.a_psili_iota_decomposed false 8.
Proof.
  assert (Hidem : normalize_NFC GreekUCD.greek_ucd
                    (normalize_NFC GreekUCD.greek_ucd
                       Samples.a_psili_iota_decomposed)
                  = normalize_NFC GreekUCD.greek_ucd
                      Samples.a_psili_iota_decomposed)
    by (vm_compute; reflexivity).
  split; [vm_compute; reflexivity|]. split; [exact Hidem|].
  exact (detection_invariant_under_nfc GreekUCD.greek_ucd
           Samples.a_psili_iota_decomposed false 8 Hidem).
Defined.

(** C10.  The occurrence list is sorted by strictly increasing [i_index],
    and hence by strictly increasing [start_pos]. *)
Theorem occurrences_in_document_order (U : UnicodeData) (text : str)
  (treat_iota_as_diphthong : bool) (max_cluster_lookahead : Z) :
  let occurrences :=
    snd (detect_hiatus_in_text U text treat_iota_as_diphthong
           max_cluster_lookahead) in
  StronglySorted lt (map (fun occ => i_index (found occ)) occurrences)
  /\ StronglySorted lt (map (fun occ => start_pos (found occ)) occurrences).
Proof.
  intros occurrences.
  assert (Hidx : StronglySorted lt
                   (map (fun occ => i_index (found occ)) occurrences)).
  { unfold occurrences. rewrite occurrence_indices. apply scan_sorted. }
  split; [exact Hidx|].
  revert Hidx. apply sorted_map_monotone.
  intros x y Hx Hy Hlt.
  apply In_occurrences in Hx, Hy.
  destruct Hx as [Hx _]. destruct Hy as [Hy _].
  apply scan_hit_spec in Hx, Hy.
  destruct Hx as [ci [cj [Hi [_ [_ [_ [_ [_ [_ [_ [_ Hx]]]]]]]]]]].
  destruct Hy as [ci' [cj' [Hi' [_ [_ [_ [_ [_ [_ [_ [_ Hy]]]]]]]]]]].
  rewrite Hx, Hy. simpl.
  eapply cluster_start_increasing; eauto.
Qed.

(* ================================================================= *)
(** * Further properties: the grapheme segmenter *)

Lemma last_cons_default {A : Type} (x d : A) (l : list A) :
  last (x :: l) d = last l x.
Proof.
  revert x d. induction l as [|y l IH]; intros x d; [reflexivity|].
  change (last (x :: y :: l) d) with (last (y :: l) d).
  rewrite (IH y d), (IH y x). reflexivity.
Qed.

Lemma slice_cons {A : Type} (s : list A) (i b : nat) (c : A) :
  nth_error s i = Some c -> i < b ->
  slice s i b = c :: slice s (i + 1) b.
Proof.
  intros Hnth Hlt. unfold slice.
  assert (Hskip : skipn i s = c :: skipn (i + 1) s).
  { clear Hlt. revert s Hnth. induction i as [|i IH]; intros s Hnth.
    - destruct s as [|x s]; simpl in *; [discriminate|]. congruence.
    - destruct s as [|x s]; simpl in *; [discriminate|]. apply IH. exact Hnth. }
  rewrite Hskip. replace (b - i) with (S (b - (i + 1))) by lia. reflexivity.
Qed.

Lemma In_skipn_In {A : Type} (x : A) (n : nat) (l : list A) :
  In x (skipn n l) -> In x l.
Proof.
  intros Hin. rewrite <- (firstn_skipn n l). apply in_or_app. right.
  exact Hin.
Qed.

Section SegmenterProperties.

Variable U : UnicodeData.

Lemma combining_run_spec (rest : str) :
  Forall (fun m => combining U m <> 0%N)
         (firstn (combining_run U rest) rest)
  /\ (forall c, nth_error rest (combining_run U rest) = Some c ->
                combining U c = 0%N).
Proof.
  induction rest as [|x rest [IHmarks IHnext]]; simpl.
  - split; [constructor|]. intros c H. discriminate.
  - destruct (N.eqb_spec (combining U x) 0) as [Hz|Hnz]; simpl.
    + split; [constructor|]. intros c H. inversion H; subst. exact Hz.
    + split; [constructor; assumption | exact IHnext].
Qed.

(** What every turn of the loop appends: a code point and the combining
    marks that follow it; and where the next turn starts there is no
    combining mark. *)
Lemma loop_shape (s : str) :
  forall turns i,
    (i = 0 \/ forall c, nth_error s i = Some c -> combining U c = 0%N) ->
    Forall (fun g =>
              exists c marks,
                g_text g = c :: marks
                /\ Forall (fun m => combining U m <> 0%N) marks
                /\ (g_start g = 0 \/ combining U c = 0%N))
           (grapheme_clusters_loop U turns s i).
Proof.
  induction turns as [|turns IH]; intros i Hstart; simpl; [constructor|].
  destruct (Nat.ltb_spec i (List.length s)) as [Hlt|Hge]; [|constructor].
  destruct (nth_error s i) as [c|] eqn:Hc;
    [|apply nth_error_None in Hc; lia].
  destruct (combining_run_spec (skipn (i + 1) s)) as [Hmarks Hnext].
  constructor.
  - exists c, (firstn (combining_run U (skipn (i + 1) s)) (skipn (i + 1) s)).
    simpl. split.
    + rewrite (slice_cons s i _ c Hc) by lia. f_equal.
      unfold slice. f_equal. lia.
    + split; [exact Hmarks|].
      destruct Hstart as [->|Hbase]; [left; reflexivity|right; auto].
  - apply IH. right. intros c' Hc'.
    apply Hnext. rewrite nth_error_skipn_shift. exact Hc'.
Qed.

Lemma loop_last_end (s : str) :
  forall turns i,
    List.length s <= i + turns -> i <= List.length s ->
    last (map g_end (grapheme_clusters_loop U turns s i)) i = List.length s.
Proof.
  induction turns as [|turns IH]; intros i Hfuel Hle; [simpl; lia|].
  cbn [grapheme_clusters_loop].
  destruct (Nat.ltb_spec i (List.length s)) as [Hlt|Hge]; [|simpl; lia].
  cbn [map]. rewrite last_cons_default. cbn [g_end]. apply IH; [lia|].
  pose proof (combining_run_le U (skipn (i + 1) s)) as Hrun.
  rewrite length_skipn in Hrun. lia.
Qed.

Lemma loop_length_le (s : str) :
  forall turns i,
    List.length (grapheme_clusters_loop U turns s i) <= List.length s - i.
Proof.
  induction turns as [|turns IH]; intros i; simpl; [lia|].
  destruct (Nat.ltb_spec i (List.length s)) as [Hlt|Hge]; simpl; [|lia].
  specialize (IH (i + 1 + combining_run U (skipn (i + 1) s))). lia.
Qed.

Lemma loop_plain (s : str) :
  Forall (fun c => combining U c = 0%N) s ->
  forall turns i,
    List.length s <= i + turns ->
    map g_text (grapheme_clusters_loop U turns s i)
    = map (fun c => [c]) (skipn i s).
Proof.
  intros Hplain. rewrite Forall_forall in Hplain.
  induction turns as [|turns IH]; intros i Hfuel; simpl.
  - rewrite skipn_all2 by lia. reflexivity.
  - destruct (Nat.ltb_spec i (List.length s)) as [Hlt|Hge];
      [|rewrite skipn_all2 by lia; reflexivity].
    destruct (nth_error s i) as [c|] eqn:Hc;
      [|apply nth_error_None in Hc; lia].
    assert (Hrun : combining_run U (skipn (i + 1) s) = 0).
    { destruct (skipn (i + 1) s) as [|x rest] eqn:Hrest; [reflexivity|].
      simpl. assert (Hx : In x s).
      { apply (In_skipn_In x (i + 1)). rewrite Hrest. left; reflexivity. }
      rewrite (Hplain _ Hx). reflexivity. }
    rewrite Hrun, Nat.add_0_r. simpl.
    rewrite IH by lia.
    rewrite (slice_cons s i _ c Hc) by lia.
    rewrite (slice_empty s (i + 1) (i + 1)) by lia.
    assert (Hskip : skipn i s = c :: skipn (i + 1) s).
    { pose proof (slice_app_skipn s i (i + 1)) as Happ.
      rewrite (slice_cons s i _ c Hc), (slice_empty s (i + 1) (i + 1)) in Happ
        by lia.
      symmetry. apply Happ. lia. }
    rewrite Hskip. reflexivity.
Qed.

(** X1.  The texts of the clusters, joined in order, give back the string
    that was segmented: nothing is lost, repeated or reordered. *)
Theorem segmentation_covers_text (s : str) :
  List.concat (map g_text (grapheme_clusters U s)) = s.
Proof. apply grapheme_clusters_cover. Qed.

(** X2.  The offsets of the clusters cut [0, len(s)) into consecutive
    non-empty pieces: the first cluster starts at 0, each cluster starts
    where the one before it ends, the last ends at [len(s)], and every
    cluster's text is the slice between its two offsets. *)
Theorem segmentation_offsets (s : str) :
  let clusters := grapheme_clusters U s in
  (forall k g,
      nth_error clusters k = Some g ->
      g_start g < g_end g /\ g_end g <= List.length s
      /\ g_text g = slice s (g_start g) (g_end g))
  /\ (forall g, nth_error clusters 0 = Some g -> g_start g = 0)
  /\ (forall k g g',
         nth_error clusters k = Some g ->
         nth_error clusters (S k) = Some g' ->
         g_start g' = g_end g)
  /\ last (map g_end clusters) 0 = List.length s.
Proof.
  intros clusters. unfold clusters, grapheme_clusters.
  pose proof (loop_chained U s (List.length s) 0) as Hch.
  split; [|split; [|split]].
  - intros k g Hk.
    assert (Hspan : nth_error
                      (map g_span (grapheme_clusters_loop U (List.length s) s 0))
                      k = Some (g_start g, g_end g))
      by (rewrite nth_error_map, Hk; reflexivity).
    destruct (chained_nth _ _ _ _ _ Hch Hspan) as [_ Hlt].
    pose proof (loop_texts U s (List.length s) 0) as Hall.
    rewrite Forall_forall in Hall.
    destruct (Hall g (nth_error_In _ _ Hk)) as [Htxt Hend]. auto.
  - intros g Hg.
    destruct (grapheme_clusters_loop U (List.length s) s 0) as [|g0 rest];
      [discriminate|].
    simpl in Hg. inversion Hg; subst. simpl in Hch. tauto.
  - intros k g g' Hk Hk'.
    apply (chained_next _ 0 k (g_start g) (g_end g) (g_start g') (g_end g')
             Hch).
    + rewrite nth_error_map, Hk. reflexivity.
    + rewrite nth_error_map, Hk'. reflexivity.
  - apply loop_last_end; lia.
Qed.

(** X3.  A cluster is one code point followed by combining marks only, and
    every cluster but the first begins with a code point that is no
    combining mark: a combining mark never starts a cluster unless it
    starts the string. *)
Theorem cluster_is_base_and_marks (s : str) (k : nat) (g : grapheme) :
  nth_error (grapheme_clusters U s) k = Some g ->
  exists c marks,
    g_text g = c :: marks
    /\ Forall (fun m => combining U m <> 0%N) marks
    /\ (0 < k -> combining U c = 0%N).
Proof.
  intros Hk.
  pose proof (loop_shape s (List.length s) 0 (or_introl eq_refl)) as Hall.
  rewrite Forall_forall in Hall.
  destruct (Hall g (nth_error_In _ _ Hk)) as [c [marks [Htxt [Hmarks Hbase]]]].
  exists c, marks. split; [exact Htxt|]. split; [exact Hmarks|].
  intros Hpos. destruct Hbase as [Hzero|Hbase]; [exfalso|exact Hbase].
  pose proof (loop_chained U s (List.length s) 0) as Hch.
  destruct (nth_error (grapheme_clusters U s) 0) as [g0|] eqn:H0.
  - assert (H0' : nth_error
                    (map g_span (grapheme_clusters_loop U (List.length s) s 0))
                    0 = Some (g_start g0, g_end g0))
      by (unfold grapheme_clusters in H0; rewrite nth_error_map, H0;
          reflexivity).
    assert (Hk' : nth_error
                    (map g_span (grapheme_clusters_loop U (List.length s) s 0))
                    k = Some (g_start g, g_end g))
      by (unfold grapheme_clusters in Hk; rewrite nth_error_map, Hk;
          reflexivity).
    pose proof (chained_later _ _ _ _ _ _ _ _ Hch Hpos H0' Hk') as Hle.
    destruct (chained_nth _ _ _ _ _ Hch H0'). lia.
  - apply nth_error_None in H0.
    assert (Hsome : nth_error (grapheme_clusters U s) k <> None) by congruence.
    apply nth_error_Some in Hsome. lia.
Qed.

(** X4.  The empty string, and only the empty string, has no cluster; and
    there are never more clusters than code points. *)
Theorem no_cluster_iff_empty (s : str) :
  (grapheme_clusters U s = [] <-> s = [])
  /\ List.length (grapheme_clusters U s) <= List.length s.
Proof.
  split.
  - split.
    + intros Hnil. rewrite <- (grapheme_clusters_cover U s), Hnil.
      reflexivity.
    + intros ->. reflexivity.
  - unfold grapheme_clusters.
    pose proof (loop_length_le s (List.length s) 0). lia.
Qed.

(** X5.  A string without combining marks is segmented one code point to
    a cluster. *)
Theorem plain_text_one_cluster_per_code_point (s : str) :
  Forall (fun c => combining U c = 0%N) s ->
  map g_text (grapheme_clusters U s) = map (fun c => [c]) s.
Proof.
  intros Hplain. unfold grapheme_clusters.
  rewrite (loop_plain s Hplain) by lia. reflexivity.
Qed.

End SegmenterProperties.

Lemma cluster_is_base_and_marks_witness :
  nth_error (grapheme_clusters GreekUCD.greek_ucd
               Samples.a_psili_iota_decomposed) 1
  = Some (mkGrapheme [0x3B9%N] 2 3)
  /\ exists c marks,
       [0x3B9%N] = c :: marks
       /\ Forall (fun m => combining GreekUCD.greek_ucd m <> 0%N) marks
       /\ (0 < 1 -> combining GreekUCD.greek_ucd c = 0%N).
Proof.
  assert (Hk : nth_error (grapheme_clusters GreekUCD.greek_ucd
                            Samples.a_psili_iota_decomposed) 1
               = Some (mkGrapheme [0x3B9%N] 2 3))
    by (vm_compute; reflexivity).
  split; [exact Hk|].
  exact (cluster_is_base_and_marks GreekUCD.greek_ucd
           Samples.a_psili_iota_decomposed 1 _ Hk).
Defined.

Lemma plain_text_one_cluster_per_code_point_witness :
  Forall (fun c => combining GreekUCD.greek_ucd c = 0%N) Samples.theou
  /\ map g_text (grapheme_clusters GreekUCD.greek_ucd Samples.theou)
     = map (fun c => [c]) Samples.theou.
Proof.
  assert (Hplain : Forall (fun c => combining GreekUCD.greek_ucd c = 0%N)
                          Samples.theou)
    by (repeat constructor).
  split; [exact Hplain|].
  exact (plain_text_one_cluster_per_code_point GreekUCD.greek_ucd
           Samples.theou Hplain).
Defined.

(* ================================================================= *)
(** * Further properties: the cluster predicates and the line index *)

Lemma str_in_single (x : codepoint) (l : str) :
  In x l -> str_in [x] l = true.
Proof.
  induction l as [|y l IH]; simpl; [tauto|].
  intros [->|Hin].
  - rewrite N.eqb_refl. reflexivity.
  - rewrite (IH Hin). apply orb_true_r.
Qed.

Lemma firstn_add {A : Type} (n m : nat) (l : list A) :
  firstn (n + m) l = firstn n l ++ firstn m (skipn n l).
Proof.
  revert l. induction n as [|n IH]; intros l; simpl; [reflexivity|].
  destruct l as [|x l]; simpl.
  - rewrite firstn_nil. reflexivity.
  - rewrite IH. reflexivity.
Qed.

Lemma slice_app {A : Type} (l : list A) (a b c : nat) :
  a <= b -> b <= c -> slice l a b ++ slice l b c = slice l a c.
Proof.
  intros Hab Hbc. unfold slice.
  replace (c - a) with ((b - a) + (c - b)) by lia.
  rewrite firstn_add, skipn_skipn.
  replace (b - a + a) with b by lia. reflexivity.
Qed.

Lemma find_app {A : Type} (p : A -> bool) (l l' : list A) :
  find p (l ++ l')
  = match find p l with
    | Some y => Some y
    | None => find p l'
    end.
Proof.
  induction l as [|x l IH]; simpl; [reflexivity|].
  destruct (p x); [reflexivity | exact IH].
Qed.

Section ClassifierProperties.

Variable U : UnicodeData.

(** X6.  A cluster whose base letter is one of the seven vowels is a
    vowel cluster. *)
Theorem vowel_base_letter_is_vowel_cluster (c : str) (x : codepoint) :
  base_letter U c = [x] ->
  In x BASE_VOWELS ->
  is_vowel_cluster U c = true.
Proof.
  unfold base_letter, is_vowel_cluster.
  destruct (find (is_base U) (normalize_NFD U c)) as [X|] eqn:Hfind;
    [|discriminate].
  intros Hlow Hx. apply find_some in Hfind. destruct Hfind as [Hin Hbase].
  apply existsb_exists. exists X. split.
  - apply filter_In. auto.
  - rewrite Hlow. apply str_in_single. exact Hx.
Qed.

(** X7.  A cluster whose decomposition holds combining marks only (a
    stray mark at the start of the text) has the empty base letter and is
    no vowel cluster. *)
Theorem markless_cluster_has_no_base (c : str) :
  Forall (fun ch => combining U ch <> 0%N) (normalize_NFD U c) ->
  base_letter U c = [] /\ is_vowel_cluster U c = false.
Proof.
  intros Hmarks. rewrite Forall_forall in Hmarks.
  assert (Hnone : filter (is_base U) (normalize_NFD U c) = []).
  { destruct (filter (is_base U) (normalize_NFD U c)) as [|X rest] eqn:Hf;
      [reflexivity|exfalso].
    assert (HX : In X (filter (is_base U) (normalize_NFD U c)))
      by (rewrite Hf; left; reflexivity).
    apply filter_In in HX. destruct HX as [Hin Hbase].
    apply N.eqb_eq in Hbase. exact (Hmarks _ Hin Hbase). }
  split.
  - unfold base_letter.
    destruct (find (is_base U) (normalize_NFD U c)) as [X|] eqn:Hfind;
      [exfalso|reflexivity].
    apply find_some in Hfind. destruct Hfind as [Hin Hbase].
    apply N.eqb_eq in Hbase. exact (Hmarks _ Hin Hbase).
  - unfold is_vowel_cluster. rewrite Hnone. reflexivity.
Qed.

End ClassifierProperties.

Lemma vowel_base_letter_is_vowel_cluster_witness :
  base_letter GreekUCD.greek_ucd [0x1F00%N] = [0x3B1%N]
  /\ In 0x3B1%N BASE_VOWELS
  /\ is_vowel_cluster GreekUCD.greek_ucd [0x1F00%N] = true.
Proof.
  assert (Hb : base_letter GreekUCD.greek_ucd [0x1F00%N] = [0x3B1%N])
    by (vm_compute; reflexivity).
  assert (Hx : In 0x3B1%N BASE_VOWELS) by (left; reflexivity).
  split; [exact Hb|]. split; [exact Hx|].
  exact (vowel_base_letter_is_vowel_cluster GreekUCD.greek_ucd
           [0x1F00%N] 0x3B1%N Hb Hx).
Defined.

Lemma markless_cluster_has_no_base_witness :
  Forall (fun ch => combining GreekUCD.greek_ucd ch <> 0%N)
         (normalize_NFD GreekUCD.greek_ucd [0x301%N])
  /\ base_letter GreekUCD.greek_ucd [0x301%N] = []
  /\ is_vowel_cluster GreekUCD.greek_ucd [0x301%N] = false.
Proof.
  assert (Hm : Forall (fun ch => combining GreekUCD.greek_ucd ch <> 0%N)
                      (normalize_NFD GreekUCD.greek_ucd [0x301%N])).
  { vm_compute. constructor; [discriminate | constructor]. }
  split; [exact Hm|].
  exact (markless_cluster_has_no_base GreekUCD.greek_ucd [0x301%N] Hm).
Defined.

Section LineIndexProperties.

Variable U : UnicodeData.

(** X8.  The first cluster is on line 0, and from one cluster to the next
    the line number grows by the number of newlines in the earlier
    cluster: line numbers never decrease along the sequence. *)
Theorem line_numbers_follow_newlines (t : str) :
  let clusters := clusters_of U t in
  (forall c, nth_error clusters 0 = Some c -> cl_line c = 0)
  /\ (forall k c c',
         nth_error clusters k = Some c ->
         nth_error clusters (S k) = Some c' ->
         cl_line c' = cl_line c + str_count NEWLINE (cl_text c)).
Proof.
  intros clusters. split.
  - intros c Hc.
    destruct (cluster_text_slice U t 0 c Hc) as [_ [_ Hline]].
    pose proof (clusters_chained U t) as Hch.
    unfold clusters in Hc.
    destruct (clusters_of U t) as [|c0 rest]; [discriminate|].
    simpl in Hc. inversion Hc; subst. simpl in Hch.
    destruct Hch as [Hstart _]. rewrite Hline, Hstart. reflexivity.
  - intros k c c' Hk Hk'.
    destruct (cluster_text_slice U t k c Hk) as [Htxt [Hend Hline]].
    destruct (cluster_text_slice U t (S k) c' Hk') as [_ [_ Hline']].
    pose proof (cluster_adjacent U t k c c' Hk Hk') as Hadj.
    pose proof (cluster_nonempty U t k c Hk) as Hne.
    rewrite Hline, Hline', Hadj, Htxt. unfold line_number_at, str_count.
    rewrite <- (slice_app t 0 (cl_start c) (cl_end c)) by lia.
    rewrite filter_app, length_app. reflexivity.
Qed.

Variable clusters : list cluster.

Lemma fold_first_find (idxs : list nat) :
  forall st,
    fst (fold_left (nonpunct_step U clusters) idxs st)
    = match fst st with
      | Some f => Some f
      | None => find (nonpunct_at U clusters) idxs
      end.
Proof.
  induction idxs as [|x idxs IH]; intros st; simpl.
  - destruct (fst st); reflexivity.
  - rewrite IH, nonpunct_step_eq.
    destruct (nonpunct_at U clusters x); simpl; [|reflexivity].
    destruct (fst st); reflexivity.
Qed.

Lemma fold_last_find (idxs : list nat) :
  forall st,
    snd (fold_left (nonpunct_step U clusters) idxs st)
    = match find (nonpunct_at U clusters) (rev idxs) with
      | Some l => Some l
      | None => snd st
      end.
Proof.
  induction idxs as [|x idxs IH]; intros st; simpl; [reflexivity|].
  rewrite IH, nonpunct_step_eq, find_app. simpl.
  destruct (find (nonpunct_at U clusters) (rev idxs)); [reflexivity|].
  destruct (nonpunct_at U clusters x); reflexivity.
Qed.

(** X9.  The line index of a line: [first_nonpunct] is the smallest and
    [last_nonpunct] the largest index of a cluster of that line that is
    not punctuation or space, and both are [None] exactly when the line
    has no such cluster (an empty or all-punctuation line). *)
Theorem line_index_first_and_last (ln : nat) :
  let idxs := line_to_idxs clusters ln in
  (forall j, first_nonpunct U clusters ln = Some j ->
     In j idxs /\ nonpunct_at U clusters j = true
     /\ forall k, In k idxs -> k < j -> nonpunct_at U clusters k = false)
  /\ (forall i, last_nonpunct U clusters ln = Some i ->
        In i idxs /\ nonpunct_at U clusters i = true
        /\ forall k, In k idxs -> i < k -> nonpunct_at U clusters k = false)
  /\ (first_nonpunct U clusters ln = None
      <-> forall k, In k idxs -> nonpunct_at U clusters k = false)
  /\ (last_nonpunct U clusters ln = None
      <-> forall k, In k idxs -> nonpunct_at U clusters k = false).
Proof.
  intros idxs.
  pose proof (line_to_idxs_sorted clusters ln) as Hsorted. fold idxs in Hsorted.
  assert (Hfirst : first_nonpunct U clusters ln
                   = find (nonpunct_at U clusters) idxs)
    by (unfold first_nonpunct, first_last_nonpunct; rewrite fold_first_find;
        reflexivity).
  assert (Hlast : last_nonpunct U clusters ln
                  = find (nonpunct_at U clusters) (rev idxs)).
  { unfold last_nonpunct, first_last_nonpunct. rewrite fold_last_find.
    fold idxs. destruct (find (nonpunct_at U clusters) (rev idxs));
      reflexivity. }
  split; [|split; [|split]].
  - intros j Hj. pose proof Hj as Hj'. rewrite Hfirst in Hj'.
    apply find_some in Hj'. destruct Hj' as [Hin Hnp].
    split; [exact Hin|]. split; [exact Hnp|].
    unfold first_nonpunct, first_last_nonpunct in Hj.
    apply (fold_first U clusters _ Hsorted) in Hj.
    destruct Hj as [Hf | [_ [_ Hbefore]]]; [discriminate | exact Hbefore].
  - intros i Hi. pose proof Hi as Hi'. rewrite Hlast in Hi'.
    apply find_some in Hi'. destruct Hi' as [Hin Hnp].
    apply in_rev in Hin.
    split; [exact Hin|]. split; [exact Hnp|].
    unfold last_nonpunct, first_last_nonpunct in Hi.
    apply (fold_last U clusters _ Hsorted) in Hi.
    destruct Hi as [[Hs _] | [_ Hafter]]; [discriminate | exact Hafter].
  - rewrite Hfirst. split.
    + intros Hnone k Hk.
      exact (find_none _ _ Hnone k Hk).
    + intros Hall.
      destruct (find (nonpunct_at U clusters) idxs) as [j|] eqn:Hf;
        [|reflexivity].
      apply find_some in Hf. destruct Hf as [Hin Hnp].
      rewrite (Hall _ Hin) in Hnp. discriminate.
  - rewrite Hlast. split.
    + intros Hnone k Hk.
      apply (find_none _ _ Hnone k). apply -> in_rev. exact Hk.
    + intros Hall.
      destruct (find (nonpunct_at U clusters) (rev idxs)) as [j|] eqn:Hf;
        [|reflexivity].
      apply find_some in Hf. destruct Hf as [Hin Hnp].
      apply in_rev in Hin. rewrite (Hall _ Hin) in Hnp. discriminate.
Qed.

End LineIndexProperties.

(* ================================================================= *)
(** * Further properties: the scanner *)

(** The kind of a pair, with everything the tests of lines 139 to 158
    have established when they assign it. *)
Lemma classify_kind_cases (U : UnicodeData) (t : str)
  (clusters : list cluster) (i j : nat) (ci cj : cluster)
  (k : hiatus_kind) :
  classify_kind U t clusters i ci j cj = Some k ->
  match k with
  | IntraWord => slice t (cl_end ci) (cl_start cj) = []
  | InterWord =>
      slice t (cl_end ci) (cl_start cj) <> []
      /\ char_in NEWLINE (slice t (cl_end ci) (cl_start cj)) = false
      /\ only_punct_space_between U t (cl_end ci) (cl_start cj) = true
      /\ cl_line ci = cl_line cj
  | AcrossLine =>
      char_in NEWLINE (slice t (cl_end ci) (cl_start cj)) = true
      /\ cl_line cj = cl_line ci + 1
      /\ last_nonpunct U clusters (cl_line ci) = Some i
      /\ first_nonpunct U clusters (cl_line cj) = Some j
  end.
Proof.
  unfold classify_kind.
  destruct (char_in NEWLINE (slice t (cl_end ci) (cl_start cj))) eqn:Hnl.
  - destruct (Nat.eqb_spec (cl_line cj) (cl_line ci + 1)) as [Hln|];
      [|discriminate].
    destruct (last_nonpunct U clusters (cl_line ci)) as [last_idx|];
      [|discriminate].
    destruct (first_nonpunct U clusters (cl_line cj)) as [first_idx|];
      [|discriminate].
    destruct (Nat.eqb_spec last_idx i); simpl; [|discriminate].
    destruct (Nat.eqb_spec first_idx j); simpl; [|discriminate].
    intros H; inversion H; subst. auto.
  - destruct (str_eqb (slice t (cl_end ci) (cl_start cj)) []) eqn:Hempty.
    + intros H; inversion H; subst. apply str_eqb_eq. exact Hempty.
    + destruct (only_punct_space_between U t (cl_end ci) (cl_start cj))
        eqn:Honly; simpl; [|discriminate].
      destruct (Nat.eqb_spec (cl_line ci) (cl_line cj)) as [Hln|];
        [|discriminate].
      intros H; inversion H; subst.
      split; [|auto].
      intros Hnil. rewrite Hnil in Hempty. discriminate.
Qed.

(** A recorded pair stays recorded when more values of [j] follow. *)
Lemma scan_from_app_recorded (U : UnicodeData) (t : str)
  (clusters : list cluster) (treat_iota_as_diphthong : bool)
  (i : nat) (ci : cluster) (h : hit) (js2 : list nat) :
  forall js1,
    scan_from U t clusters treat_iota_as_diphthong i ci js1 = Recorded h ->
    scan_from U t clusters treat_iota_as_diphthong i ci (js1 ++ js2)
    = Recorded h.
Proof.
  induction js1 as [|j js1 IH]; simpl; intros Hrec; [discriminate|].
  destruct (nth_error clusters j) as [cj|]; [|discriminate].
  destruct (negb (is_vowel_cluster U (cl_text cj))); [exact (IH Hrec)|].
  destruct (classify_kind U t clusters i ci j cj) as [k|];
    [|exact (IH Hrec)].
  exact Hrec.
Qed.

Lemma lookahead_range_prefix (i : nat) (K K' : Z) (n : nat) :
  (K <= K')%Z ->
  exists rest, lookahead_range i K' n = lookahead_range i K n ++ rest.
Proof.
  intros HK. unfold lookahead_range.
  remember (Z.to_nat (Z.min (Z.of_nat i + 1 + K) (Z.of_nat n)) - (i + 1))
    as m eqn:Hm.
  remember (Z.to_nat (Z.min (Z.of_nat i + 1 + K') (Z.of_nat n)) - (i + 1))
    as m' eqn:Hm'.
  assert (Hle : m <= m') by lia.
  exists (seq (i + 1 + m) (m' - m)).
  rewrite <- seq_app. f_equal. lia.
Qed.

(** The values of [j] the inner loop passed over before it recorded. *)
Lemma scan_from_seq_skipped (U : UnicodeData) (t : str)
  (clusters : list cluster) (treat_iota_as_diphthong : bool)
  (i : nat) (ci : cluster) (h : hit) :
  forall m a,
    scan_from U t clusters treat_iota_as_diphthong i ci (seq a m)
    = Recorded h ->
    forall j' cj',
      a <= j' -> j' < j_index h -> nth_error clusters j' = Some cj' ->
      is_vowel_cluster U (cl_text cj') = false
      \/ classify_kind U t clusters i ci j' cj' = None.
Proof.
  induction m as [|m IH]; intros a; simpl; intros Hrec; [discriminate|].
  destruct (nth_error clusters a) as [ca|] eqn:Ha; [|discriminate].
  intros j' cj' Hle Hlt Hj'.
  destruct (is_vowel_cluster U (cl_text ca)) eqn:Hv; simpl in Hrec.
  - destruct (classify_kind U t clusters i ci a ca) as [k|] eqn:Hk.
    + destruct (diphthong_decision U treat_iota_as_diphthong k ci ca);
        [discriminate|].
      inversion Hrec; subst h. simpl in Hlt. lia.
    + destruct (Nat.eq_dec j' a) as [->|Hne].
      * right. rewrite Ha in Hj'. inversion Hj'; subst. exact Hk.
      * apply (IH (S a) Hrec j' cj'); [lia | exact Hlt | exact Hj'].
  - destruct (Nat.eq_dec j' a) as [->|Hne].
    + left. rewrite Ha in Hj'. inversion Hj'; subst. exact Hv.
    + apply (IH (S a) Hrec j' cj'); [lia | exact Hlt | exact Hj'].
Qed.

Lemma flat_map_length_le {A B : Type} (g : A -> list B) (v : A -> bool)
  (l : list A) :
  (forall x, List.length (g x) <= if v x then 1 else 0) ->
  List.length (flat_map g l) <= List.length (filter v l).
Proof.
  intros Hg. induction l as [|x l IH]; simpl; [lia|].
  rewrite length_app. specialize (Hg x).
  destruct (v x); simpl; lia.
Qed.

Lemma filter_snd_combine {A B : Type} (v : B -> bool) (l1 : list A)
  (l2 : list B) :
  List.length (filter (fun p => v (snd p)) (combine l1 l2))
  <= List.length (filter v l2).
Proof.
  revert l2. induction l1 as [|x l1 IH]; intros [|y l2]; simpl; try lia.
  specialize (IH l2). destruct (v y); simpl; lia.
Qed.

Section ScannerProperties.

Variable U : UnicodeData.
Variable text : str.
Variable treat_iota_as_diphthong : bool.

Local Abbreviation t := (normalize_NFC U text).
Local Abbreviation clusters := (clusters_of U t).

(** The fields of a hit, read back from the two clusters it pairs. *)
Lemma scan_hit_fields (K : Z) (h : hit) :
  In h (scan U t clusters treat_iota_as_diphthong K) ->
  exists ci cj,
    nth_error clusters (i_index h) = Some ci
    /\ nth_error clusters (j_index h) = Some cj
    /\ i_index h < j_index h
    /\ is_vowel_cluster U (cl_text ci) = true
    /\ is_vowel_cluster U (cl_text cj) = true
    /\ classify_kind U t clusters (i_index h) ci (j_index h) cj
       = Some (kind h)
    /\ start_pos h = cl_start ci
    /\ end_pos h = cl_end cj
    /\ snippet h = slice t (cl_start ci) (cl_end cj)
    /\ cluster_i_text h = cl_text ci
    /\ cluster_j_text h = cl_text cj
    /\ line_i h = cl_line ci + 1
    /\ line_j h = cl_line cj + 1
    /\ intervening h = slice t (cl_end ci) (cl_start cj).
Proof.
  intros Hin. apply scan_hit_spec in Hin.
  destruct Hin as [ci [cj [Hi [Hj [Hlt [_ [_ [Hvi [Hvj [Hk [_ Hh]]]]]]]]]]].
  exists ci, cj.
  repeat (split; [first [assumption | rewrite Hh; reflexivity]|]).
  rewrite Hh. reflexivity.
Qed.

(** X10.  What the kind of a reported occurrence says.  Intra-word: the
    two clusters are neighbours and nothing lies between them.
    Interword: the text between them is not empty, has no newline, no
    letter and no digit, and both clusters are on the same line.
    Across-line: the text between them has a newline, the second cluster
    is on the next line, the first cluster is the last one of its line
    that is not punctuation or space and the second the first such one of
    its line.  Neighbours are always intra-word. *)
Theorem occurrence_kind_geometry (K : Z) (occ : occurrence) :
  In occ (snd (detect_hiatus_in_text U text treat_iota_as_diphthong K)) ->
  match kind (found occ) with
  | IntraWord =>
      intervening (found occ) = []
      /\ j_index (found occ) = i_index (found occ) + 1
  | InterWord =>
      intervening (found occ) <> []
      /\ char_in NEWLINE (intervening (found occ)) = false
      /\ Forall (fun ch => is_letter_or_number U ch = false)
                (intervening (found occ))
      /\ line_j (found occ) = line_i (found occ)
  | AcrossLine =>
      char_in NEWLINE (intervening (found occ)) = true
      /\ line_j (found occ) = line_i (found occ) + 1
      /\ last_nonpunct U clusters (line_i (found occ) - 1)
         = Some (i_index (found occ))
      /\ first_nonpunct U clusters (line_j (found occ) - 1)
         = Some (j_index (found occ))
  end
  /\ (j_index (found occ) = i_index (found occ) + 1 ->
      kind (found occ) = IntraWord).
Proof.
  intros Hin. apply In_occurrences in Hin. destruct Hin as [Hin _].
  apply scan_hit_fields in Hin.
  destruct Hin as [ci [cj [Hi [Hj [Hlt [_ [_ [Hk [_ [_ [_ [_ [_
                   [Hli [Hlj Hbetween]]]]]]]]]]]]]]].
  split.
  - pose proof (classify_kind_cases U t clusters _ _ _ _ _ Hk) as Hcase.
    rewrite Hbetween, Hli, Hlj.
    replace (cl_line ci + 1 - 1) with (cl_line ci) by lia.
    replace (cl_line cj + 1 - 1) with (cl_line cj) by lia.
    destruct (kind (found occ)).
    + split; [exact Hcase|].
      exact (empty_between_adjacent U text _ _ ci cj Hlt Hi Hj Hcase).
    + destruct Hcase as [Hne [Hnl [Honly Hln]]].
      split; [exact Hne|]. split; [exact Hnl|]. split; [|lia].
      apply Forall_forall. intros ch Hch.
      unfold only_punct_space_between in Honly.
      rewrite forallb_forall in Honly. specialize (Honly _ Hch).
      destruct (is_letter_or_number U ch); [discriminate | reflexivity].
    + destruct Hcase as [Hnl [Hln [Hlast Hfirst]]].
      split; [exact Hnl|]. split; [lia|]. split; assumption.
  - intros Hadj. rewrite Hadj in Hj, Hk.
    rewrite (classify_adjacent U text _ ci cj Hi Hj) in Hk.
    inversion Hk. reflexivity.
Qed.

(** X11.  The record of a reported occurrence is consistent with the
    normalized text: [start_pos < end_pos <= len(text)], the snippet is
    the text between the two positions and is made of the first cluster,
    the intervening text and the second cluster in this order, both
    clusters are vowel clusters, and [line_i <= line_j] are the 1-based
    line numbers of the two clusters, [line_i] being one more than the
    number of newlines before [start_pos]. *)
Theorem occurrence_record_consistent (K : Z) (occ : occurrence) :
  In occ (snd (detect_hiatus_in_text U text treat_iota_as_diphthong K)) ->
  start_pos (found occ) < end_pos (found occ)
  /\ end_pos (found occ) <= List.length t
  /\ snippet (found occ)
     = slice t (start_pos (found occ)) (end_pos (found occ))
  /\ snippet (found occ)
     = cluster_i_text (found occ) ++ intervening (found occ)
         ++ cluster_j_text (found occ)
  /\ is_vowel_cluster U (cluster_i_text (found occ)) = true
  /\ is_vowel_cluster U (cluster_j_text (found occ)) = true
  /\ line_i (found occ)
     = str_count NEWLINE (slice t 0 (start_pos (found occ))) + 1
  /\ line_i (found occ) <= line_j (found occ).
Proof.
  intros Hin. apply In_occurrences in Hin. destruct Hin as [Hin _].
  apply scan_hit_fields in Hin.
  destruct Hin as [ci [cj [Hi [Hj [Hlt [Hvi [Hvj [_ [Hs [He [Hsn [Hti [Htj
                   [Hli [Hlj Hbetween]]]]]]]]]]]]]]].
  pose proof (cluster_nonempty U t _ _ Hi) as Hnei.
  pose proof (cluster_nonempty U t _ _ Hj) as Hnej.
  pose proof (cluster_order U t _ _ _ _ Hlt Hi Hj) as Hord.
  destruct (cluster_text_slice U t _ _ Hi) as [Htxti [_ Hlni]].
  destruct (cluster_text_slice U t _ _ Hj) as [Htxtj [Hendj _]].
  pose proof (cluster_line_mono U t _ _ _ _ Hlt Hi Hj) as Hmono.
  rewrite Hs, He, Hsn, Hti, Htj, Hli, Hlj, Hbetween.
  split; [lia|]. split; [exact Hendj|]. split; [reflexivity|].
  split.
  { rewrite Htxti, Htxtj.
    rewrite (slice_app t (cl_end ci) (cl_start cj) (cl_end cj)) by lia.
    rewrite (slice_app t (cl_start ci) (cl_end ci) (cl_end cj)) by lia.
    reflexivity. }
  split; [exact Hvi|]. split; [exact Hvj|].
  split; [|lia].
  rewrite Hlni. reflexivity.
Qed.

(** X12.  With a lookahead bound of zero or less no pair is looked at:
    the occurrence list is empty, whatever the text. *)
Theorem nonpositive_lookahead_reports_nothing (K : Z) :
  (K <= 0)%Z ->
  snd (detect_hiatus_in_text U text treat_iota_as_diphthong K) = [].
Proof.
  intros HK.
  destruct (snd (detect_hiatus_in_text U text treat_iota_as_diphthong K))
    as [|occ rest] eqn:Hocc; [reflexivity|exfalso].
  assert (Hin : In occ (snd (detect_hiatus_in_text U text
                               treat_iota_as_diphthong K)))
    by (rewrite Hocc; left; reflexivity).
  apply In_occurrences in Hin. destruct Hin as [Hin _].
  apply scan_hit_spec in Hin.
  destruct Hin as [ci [cj [_ [_ [Hlt [_ [Hbound _]]]]]]].
  lia.
Qed.

(** X13.  Raising the lookahead bound never loses an occurrence: what is
    reported with the bound [K] is reported, record for record, with
    every bound [K' >= K]. *)
Theorem larger_lookahead_keeps_occurrences (K K' : Z) (occ : occurrence) :
  (K <= K')%Z ->
  In occ (snd (detect_hiatus_in_text U text treat_iota_as_diphthong K)) ->
  In occ (snd (detect_hiatus_in_text U text treat_iota_as_diphthong K')).
Proof.
  intros HK Hin. apply In_occurrences in Hin. destruct Hin as [Hin Hocc].
  rewrite Hocc. rewrite detect_occurrences. apply in_map.
  apply In_scan in Hin. destruct Hin as [i [ci [Hi Hrec]]].
  apply In_scan. exists i, ci. split; [exact Hi|].
  unfold scan_start in *.
  destruct (negb (is_vowel_cluster U (cl_text ci))); [discriminate|].
  destruct (lookahead_range_prefix i K K' (List.length clusters) HK)
    as [rest ->].
  apply scan_from_app_recorded. exact Hrec.
Qed.

(** X14.  The second cluster of a reported occurrence is the nearest one
    the first can pair with: every cluster strictly between the two is no
    vowel cluster or has no kind with the first. *)
Theorem occurrence_pairs_nearest (K : Z) (occ : occurrence)
  (ci ck : cluster) (k : nat) :
  In occ (snd (detect_hiatus_in_text U text treat_iota_as_diphthong K)) ->
  nth_error clusters (i_index (found occ)) = Some ci ->
  i_index (found occ) < k -> k < j_index (found occ) ->
  nth_error clusters k = Some ck ->
  is_vowel_cluster U (cl_text ck) = false
  \/ classify_kind U t clusters (i_index (found occ)) ci k ck = None.
Proof.
  intros Hin Hci Hik Hkj Hk.
  apply In_occurrences in Hin. destruct Hin as [Hin _].
  apply In_scan in Hin. destruct Hin as [i [ci' [Hi Hrec]]].
  assert (Hidx : i_index (found occ) = i).
  { apply (scan_start_index U t clusters treat_iota_as_diphthong K i ci').
    rewrite Hrec. left. reflexivity. }
  rewrite Hidx in *.
  assert (Hcc : ci' = ci) by congruence. rewrite Hcc in Hrec.
  unfold scan_start in Hrec.
  destruct (negb (is_vowel_cluster U (cl_text ci))); [discriminate|].
  unfold lookahead_range in Hrec.
  apply (scan_from_seq_skipped U t clusters _ i ci _ _ _ Hrec k ck);
    [lia | exact Hkj | exact Hk].
Qed.

(** X15.  There are never more occurrences than vowel clusters in the
    normalized text; a text without a vowel cluster has none. *)
Theorem occurrences_bounded_by_vowel_clusters (K : Z) :
  List.length (snd (detect_hiatus_in_text U text treat_iota_as_diphthong K))
  <= List.length
       (filter (fun c => is_vowel_cluster U (cl_text c)) clusters).
Proof.
  rewrite detect_occurrences, length_map. unfold scan.
  eapply Nat.le_trans; [|apply (filter_snd_combine
                                  (fun c => is_vowel_cluster U (cl_text c))
                                  (seq 0 (List.length clusters)))].
  apply flat_map_length_le.
  intros [i ci]. cbn [fst snd]. unfold scan_start.
  destruct (is_vowel_cluster U (cl_text ci)); simpl; [|lia].
  destruct (scan_from U t clusters treat_iota_as_diphthong i ci
              (lookahead_range i K (List.length clusters))); simpl; lia.
Qed.

End ScannerProperties.

Lemma occurrence_kind_geometry_witness :
  exists occ,
    In occ (snd (detect_hiatus_in_text GreekUCD.greek_ucd Samples.kai_eidon
                   false 8))
    /\ kind (found occ) = InterWord
    /\ intervening (found occ) = [0x20%N]
    /\ intervening (found occ) <> []
    /\ char_in NEWLINE (intervening (found occ)) = false
    /\ Forall (fun ch => is_letter_or_number GreekUCD.greek_ucd ch = false)
              (intervening (found occ))
    /\ line_j (found occ) = line_i (found occ).
Proof.
  set (occ0 := nth 0 (snd (detect_hiatus_in_text GreekUCD.greek_ucd
                             Samples.kai_eidon false 8))
                   (mkOccurrence (mkHit IntraWord 0 0 [] [] [] 0 0 0 0 [])
                                 [] [] [] [])).
  assert (Hin : In occ0 (snd (detect_hiatus_in_text GreekUCD.greek_ucd
                                Samples.kai_eidon false 8)))
    by (vm_compute; left; reflexivity).
  assert (Hkind : kind (found occ0) = InterWord) by (vm_compute; reflexivity).
  pose proof (occurrence_kind_geometry GreekUCD.greek_ucd Samples.kai_eidon
                false 8 occ0 Hin) as [Hgeo _].
  rewrite Hkind in Hgeo.
  exists occ0. split; [exact Hin|]. split; [exact Hkind|].
  split; [vm_compute; reflexivity | exact Hgeo].
Defined.

Lemma occurrence_record_consistent_witness :
  exists occ,
    In occ (snd (detect_hiatus_in_text GreekUCD.greek_ucd Samples.kai_eidon
                   false 8))
    /\ (start_pos (found occ), end_pos (found occ)) = (2, 5)
    /\ start_pos (found occ) < end_pos (found occ)
    /\ end_pos (found occ)
       <= List.length (normalize_NFC GreekUCD.greek_ucd Samples.kai_eidon)
    /\ snippet (found occ)
       = slice (normalize_NFC GreekUCD.greek_ucd Samples.kai_eidon)
           (start_pos (found occ)) (end_pos (found occ))
    /\ snippet (found occ)
       = cluster_i_text (found occ) ++ intervening (found occ)
           ++ cluster_j_text (found occ)
    /\ is_vowel_cluster GreekUCD.greek_ucd (cluster_i_text (found occ)) = true
    /\ is_vowel_cluster GreekUCD.greek_ucd (cluster_j_text (found occ)) = true
    /\ line_i (found occ)
       = str_count NEWLINE
           (slice (normalize_NFC GreekUCD.greek_ucd Samples.kai_eidon) 0
              (start_pos (found occ))) + 1
    /\ line_i (found occ) <= line_j (found occ).
Proof.
  assert (Hin : In (nth 0 (snd (detect_hiatus_in_text GreekUCD.greek_ucd
                                  Samples.kai_eidon false 8))
                        (mkOccurrence (mkHit IntraWord 0 0 [] [] [] 0 0 0 0 [])
                                      [] [] [] []))
                   (snd (detect_hiatus_in_text GreekUCD.greek_ucd
                           Samples.kai_eidon false 8)))
    by (vm_compute; left; reflexivity).
  eexists. split; [exact Hin|]. split; [vm_compute; reflexivity|].
  exact (occurrence_record_consistent GreekUCD.greek_ucd Samples.kai_eidon
           false 8 _ Hin).
Defined.

Lemma nonpositive_lookahead_reports_nothing_witness :
  (0 <= 0)%Z
  /\ snd (detect_hiatus_in_text GreekUCD.greek_ucd Samples.kai_eidon false 0)
     = [].
Proof.
  assert (HK : (0 <= 0)%Z) by lia.
  split; [exact HK|].
  exact (nonpositive_lookahead_reports_nothing GreekUCD.greek_ucd
           Samples.kai_eidon false 0 HK).
Defined.

Lemma larger_lookahead_keeps_occurrences_witness :
  exists occ,
    (1 <= 8)%Z
    /\ In occ (snd (detect_hiatus_in_text GreekUCD.greek_ucd Samples.theou
                      false 1))
    /\ In occ (snd (detect_hiatus_in_text GreekUCD.greek_ucd Samples.theou
                      false 8)).
Proof.
  assert (Hin : In (nth 0 (snd (detect_hiatus_in_text GreekUCD.greek_ucd
                                  Samples.theou false 1))
                        (mkOccurrence (mkHit IntraWord 0 0 [] [] [] 0 0 0 0 [])
                                      [] [] [] []))
                   (snd (detect_hiatus_in_text GreekUCD.greek_ucd
                           Samples.theou false 1)))
    by (vm_compute; left; reflexivity).
  assert (HK : (1 <= 8)%Z) by lia.
  eexists. split; [exact HK|]. split; [exact Hin|].
  exact (larger_lookahead_keeps_occurrences GreekUCD.greek_ucd Samples.theou
           false 1 8 _ HK Hin).
Defined.

Lemma occurrence_pairs_nearest_witness :
  exists occ ci ck,
    In occ (snd (detect_hiatus_in_text GreekUCD.greek_ucd Samples.kai_eidon
                   false 8))
    /\ nth_error (clusters_of GreekUCD.greek_ucd
                    (normalize_NFC GreekUCD.greek_ucd Samples.kai_eidon))
                 (i_index (found occ)) = Some ci
    /\ i_index (found occ) < 3 /\ 3 < j_index (found occ)
    /\ nth_error (clusters_of GreekUCD.greek_ucd
                    (normalize_NFC GreekUCD.greek_ucd Samples.kai_eidon)) 3
       = Some ck
    /\ (is_vowel_cluster GreekUCD.greek_ucd (cl_text ck) = false
        \/ classify_kind GreekUCD.greek_ucd
             (normalize_NFC GreekUCD.greek_ucd Samples.kai_eidon)
             (clusters_of GreekUCD.greek_ucd
                (normalize_NFC GreekUCD.greek_ucd Samples.kai_eidon))
             (i_index (found occ)) ci 3 ck = None).
Proof.
  set (occ0 := nth 0 (snd (detect_hiatus_in_text GreekUCD.greek_ucd
                             Samples.kai_eidon false 8))
                   (mkOccurrence (mkHit IntraWord 0 0 [] [] [] 0 0 0 0 [])
                                 [] [] [] [])).
  set (cs := clusters_of GreekUCD.greek_ucd
               (normalize_NFC GreekUCD.greek_ucd Samples.kai_eidon)).
  set (c2 := nth 2 cs (mkCluster [] 0 0 0)).
  set (c3 := nth 3 cs (mkCluster [] 0 0 0)).
  assert (Hin : In occ0 (snd (detect_hiatus_in_text GreekUCD.greek_ucd
                                Samples.kai_eidon false 8)))
    by (vm_compute; left; reflexivity).
  assert (Hci : nth_error cs (i_index (found occ0)) = Some c2)
    by (vm_compute; reflexivity).
  assert (Hik : i_index (found occ0) < 3) by (vm_compute; lia).
  assert (Hkj : 3 < j_index (found occ0)) by (vm_compute; lia).
  assert (Hck : nth_error cs 3 = Some c3) by (vm_compute; reflexivity).
  exists occ0, c2, c3.
  split; [exact Hin|]. split; [exact Hci|]. split; [exact Hik|].
  split; [exact Hkj|]. split; [exact Hck|].
  exact (occurrence_pairs_nearest GreekUCD.greek_ucd Samples.kai_eidon
           false 8 occ0 c2 c3 3 Hin Hci Hik Hkj Hck).
Defined.

(* ================================================================= *)
(** * Further properties: the diphthong test *)

Section DecisionProperties.

Variable U : UnicodeData.

(** X16.  The four assignments to the diphthong flag (lines 164 to 176),
    resolved: a pair is taken for a diphthong, and so not recorded,
    exactly when it is intra-word, the first cluster has no breathing,
    the second has no diaeresis, and either the two base letters form an
    entry of the diphthong table or the iota-subscript option is on and
    one of the two clusters has an iota subscript. *)
Theorem diphthong_decision_resolved (treat_iota_as_diphthong : bool)
  (k : hiatus_kind) (ci cj : cluster) :
  diphthong_decision U treat_iota_as_diphthong k ci cj = true
  <-> k = IntraWord
      /\ contains_breathing U (cl_text ci) = false
      /\ contains_combining_diaeresis U (cl_text cj) = false
      /\ (set_mem (base_letter U (cl_text ci) ++ base_letter U (cl_text cj))
                  DIPHTHONGS = true
          \/ (treat_iota_as_diphthong = true
              /\ (contains_iota_subscript U (cl_text ci) = true
                  \/ contains_iota_subscript U (cl_text cj) = true))).
Proof.
  unfold diphthong_decision.
  destruct k; cbv zeta;
    try (split; [discriminate | intros [Hk _]; discriminate]).
  destruct (contains_breathing U (cl_text ci));
    destruct (contains_combining_diaeresis U (cl_text cj));
    destruct (set_mem (base_letter U (cl_text ci)
                       ++ base_letter U (cl_text cj)) DIPHTHONGS);
    destruct treat_iota_as_diphthong;
    destruct (contains_iota_subscript U (cl_text ci));
    destruct (contains_iota_subscript U (cl_text cj));
    cbn [andb orb]; split; intros H;
    try discriminate; try reflexivity;
    try (repeat split; auto; fail);
    try (destruct H as [_ [Hb [Hd Hor]]];
         try discriminate Hb; try discriminate Hd;
         destruct Hor as [Hm | [Ht [Hi | Hi]]]; discriminate).
Qed.

End DecisionProperties.

(* ================================================================= *)
(** * Further properties: the span expander *)

(** The left span as grown, with the guard that admitted each shape. *)
Lemma grow_spans_left_cases (U : UnicodeData) (clusters : list cluster)
  (i j : nat) :
  fst (grow_spans U clusters i j) = [i]
  \/ (fst (grow_spans U clusters i j) = [i; i + 1] /\ i + 1 < j)
  \/ (fst (grow_spans U clusters i j) = [i - 1; i] /\ 1 <= i).
Proof.
  unfold grow_spans. cbn [fst].
  destruct (Nat.leb_spec 1 i) as [Hi|Hi];
    destruct (diphthong_at U clusters (i - 1) i);
    destruct (Nat.ltb_spec (i + 1) j) as [Hj|Hj];
    destruct (diphthong_at U clusters i (i + 1));
    cbn [andb]; auto.
Qed.

(** The right span as grown, likewise. *)
Lemma grow_spans_right_cases (U : UnicodeData) (clusters : list cluster)
  (i j : nat) :
  snd (grow_spans U clusters i j) = [j]
  \/ (snd (grow_spans U clusters i j) = [j - 1; j] /\ i < j - 1)
  \/ (snd (grow_spans U clusters i j) = [j; j + 1]
      /\ j + 1 < List.length clusters)
  \/ (snd (grow_spans U clusters i j) = [j - 1; j; j + 1]
      /\ i < j - 1 /\ j + 1 < List.length clusters).
Proof.
  unfold grow_spans. cbn [snd].
  destruct (Nat.ltb_spec i (j - 1)) as [Hi|Hi];
    destruct (diphthong_at U clusters (j - 1) j);
    destruct (Nat.ltb_spec (j + 1) (List.length clusters)) as [Hj|Hj];
    destruct (diphthong_at U clusters j (j + 1));
    destruct (Nat.ltb_spec i (j + 1)) as [Hk|Hk];
    cbn [andb app]; auto 6.
Qed.

(** The two final spans of any pair [i < j] are runs of consecutive
    indices around [i] and [j], the left one wholly before the right
    one. *)
Lemma expand_spans_runs (U : UnicodeData) (clusters : list cluster)
  (i j : nat) :
  i < j -> j < List.length clusters ->
  let l := fst (expand_spans U clusters i j) in
  let r := snd (expand_spans U clusters i j) in
  l = seq (hd 0 l) (List.length l)
  /\ r = seq (hd 0 r) (List.length r)
  /\ 0 < List.length l
  /\ 0 < List.length r
  /\ hd 0 l <= i
  /\ i < hd 0 l + List.length l
  /\ hd 0 l + List.length l <= hd 0 r
  /\ hd 0 r <= j
  /\ j < hd 0 r + List.length r
  /\ hd 0 r + List.length r <= List.length clusters.
Proof.
  intros Hlt Hlen. cbv zeta.
  rewrite expand_spans_left, (expand_spans_right U clusters i j Hlt).
  pose proof (grow_spans_left_cases U clusters i j) as Hgl.
  pose proof (grow_spans_right_cases U clusters i j) as Hgr.
  destruct (spans_overlap (fst (grow_spans U clusters i j))
              (snd (grow_spans U clusters i j))) eqn:Hov.
  - destruct Hgr as [Hr | [[Hr Hg] | [[Hr Hg] | [Hr [Hg Hg']]]]];
      rewrite Hr; cbn [hd List.length seq];
      repeat (split; [first [lia | reflexivity | repeat f_equal; lia]|]);
      first [lia | reflexivity | repeat f_equal; lia].
  - assert (Hno : fst (grow_spans U clusters i j) = [i; i + 1] ->
                  ~ In (i + 1) (snd (grow_spans U clusters i j))).
    { intros Hl Hin.
      assert (Ho : spans_overlap (fst (grow_spans U clusters i j))
                     (snd (grow_spans U clusters i j)) = true).
      { apply spans_overlap_spec. exists (i + 1). split; [|exact Hin].
        rewrite Hl. right. left. reflexivity. }
      congruence. }
    destruct Hgl as [Hl | [[Hl Hg0] | [Hl Hg0]]];
      destruct Hgr as [Hr | [[Hr Hg] | [[Hr Hg] | [Hr [Hg Hg']]]]];
      try (assert (Hne : j - 1 <> i + 1)
            by (intros E; apply (Hno Hl); rewrite Hr, E; left;
                reflexivity));
      rewrite Hl, Hr; cbn [hd List.length seq];
      repeat (split; [first [lia | reflexivity | repeat f_equal; lia]|]);
      first [lia | reflexivity | repeat f_equal; lia].
Qed.

Section ExpanderProperties.

Variable U : UnicodeData.
Variable text : str.
Variable treat_iota_as_diphthong : bool.

Local Abbreviation t := (normalize_NFC U text).
Local Abbreviation clusters := (clusters_of U t).

Lemma cluster_start_le (k k' : nat) (c c' : cluster) :
  k <= k' ->
  nth_error clusters k = Some c ->
  nth_error clusters k' = Some c' ->
  cl_start c <= cl_start c' /\ cl_end c <= cl_end c'.
Proof.
  intros Hle Hk Hk'.
  destruct (Nat.eq_dec k k') as [Heq|Hne].
  - subst k'. assert (c = c') by congruence. subst c'. lia.
  - assert (Hlt : k < k') by lia.
    pose proof (cluster_order U t _ _ _ _ Hlt Hk Hk').
    pose proof (cluster_nonempty U t _ _ Hk).
    pose proof (cluster_nonempty U t _ _ Hk'). lia.
Qed.

Lemma cluster_length (k : nat) (c : cluster) :
  nth_error clusters k = Some c ->
  cl_end c = cl_start c + List.length (cl_text c).
Proof.
  intros Hk.
  destruct (cluster_text_slice U t _ _ Hk) as [Htxt [Hend _]].
  pose proof (cluster_nonempty U t _ _ Hk) as Hne.
  rewrite Htxt. unfold slice. rewrite length_firstn, length_skipn. lia.
Qed.

(** The texts of a run of consecutive clusters, joined, are the text
    from the start of the first to the end of the last. *)
Lemma join_texts_run (m : nat) :
  forall a,
    a + S m <= List.length clusters ->
    exists ca cb,
      nth_error clusters a = Some ca
      /\ nth_error clusters (a + m) = Some cb
      /\ join_texts clusters (seq a (S m))
         = slice t (cl_start ca) (cl_end cb).
Proof.
  induction m as [|m IH]; intros a Hlen.
  - destruct (nth_error clusters a) as [ca|] eqn:Ha;
      [|apply nth_error_None in Ha; lia].
    exists ca, ca. split; [reflexivity|].
    split; [rewrite Nat.add_0_r; exact Ha|].
    unfold join_texts. cbn [seq flat_map]. rewrite Ha, app_nil_r.
    destruct (cluster_text_slice U t _ _ Ha) as [Htxt _]. exact Htxt.
  - destruct (nth_error clusters a) as [ca|] eqn:Ha;
      [|apply nth_error_None in Ha; lia].
    destruct (IH (S a)) as [cn [cb [Hn [Hb Hjoin]]]]; [lia|].
    exists ca, cb. split; [reflexivity|].
    split; [replace (a + S m) with (S a + m) by lia; exact Hb|].
    change (join_texts clusters (seq a (S (S m))))
      with ((match nth_error clusters a with
             | Some c => cl_text c
             | None => []
             end) ++ join_texts clusters (seq (S a) (S m))).
    rewrite Ha, Hjoin.
    destruct (cluster_text_slice U t _ _ Ha) as [Htxt _]. rewrite Htxt.
    rewrite (cluster_adjacent U t a ca cn Ha Hn).
    pose proof (cluster_nonempty U t _ _ Ha).
    assert (Hle : S a <= S a + m) by lia.
    destruct (cluster_start_le _ _ _ _ Hle Hn Hb) as [_ Hends].
    pose proof (cluster_nonempty U t _ _ Hn).
    pose proof (cluster_adjacent U t a ca cn Ha Hn).
    apply slice_app; lia.
Qed.

(** X17.  The two vowel texts of a reported occurrence are substrings of
    the normalized text: [vowel_i_text] is [text[a:b]] and [vowel_j_text]
    is [text[a':b']], where the first covers the first cluster of the
    pair, the second covers the second cluster, and the first ends before
    the second starts. *)
Theorem vowel_texts_are_substrings (K : Z) (occ : occurrence) :
  In occ (snd (detect_hiatus_in_text U text treat_iota_as_diphthong K)) ->
  exists a b a' b',
    vowel_i_text occ = slice t a b
    /\ vowel_j_text occ = slice t a' b'
    /\ a <= start_pos (found occ)
    /\ start_pos (found occ) + List.length (cluster_i_text (found occ)) <= b
    /\ b <= a'
    /\ a' + List.length (cluster_j_text (found occ)) <= end_pos (found occ)
    /\ end_pos (found occ) <= b'
    /\ b' <= List.length t.
Proof.
  intros Hin. apply In_occurrences in Hin. destruct Hin as [Hin Hocc].
  pose proof (scan_hit_spec U t clusters _ _ _ Hin) as Hspec.
  destruct Hspec as [ci [cj [Hi [Hj [Hlt [Hlen [_ [_ [_ [_ [_ Hh]]]]]]]]]]].
  assert (Hs : start_pos (found occ) = cl_start ci)
    by (rewrite Hh; reflexivity).
  assert (He : end_pos (found occ) = cl_end cj)
    by (rewrite Hh; reflexivity).
  assert (Hti : cluster_i_text (found occ) = cl_text ci)
    by (rewrite Hh; reflexivity).
  assert (Htj : cluster_j_text (found occ) = cl_text cj)
    by (rewrite Hh; reflexivity).
  assert (Hvi : vowel_i_text occ
                = join_texts clusters
                    (fst (expand_spans U clusters (i_index (found occ))
                            (j_index (found occ)))))
    by (rewrite Hocc at 1; reflexivity).
  assert (Hvj : vowel_j_text occ
                = join_texts clusters
                    (snd (expand_spans U clusters (i_index (found occ))
                            (j_index (found occ)))))
    by (rewrite Hocc at 1; reflexivity).
  destruct (expand_spans_runs U clusters _ _ Hlt Hlen)
    as [Hl [Hr [Hl0 [Hr0 [Hli [Hil [Hlr [Hrj [Hjr Hrn]]]]]]]]].
  remember (fst (expand_spans U clusters (i_index (found occ))
                   (j_index (found occ)))) as l eqn:El.
  remember (snd (expand_spans U clusters (i_index (found occ))
                   (j_index (found occ)))) as r eqn:Er.
  destruct (List.length l) as [|ml] eqn:Hml; [lia|].
  destruct (List.length r) as [|mr] eqn:Hmr; [lia|].
  destruct (join_texts_run ml (hd 0 l)) as [ca [cb [Ha [Hb Hjl]]]]; [lia|].
  destruct (join_texts_run mr (hd 0 r)) as [ca' [cb' [Ha' [Hb' Hjr']]]];
    [lia|].
  rewrite <- Hl in Hjl. rewrite <- Hr in Hjr'.
  exists (cl_start ca), (cl_end cb), (cl_start ca'), (cl_end cb').
  rewrite Hvi, Hvj, Hs, He, Hti, Htj.
  pose proof (cluster_length _ _ Hi) as Hleni.
  pose proof (cluster_length _ _ Hj) as Hlenj.
  destruct (cluster_start_le _ _ _ _ Hli Ha Hi) as [Hsa _].
  assert (Hib : i_index (found occ) <= hd 0 l + ml) by lia.
  destruct (cluster_start_le _ _ _ _ Hib Hi Hb) as [_ Heb].
  assert (Hba : hd 0 l + ml < hd 0 r) by lia.
  pose proof (cluster_order U t _ _ _ _ Hba Hb Ha') as Hbetween.
  destruct (cluster_start_le _ _ _ _ Hrj Ha' Hj) as [Hsa' _].
  assert (Hjb : j_index (found occ) <= hd 0 r + mr) by lia.
  destruct (cluster_start_le _ _ _ _ Hjb Hj Hb') as [_ Heb'].
  destruct (cluster_text_slice U t _ _ Hb') as [_ [Hend _]].
  split; [exact Hjl|]. split; [exact Hjr'|].
  repeat split; lia.
Qed.

End ExpanderProperties.

Lemma vowel_texts_are_substrings_witness :
  exists occ,
    In occ (snd (detect_hiatus_in_text GreekUCD.greek_ucd
                   Samples.eta_omicron_upsilon_iota false 8))
    /\ vowel_j_text occ = [0x3BF%N; 0x3C5%N]
    /\ exists a b a' b',
         vowel_i_text occ
         = slice (normalize_NFC GreekUCD.greek_ucd
                    Samples.eta_omicron_upsilon_iota) a b
         /\ vowel_j_text occ
            = slice (normalize_NFC GreekUCD.greek_ucd
                       Samples.eta_omicron_upsilon_iota) a' b'
         /\ a <= start_pos (found occ)
         /\ start_pos (found occ)
            + List.length (cluster_i_text (found occ)) <= b
         /\ b <= a'
         /\ a' + List.length (cluster_j_text (found occ))
            <= end_pos (found occ)
         /\ end_pos (found occ) <= b'
         /\ b' <= List.length (normalize_NFC GreekUCD.greek_ucd
                                 Samples.eta_omicron_upsilon_iota).
Proof.
  assert (Hin : In (nth 0 (snd (detect_hiatus_in_text GreekUCD.greek_ucd
                                  Samples.eta_omicron_upsilon_iota false 8))
                        (mkOccurrence (mkHit IntraWord 0 0 [] [] [] 0 0 0 0 [])
                                      [] [] [] []))
                   (snd (detect_hiatus_in_text GreekUCD.greek_ucd
                           Samples.eta_omicron_upsilon_iota false 8)))
    by (vm_compute; left; reflexivity).
  eexists. split; [exact Hin|]. split; [vm_compute; reflexivity|].
  exact (vowel_texts_are_substrings GreekUCD.greek_ucd
           Samples.eta_omicron_upsilon_iota false 8 _ Hin).
Defined.

(* ================================================================= *)
(** * Further properties: the annotated text *)

Lemma html_escape_app (a b : str) :
  html_escape (a ++ b) = html_escape a ++ html_escape b.
Proof. unfold html_escape. apply flat_map_app. Qed.

Lemma html_escape_concat (l : list str) :
  html_escape (List.concat l) = flat_map html_escape l.
Proof.
  induction l as [|x l IH]; simpl; [reflexivity|].
  rewrite html_escape_app, IH. reflexivity.
Qed.

Lemma flat_map_snd_combine {A B C : Type} (f : B -> list C) (l2 : list B) :
  forall (l1 : list A),
    List.length l1 = List.length l2 ->
    flat_map (fun p => f (snd p)) (combine l1 l2) = flat_map f l2.
Proof.
  induction l2 as [|y l2 IH]; intros [|x l1] Hlen; simpl in *;
    try reflexivity; try discriminate.
  rewrite IH by lia. reflexivity.
Qed.

Lemma marks_from_cons (k n : nat) (occ : occurrence) (l : list occurrence) :
  marks_from k n (occ :: l)
  = map (fun _ => S n)
        (filter (Nat.eqb k) (vowel_i_indices occ ++ vowel_j_indices occ))
    ++ marks_from k (S n) l.
Proof. reflexivity. Qed.

Lemma marks_from_above (k : nat) (l : list occurrence) :
  forall n, Forall (fun x => n < x) (marks_from k n l).
Proof.
  induction l as [|occ l IH]; intros n; [constructor|].
  rewrite marks_from_cons. apply Forall_app. split.
  - apply Forall_forall. intros x Hx. apply in_map_iff in Hx.
    destruct Hx as [_ [<- _]]. lia.
  - eapply Forall_impl; [|apply (IH (S n))]. simpl. intros x Hx. lia.
Qed.

Lemma marks_from_unlisted (k : nat) (l : list occurrence) :
  (forall o, In o l ->
     ~ In k (vowel_i_indices o ++ vowel_j_indices o)) ->
  forall n, marks_from k n l = [].
Proof.
  induction l as [|occ l IH]; intros Hnone n; [reflexivity|].
  rewrite marks_from_cons, IH by (intros o Ho; apply Hnone; right; exact Ho).
  rewrite app_nil_r.
  destruct (filter (Nat.eqb k) (vowel_i_indices occ ++ vowel_j_indices occ))
    as [|x rest] eqn:Hf; [reflexivity|exfalso].
  assert (Hx : In x (filter (Nat.eqb k)
                       (vowel_i_indices occ ++ vowel_j_indices occ)))
    by (rewrite Hf; left; reflexivity).
  apply filter_In in Hx. destruct Hx as [Hin Heq].
  apply Nat.eqb_eq in Heq. subst x.
  exact (Hnone occ (or_introl eq_refl) Hin).
Qed.

Lemma marks_from_app (k : nat) (l1 l2 : list occurrence) :
  forall n,
    marks_from k n (l1 ++ l2)
    = marks_from k n l1 ++ marks_from k (n + List.length l1) l2.
Proof.
  induction l1 as [|occ l1 IH]; intros n.
  - simpl. rewrite Nat.add_0_r. reflexivity.
  - change ((occ :: l1) ++ l2) with (occ :: (l1 ++ l2)).
    rewrite !marks_from_cons, IH, <- app_assoc.
    replace (S n + List.length l1) with (n + List.length (occ :: l1))
      by (simpl; lia).
    reflexivity.
Qed.

Lemma fold_min_lower (l : list nat) :
  forall x, Forall (fun y => x <= y) l -> fold_left Nat.min l x = x.
Proof.
  induction l as [|y l IH]; intros x Hall; [reflexivity|].
  inversion Hall as [|? ? Hy Hrest]; subst. simpl.
  rewrite Nat.min_l by exact Hy. apply IH. exact Hrest.
Qed.

Lemma cluster_marks_from (occurrences : list occurrence) (k : nat) :
  cluster_marks occurrences k = marks_from k 0 occurrences.
Proof. reflexivity. Qed.

Section AnnotationProperties.

Variable U : UnicodeData.

(** X18.  When no occurrence is reported, the annotated text is the
    normalized text, escaped for HTML, with no markup added. *)
Theorem no_occurrence_plain_annotation (text : str)
  (treat_iota_as_diphthong : bool) (K : Z) :
  snd (detect_hiatus_in_text U text treat_iota_as_diphthong K) = [] ->
  fst (detect_hiatus_in_text U text treat_iota_as_diphthong K)
  = html_escape (normalize_NFC U text).
Proof.
  intros Hnone.
  change (fst (detect_hiatus_in_text U text treat_iota_as_diphthong K))
    with (annotate (clusters_of U (normalize_NFC U text))
            (snd (detect_hiatus_in_text U text treat_iota_as_diphthong K))).
  rewrite Hnone. unfold annotate, enumerate.
  change (fun p : nat * cluster => html_part [] (fst p) (snd p))
    with (fun p : nat * cluster => html_escape (cl_text (snd p))).
  rewrite (flat_map_snd_combine (fun c => html_escape (cl_text c)))
    by apply length_seq.
  rewrite <- (grapheme_clusters_cover U (normalize_NFC U text)) at 2.
  rewrite html_escape_concat. unfold clusters_of.
  rewrite !flat_map_concat_map, !map_map. reflexivity.
Qed.

(** X19.  How one cluster is written to the annotated text.  A cluster
    that no occurrence lists in its two spans is written as its escaped
    text.  A cluster listed by some occurrence is wrapped in one [span]
    whose class and title are those of the kind of the first occurrence,
    in the order of the list, that lists it. *)
Theorem cluster_markup_from_first_occurrence
  (occurrences : list occurrence) (k : nat) (cl : cluster) :
  ((forall o, In o occurrences ->
      ~ In k (vowel_i_indices o ++ vowel_j_indices o)) ->
   html_part occurrences k cl = html_escape (cl_text cl))
  /\ (forall pre occ post,
        occurrences = pre ++ occ :: post ->
        (forall o, In o pre ->
           ~ In k (vowel_i_indices o ++ vowel_j_indices o)) ->
        In k (vowel_i_indices occ ++ vowel_j_indices occ) ->
        html_part occurrences k cl
        = lit "<span class=" ++ DQUOTE
            ++ fst (span_class_title (kind (found occ))) ++ DQUOTE
            ++ lit " title=" ++ DQUOTE
            ++ html_escape (snd (span_class_title (kind (found occ))))
            ++ DQUOTE ++ lit ">" ++ html_escape (cl_text cl)
            ++ lit "</span>").
Proof.
  split.
  - intros Hnone. unfold html_part.
    rewrite cluster_marks_from, (marks_from_unlisted k _ Hnone).
    reflexivity.
  - intros pre occ post Hocc Hpre Hin. unfold html_part.
    rewrite cluster_marks_from, Hocc, marks_from_app.
    rewrite (marks_from_unlisted k pre Hpre), marks_from_cons.
    cbn [app Nat.add].
    destruct (filter (Nat.eqb k)
                (vowel_i_indices occ ++ vowel_j_indices occ))
      as [|x rest] eqn:Hf.
    + exfalso.
      assert (Hk : In k (filter (Nat.eqb k)
                           (vowel_i_indices occ ++ vowel_j_indices occ)))
        by (apply filter_In; split; [exact Hin | apply Nat.eqb_refl]).
      rewrite Hf in Hk. exact Hk.
    + cbn [map app].
      assert (Hmin : list_min
                       (S (List.length pre)
                          :: (map (fun _ => S (List.length pre)) rest
                              ++ marks_from k (S (List.length pre)) post))
                     = S (List.length pre)).
      { unfold list_min. apply fold_min_lower. apply Forall_app. split.
        - apply Forall_forall. intros y Hy. apply in_map_iff in Hy.
          destruct Hy as [_ [<- _]]. lia.
        - eapply Forall_impl; [|apply marks_from_above].
          simpl. intros y Hy. lia. }
      rewrite Hmin.
      replace (S (List.length pre) - 1) with (List.length pre + 0) by lia.
      rewrite nth_error_app2 by lia.
      replace (List.length pre + 0 - List.length pre) with 0 by lia.
      reflexivity.
Qed.

End AnnotationProperties.

Lemma no_occurrence_plain_annotation_witness :
  snd (detect_hiatus_in_text GreekUCD.greek_ucd Samples.alpha_upsilon_iota
         false 8) = []
  /\ fst (detect_hiatus_in_text GreekUCD.greek_ucd
            Samples.alpha_upsilon_iota false 8)
     = html_escape (normalize_NFC GreekUCD.greek_ucd
                      Samples.alpha_upsilon_iota).
Proof.
  assert (Hnone : snd (detect_hiatus_in_text GreekUCD.greek_ucd
                         Samples.alpha_upsilon_iota false 8) = [])
    by (vm_compute; reflexivity).
  split; [exact Hnone|].
  exact (no_occurrence_plain_annotation GreekUCD.greek_ucd
           Samples.alpha_upsilon_iota false 8 Hnone).
Defined.

(* ================================================================= *)
(** * Further properties: the report rows *)

Lemma nth_error_combine_seq {A : Type} (l : list A) :
  forall n k x,
    nth_error l k = Some x ->
    nth_error (combine (seq n (List.length l)) l) k = Some (n + k, x).
Proof.
  induction l as [|y l IH]; intros n [|k] x Hk; simpl in *;
    try discriminate.
  - inversion Hk; subst. rewrite Nat.add_0_r. reflexivity.
  - rewrite (IH (S n) k x Hk). f_equal. f_equal. lia.
Qed.

Lemma kind_short_kind_text (k : hiatus_kind) :
  kind_short (kind_text k)
  = match k with
    | IntraWord => lit "I"
    | InterWord => lit "B"
    | AcrossLine => lit "V"
    end.
Proof. destruct k; reflexivity. Qed.

Section ReportProperties.

Variable U : UnicodeData.
Variable text : str.
Variable treat_iota_as_diphthong : bool.
Variable K : Z.

Local Abbreviation occurrences :=
  (snd (detect_hiatus_in_text U text treat_iota_as_diphthong K)).

(** X20.  The report has one table row and one CSV record per reported
    occurrence, in the order of the list and numbered from 1; the table
    row shows the number, the kind, the line cell and the two escaped
    vowel texts of the record with the same number.  The record
    of an occurrence carries its two positions and its two vowel texts;
    its kind is written I for intra-word, B for interword and V for
    across-line, and its line cell is the 1-based line of the first
    cluster, followed for an across-line occurrence by a hyphen and the
    next line number. *)
Theorem report_record_of_occurrence (n : nat) (occ : occurrence) :
  nth_error occurrences n = Some occ ->
  List.length (fst (report_rows occurrences)) = List.length occurrences
  /\ List.length (snd (report_rows occurrences)) = List.length occurrences
  /\ exists r,
       nth_error (snd (report_rows occurrences)) n = Some r
       /\ csv_index r = n + 1
       /\ csv_start_pos r = start_pos (found occ)
       /\ csv_end_pos r = end_pos (found occ)
       /\ csv_vowel_i r = vowel_i_text occ
       /\ csv_vowel_j r = vowel_j_text occ
       /\ match kind (found occ) with
          | IntraWord =>
              csv_kind r = lit "I"
              /\ csv_line r = str_of_nat (line_i (found occ))
          | InterWord =>
              csv_kind r = lit "B"
              /\ csv_line r = str_of_nat (line_i (found occ))
          | AcrossLine =>
              csv_kind r = lit "V"
              /\ csv_line r
                 = str_of_nat (line_i (found occ)) ++ lit "-"
                     ++ str_of_nat (line_i (found occ) + 1)
          end
       /\ nth_error (fst (report_rows occurrences)) n
          = Some (lit "<tr><td>" ++ str_of_nat (n + 1) ++ lit "</td>"
                    ++ lit "<td>" ++ csv_kind r ++ lit "</td>"
                    ++ lit "<td>" ++ csv_line r ++ lit "</td>"
                    ++ lit "<td>" ++ html_escape (vowel_i_text occ)
                    ++ lit "</td>"
                    ++ lit "<td>" ++ html_escape (vowel_j_text occ)
                    ++ lit "</td></tr>").
Proof.
  intros Hn.
  split; [unfold report_rows, enumerate; cbn [fst];
          rewrite length_map, length_combine, length_seq; lia|].
  split; [unfold report_rows, enumerate; cbn [snd];
          rewrite length_map, length_combine, length_seq; lia|].
  exists (csv_row_of (S n) occ).
  split.
  { unfold report_rows, enumerate. cbn [snd].
    rewrite nth_error_map, (nth_error_combine_seq _ 0 n occ Hn).
    reflexivity. }
  split; [cbn [csv_row_of csv_index]; lia|].
  split; [reflexivity|]. split; [reflexivity|].
  split; [reflexivity|]. split; [reflexivity|].
  split.
  2:{ unfold report_rows, enumerate. cbn [fst].
      rewrite nth_error_map, (nth_error_combine_seq _ 0 n occ Hn).
      rewrite Nat.add_1_r. reflexivity. }
  assert (Hin : In occ occurrences) by (eapply nth_error_In; exact Hn).
  apply In_occurrences in Hin. destruct Hin as [Hin _].
  apply scan_hit_fields in Hin.
  destruct Hin as [ci [cj [_ [_ [_ [_ [_ [Hk [_ [_ [_ [_ [_
                   [Hli [Hlj _]]]]]]]]]]]]]]].
  pose proof (classify_kind_cases U _ _ _ _ _ _ _ Hk) as Hcase.
  unfold csv_row_of. cbn [csv_kind csv_line].
  rewrite kind_short_kind_text.
  destruct (kind (found occ)).
  - split; reflexivity.
  - split; reflexivity.
  - split; [reflexivity|].
    destruct Hcase as [_ [Hln _]].
    assert (Hnext : line_j (found occ) = line_i (found occ) + 1) by lia.
    unfold line_display. rewrite Hnext. reflexivity.
Qed.

End ReportProperties.

Example theou_markup :
  let detected :=
    detect_hiatus_in_text GreekUCD.greek_ucd Samples.theou false 8 in
  List.length (snd detected) = 1
  /\ fst detected
     = html_escape [0x3B8%N]
         ++ lit "<span class=" ++ DQUOTE ++ lit "hiatus-intra" ++ DQUOTE
         ++ lit " title=" ++ DQUOTE ++ lit "intra-word hiatus" ++ DQUOTE
         ++ lit ">" ++ html_escape [0x3B5%N] ++ lit "</span>"
         ++ lit "<span class=" ++ DQUOTE ++ lit "hiatus-intra" ++ DQUOTE
         ++ lit " title=" ++ DQUOTE ++ lit "intra-word hiatus" ++ DQUOTE
         ++ lit ">" ++ html_escape [0x3BF%N] ++ lit "</span>"
         ++ lit "<span class=" ++ DQUOTE ++ lit "hiatus-intra" ++ DQUOTE
         ++ lit " title=" ++ DQUOTE ++ lit "intra-word hiatus" ++ DQUOTE
         ++ lit ">" ++ html_escape [0x1FE6%N] ++ lit "</span>".
Proof. split; vm_compute; reflexivity. Qed.

Lemma report_record_of_occurrence_witness :
  exists occ,
    nth_error (snd (detect_hiatus_in_text GreekUCD.greek_ucd
                      Samples.pneuma_hagion false 8)) 0 = Some occ
    /\ kind (found occ) = AcrossLine
    /\ exists r,
         nth_error (snd (report_rows
                           (snd (detect_hiatus_in_text GreekUCD.greek_ucd
                                   Samples.pneuma_hagion false 8)))) 0
         = Some r
         /\ csv_index r = 1
         /\ csv_kind r = lit "V"
         /\ csv_line r = lit "1-2".
Proof.
  set (occ0 := nth 0 (snd (detect_hiatus_in_text GreekUCD.greek_ucd
                             Samples.pneuma_hagion false 8))
                   (mkOccurrence (mkHit IntraWord 0 0 [] [] [] 0 0 0 0 [])
                                 [] [] [] [])).
  assert (Hn : nth_error (snd (detect_hiatus_in_text GreekUCD.greek_ucd
                                 Samples.pneuma_hagion false 8)) 0
               = Some occ0) by (vm_compute; reflexivity).
  assert (Hkind : kind (found occ0) = AcrossLine)
    by (vm_compute; reflexivity).
  assert (Hline : str_of_nat (line_i (found occ0)) ++ lit "-"
                    ++ str_of_nat (line_i (found occ0) + 1) = lit "1-2")
    by (vm_compute; reflexivity).
  pose proof (report_record_of_occurrence GreekUCD.greek_ucd
                Samples.pneuma_hagion false 8 0 occ0 Hn)
    as [_ [_ [r [Hr [Hidx [_ [_ [_ [_ [Hrow _]]]]]]]]]].
  rewrite Hkind in Hrow. destruct Hrow as [Hk Hl]. rewrite Hline in Hl.
  exists occ0. split; [exact Hn|]. split; [exact Hkind|].
  exists r. split; [exact Hr|]. split; [exact Hidx|].
  split; [exact Hk | exact Hl].
Defined.
